(** * fastchain: routing, tool selection and session state

    A shallow embedding of the task-routing and state-management layer:
    - [src/routing/decision_maker.py]  (DecisionMaker)
    - [src/agents/registry.py]         (AgentRegistry)
    - [src/tools/base.py]              (Tool, ToolRegistry)
    - [src/tools/discovery.py]         (ToolDiscovery)
    - [src/context/context_manager.py] (recursive_update, ContextManager)

    Conventions.  A Python [dict] is an association list in insertion
    order; the keys of a dict are pairwise distinct, which statements that
    depend on it assume as [NoDup (keys d)].  A raised exception is the
    [Err] case of [result].

    The code is embedded at two levels.  [Routing], [Tools], [Context] and
    [Discovery] compute with exact rationals ([Q]) and hold dicts by value;
    the statements proved there do not depend on rounding or on which
    object a dict is.  [Py], [Engine], [Selection] and [ContextObjects]
    embed the same functions over what Python has: unbounded ints and
    IEEE-754 doubles with NaN, infinities and [OverflowError], dict objects
    held by reference and changed in place, and a bounded call stack.  The
    statements about scores, selection, stored records and the deep merge
    are proved at that level. *)

From Stdlib Require Import List String Bool Arith Lia.
From Stdlib Require Import ZArith QArith Lqa.
From Stdlib Require Import SpecFloat.
Import ListNotations.
Open Scope string_scope.
Open Scope list_scope.

(* ------------------------------------------------------------------ *)
(** * Exceptions as data *)

Inductive result (E A : Type) : Type :=
| Ok (a : A)
| Err (e : E).
Arguments Ok {E A} a.
Arguments Err {E A} e.

Definition bind {E A B} (r : result E A) (k : A -> result E B) : result E B :=
  match r with
  | Ok a => k a
  | Err e => Err e
  end.

Definition fst_ok {E A B} (r : result E (A * B)) : option A :=
  match r with
  | Ok (a, _) => Some a
  | Err _ => None
  end.

Notation "'do' x <- r ; k" := (bind r (fun x => k))
  (at level 10, x name, r at level 100, k at level 200).

(* ------------------------------------------------------------------ *)
(** * Python dicts: association lists in insertion order *)

Module Dict.

Definition t (V : Type) : Type := list (string * V).

Section Ops.
Context {V : Type}.

Definition keys (d : t V) : list string := map fst d.

(** [d.get(k)] *)
Fixpoint get (k : string) (d : t V) : option V :=
  match d with
  | [] => None
  | (k', v) :: rest => if String.eqb k k' then Some v else get k rest
  end.

(** [k in d] *)
Definition mem (k : string) (d : t V) : bool :=
  match get k d with Some _ => true | None => false end.

(** [d[k] = v]: an existing key keeps its position, a new key goes last. *)
Fixpoint set (k : string) (v : V) (d : t V) : t V :=
  match d with
  | [] => [(k, v)]
  | (k', v') :: rest =>
      if String.eqb k k' then (k', v) :: rest else (k', v') :: set k v rest
  end.

(** [del d[k]] *)
Fixpoint del (k : string) (d : t V) : t V :=
  match d with
  | [] => []
  | (k', v') :: rest =>
      if String.eqb k k' then rest else (k', v') :: del k rest
  end.
End Ops.
End Dict.

(* ------------------------------------------------------------------ *)
(** * JSON-like values held in agent metadata and session contexts *)

#[warnings="-register-all"]
Inductive json : Type :=
| JNull
| JBool (b : bool)
| JNum (q : Q)
| JStr (s : string)
| JList (l : list json)
| JDict (d : list (string * json)).

(** [isinstance(v, dict)] *)
Definition is_dict (v : json) : bool :=
  match v with JDict _ => true | _ => false end.

(** The operand of Python arithmetic: numbers and booleans; arithmetic on
    anything else ends in a [TypeError]. *)
Definition num_of (v : json) : option Q :=
  match v with
  | JNum q => Some q
  | JBool b => Some (if b then 1 else 0)
  | _ => None
  end.

(** [float(v)], given Python's [float] on strings; [None] stands for
    [TypeError]/[ValueError]. *)
Definition py_float (float_of_str : string -> option Q) (v : json) : option Q :=
  match v with
  | JNum q => Some q
  | JBool b => Some (if b then 1 else 0)
  | JStr s => float_of_str s
  | JNull | JList _ | JDict _ => None
  end.

(** A [float] that accepts no string, for examples without string numbers. *)
Definition no_float : string -> option Q := fun _ => None.

(** [a > b] and [a >= b] on numbers. *)
Definition Qgtb (a b : Q) : bool := negb (Qle_bool a b).
Definition Qgeb (a b : Q) : bool := Qle_bool b a.
Definition Qltb (a b : Q) : bool := negb (Qle_bool b a).

Lemma Qgtb_lt a b : Qgtb a b = true <-> b < a.
Proof.
  unfold Qgtb. rewrite negb_true_iff.
  split; intro H.
  - apply Qnot_le_lt. intro L. apply Qle_bool_iff in L. congruence.
  - destruct (Qle_bool a b) eqn:E; [|reflexivity].
    apply Qle_bool_iff in E. exfalso. exact (Qlt_not_le _ _ H E).
Qed.

Lemma Qgtb_false a b : Qgtb a b = false <-> a <= b.
Proof.
  unfold Qgtb. rewrite negb_false_iff. apply Qle_bool_iff.
Qed.

Lemma Qgeb_le a b : Qgeb a b = true <-> b <= a.
Proof. unfold Qgeb. apply Qle_bool_iff. Qed.

Lemma Qgeb_false a b : Qgeb a b = false <-> a < b.
Proof.
  unfold Qgeb. split; intro H.
  - apply Qnot_le_lt. intro L. apply Qle_bool_iff in L. congruence.
  - destruct (Qle_bool b a) eqn:E; [|reflexivity].
    apply Qle_bool_iff in E. exfalso. exact (Qlt_not_le _ _ H E).
Qed.

Lemma Qltb_lt a b : Qltb a b = true <-> a < b.
Proof. unfold Qltb. apply (Qgtb_lt b a). Qed.

(* ------------------------------------------------------------------ *)
(** * Facts about dicts *)

Section DictFacts.
Context {V : Type}.
Implicit Types (d : Dict.t V) (k : string) (v : V).

Lemma get_set_eq k v d : Dict.get k (Dict.set k v d) = Some v.
Proof.
  induction d as [|[k' v'] d IH]; simpl.
  - now rewrite String.eqb_refl.
  - destruct (String.eqb k k') eqn:E; simpl; rewrite E; auto.
Qed.

Lemma get_set_neq k k' v d :
  k <> k' -> Dict.get k' (Dict.set k v d) = Dict.get k' d.
Proof.
  intros N. induction d as [|[k0 v0] d IH]; simpl.
  - destruct (String.eqb k' k) eqn:E; auto.
    apply String.eqb_eq in E. congruence.
  - destruct (String.eqb k k0) eqn:E; simpl.
    + apply String.eqb_eq in E. subst k0.
      destruct (String.eqb k' k) eqn:E'; auto.
      apply String.eqb_eq in E'. congruence.
    + destruct (String.eqb k' k0); auto.
Qed.

Lemma get_None_notin k d : Dict.get k d = None <-> ~ In k (Dict.keys d).
Proof.
  induction d as [|[k' v'] d IH]; simpl.
  - tauto.
  - destruct (String.eqb k k') eqn:E.
    + apply String.eqb_eq in E. subst. split; [discriminate | tauto].
    + apply String.eqb_neq in E. rewrite IH. split.
      * intros H [H1 | H1]; [congruence | tauto].
      * tauto.
Qed.

Lemma get_In k v d : Dict.get k d = Some v -> In (k, v) d.
Proof.
  induction d as [|[k' v'] d IH]; simpl; [discriminate|].
  destruct (String.eqb k k') eqn:E.
  - apply String.eqb_eq in E. subst. intros [= ->]. now left.
  - auto.
Qed.

Lemma In_get k v d : NoDup (Dict.keys d) -> In (k, v) d -> Dict.get k d = Some v.
Proof.
  induction d as [|[k' v'] d IH]; simpl; [tauto|].
  intros ND [H | H].
  - inversion H; subst. now rewrite String.eqb_refl.
  - inversion ND as [|? ? Hn ND']; subst.
    destruct (String.eqb k k') eqn:E.
    + apply String.eqb_eq in E. subst. exfalso. apply Hn.
      change k' with (fst (k', v)). now apply in_map.
    + auto.
Qed.

(** A key that is not yet present is appended. *)
Lemma set_fresh k v d : ~ In k (Dict.keys d) -> Dict.set k v d = d ++ [(k, v)].
Proof.
  induction d as [|[k' v'] d IH]; simpl; intros H; auto.
  destruct (String.eqb k k') eqn:E.
  - apply String.eqb_eq in E. subst. tauto.
  - f_equal. apply IH. tauto.
Qed.

Lemma keys_app d d' : Dict.keys (d ++ d') = Dict.keys d ++ Dict.keys d'.
Proof. unfold Dict.keys. apply map_app. Qed.

Lemma keys_set_In k v d k' :
  In k' (Dict.keys (Dict.set k v d)) <-> k' = k \/ In k' (Dict.keys d).
Proof.
  induction d as [|[k0 v0] d IH]; simpl.
  - intuition.
  - destruct (String.eqb k k0) eqn:E; simpl.
    + apply String.eqb_eq in E. subst. intuition.
    + rewrite IH. intuition.
Qed.

Lemma NoDup_keys_set k v d : NoDup (Dict.keys d) -> NoDup (Dict.keys (Dict.set k v d)).
Proof.
  induction d as [|[k0 v0] d IH]; simpl; intros ND.
  - constructor; [simpl; tauto | constructor].
  - inversion ND as [|? ? Hn ND']; subst.
    destruct (String.eqb k k0) eqn:E; simpl.
    + now constructor.
    + constructor; auto. rewrite keys_set_In. intros [-> | H]; [|tauto].
      now rewrite String.eqb_refl in E.
Qed.

Lemma get_del_eq k d : NoDup (Dict.keys d) -> Dict.get k (Dict.del k d) = None.
Proof.
  induction d as [|[k0 v0] d IH]; simpl; intros ND; auto.
  inversion ND as [|? ? Hn ND']; subst.
  destruct (String.eqb k k0) eqn:E; simpl.
  - apply String.eqb_eq in E. subst. now apply get_None_notin.
  - rewrite E. auto.
Qed.

Lemma get_del_neq k k' d : k <> k' -> Dict.get k' (Dict.del k d) = Dict.get k' d.
Proof.
  intros N. induction d as [|[k0 v0] d IH]; simpl; auto.
  destruct (String.eqb k k0) eqn:E; simpl.
  - apply String.eqb_eq in E. subst k0.
    destruct (String.eqb k' k) eqn:E'; auto.
    apply String.eqb_eq in E'. congruence.
  - destruct (String.eqb k' k0); auto.
Qed.

Lemma keys_del_In k d k' :
  In k' (Dict.keys (Dict.del k d)) -> In k' (Dict.keys d).
Proof.
  induction d as [|[k0 v0] d IH]; simpl; auto.
  destruct (String.eqb k k0); simpl; tauto.
Qed.

Lemma NoDup_keys_del k d : NoDup (Dict.keys d) -> NoDup (Dict.keys (Dict.del k d)).
Proof.
  induction d as [|[k0 v0] d IH]; simpl; intros ND; auto.
  inversion ND as [|? ? Hn ND']; subst.
  destruct (String.eqb k k0); simpl; auto.
  constructor; auto. intro H. apply Hn. eapply keys_del_In; eauto.
Qed.
Lemma in_set_inv k v d k' v' :
  In (k', v') (Dict.set k v d) -> (k' = k /\ v' = v) \/ In (k', v') d.
Proof.
  induction d as [|[k0 v0] d IH]; simpl.
  - intros [[= <- <-] | []]. now left.
  - destruct (String.eqb k k0) eqn:E; simpl.
    + apply String.eqb_eq in E. subst k0.
      intros [[= <- <-] | H]; [now left | right; now right].
    + intros [H | H]; [right; now left|].
      destruct (IH H); [now left | right; now right].
Qed.

Lemma in_del_inv k d k' v' : In (k', v') (Dict.del k d) -> In (k', v') d.
Proof.
  induction d as [|[k0 v0] d IH]; simpl; auto.
  destruct (String.eqb k k0); simpl; [now right | intros [H | H]; auto].
Qed.
End DictFacts.


(* ================================================================== *)
(** * Agent catalog and decision engine
    [src/agents/registry.py], [src/routing/decision_maker.py] *)

Module Routing.

(** The exceptions of the routing path.  [DecisionMaker] raises
    [RuntimeError] throughout and tells its cases apart by message;
    [AgentRegistry] raises [ValueError]. *)
Inductive error : Type :=
| NoCapableAgents (capability : string)   (* "No agents found with capability: ..." *)
| NoActiveAgents (capability : string)    (* "No active agents found with capability: ..." *)
| InvalidMetrics (agent_id : string)      (* "Invalid metrics for agent ..." *)
| AlreadyRegistered (agent_name : string) (* ValueError, register_agent *)
| NotRegistered (agent_name : string)     (* ValueError, update_agent / unregister_agent *)
| MaxOfEmpty.                             (* ValueError, max() of an empty sequence *)

(** The metadata dict of one agent, by the keys the code reads and writes. *)
Record AgentMetadata : Type := {
  capabilities : list string;      (* metadata.get("capabilities", []) *)
  status : option string;          (* metadata.get("status") *)
  load : option json;              (* present iff "load" in metadata *)
  performance : option json;       (* present iff "performance" in metadata *)
  last_selected : option string;
  current_task : option string;
  registered_at : option string;
  last_updated : option string
}.

(** [AgentRegistry._agents] *)
Definition registry := Dict.t AgentMetadata.

(** [AgentRegistry.register_agent]; a missing status defaults to
    "initializing". *)
Definition register_agent (agents : registry) (agent_name : string)
    (metadata : AgentMetadata) (now : string) : result error registry :=
  if Dict.mem agent_name agents then Err (AlreadyRegistered agent_name)
  else
    let metadata' := {|
      capabilities := capabilities metadata;
      status := match status metadata with
                | Some s => Some s
                | None => Some "initializing"
                end;
      load := load metadata;
      performance := performance metadata;
      last_selected := last_selected metadata;
      current_task := current_task metadata;
      registered_at := Some now;
      last_updated := Some now |} in
    Ok (Dict.set agent_name metadata' agents).

(** [AgentRegistry.update_agent] as [route_task] calls it: the update dict
    is [{"last_selected": ..., "current_task": ...}]. *)
Definition update_agent (agents : registry) (agent_name : string)
    (selected_at task : string) (now : string) : result error registry :=
  match Dict.get agent_name agents with
  | None => Err (NotRegistered agent_name)
  | Some metadata =>
      let metadata' := {|
        capabilities := capabilities metadata;
        status := status metadata;
        load := load metadata;
        performance := performance metadata;
        last_selected := Some selected_at;
        current_task := Some task;
        registered_at := registered_at metadata;
        last_updated := Some now |} in
      Ok (Dict.set agent_name metadata' agents)
  end.

Section DecisionMaker.

(** Python's [float(s)] on a string: the grammar of float literals is not
    part of this development, any parser will do. *)
Variable float_of_str : string -> option Q.

(** [min(1.0, x)] *)
Definition min_one (x : Q) : Q := if Qltb x 1 then x else 1.

(** The body of the [try] block of [get_load_metrics] for one agent;
    [None] is any exception raised there. *)
Definition agent_load (metadata : AgentMetadata) : option Q :=
  match load metadata with
  | Some v => py_float float_of_str v
  | None =>
      (* performance = metadata.get("performance", {}) *)
      let performance :=
        match performance metadata with
        | Some v => v
        | None => JDict []
        end in
      match performance with
      | JDict perf =>
          let recent_requests :=
            match Dict.get "request_count" perf with
            | Some v => v
            | None => JNum 0
            end in
          let avg_response_time :=
            match Dict.get "response_time_ms" perf with
            | Some v => v
            | None => JNum 100
            end in
          match num_of recent_requests, num_of avg_response_time with
          | Some r, Some a => Some (min_one ((r * a) / 10000))
          | _, _ => None                (* TypeError *)
          end
      | _ => None                       (* AttributeError: no .get *)
      end
  end.

(** The body of the [try] block of [get_performance_metrics]. *)
Definition agent_performance (metadata : AgentMetadata) : option Q :=
  match performance metadata with
  | None => None                        (* {} : "Missing success_rate ..." *)
  | Some (JDict perf) =>
      match Dict.get "success_rate" perf with
      | None => None                    (* "Missing success_rate ..." *)
      | Some v => py_float float_of_str v
      end
  | Some JNull => Some 0
  | Some v => py_float float_of_str v
  end.

(** The loop shared by [get_load_metrics] and [get_performance_metrics]:
    the first agent whose metric cannot be computed aborts the call. *)
Fixpoint collect_metrics (metric : AgentMetadata -> option Q)
    (agents_data : registry) (metrics : Dict.t Q) : result error (Dict.t Q) :=
  match agents_data with
  | [] => Ok metrics
  | (agent_id, metadata) :: rest =>
      match metric metadata with
      | Some m => collect_metrics metric rest (Dict.set agent_id m metrics)
      | None => Err (InvalidMetrics agent_id)
      end
  end.

Definition get_load_metrics (agents : registry) : result error (Dict.t Q) :=
  collect_metrics agent_load agents [].

Definition get_performance_metrics (agents : registry) : result error (Dict.t Q) :=
  collect_metrics agent_performance agents [].

(** [required_capability in metadata.get("capabilities", [])] *)
Definition has_capability (required_capability : string) (metadata : AgentMetadata) : bool :=
  existsb (String.eqb required_capability) (capabilities metadata).

(** [metadata.get("status") == "active"] *)
Definition is_active (metadata : AgentMetadata) : bool :=
  match status metadata with
  | Some s => String.eqb s "active"
  | None => false
  end.

Definition get_candidate_agents (agents : registry) (required_capability : string)
    : result error (list string) :=
  let capable := filter (fun a => has_capability required_capability (snd a)) agents in
  let all_candidates := map fst capable in
  let active_candidates := map fst (filter (fun a => is_active (snd a)) capable) in
  match all_candidates, active_candidates with
  | [], _ => Err (NoCapableAgents required_capability)
  | _, [] => Err (NoActiveAgents required_capability)
  | _, _ => Ok active_candidates
  end.

(** The two weights set by [DecisionMaker.__init__]. *)
Record DecisionMaker : Type := {
  weight_performance : Q;
  weight_load : Q
}.

Definition DecisionMaker_init : DecisionMaker :=
  {| weight_performance := 6 # 10; weight_load := 4 # 10 |}.

Definition calculate_agent_score (self : DecisionMaker) (agent_id : string)
    (load_metrics performance_metrics : Dict.t Q) : Q :=
  let load := match Dict.get agent_id load_metrics with
              | Some l => l
              | None => 1
              end in
  let performance := match Dict.get agent_id performance_metrics with
                     | Some p => p
                     | None => 5 # 10
                     end in
  weight_performance self * performance + weight_load self * (1 - load).

(** [max(items, key=lambda x: x[1])]: the first item with the largest key. *)
Fixpoint max_from (best : string * Q) (items : list (string * Q)) : string * Q :=
  match items with
  | [] => best
  | x :: rest => max_from (if Qgtb (snd x) (snd best) then x else best) rest
  end.

Definition py_max (items : list (string * Q)) : result error (string * Q) :=
  match items with
  | [] => Err MaxOfEmpty
  | x :: rest => Ok (max_from x rest)
  end.

(** The "missing metrics" check of [route_task]. *)
Fixpoint check_metrics (candidates : list string)
    (load_metrics performance_metrics : Dict.t Q) : result error unit :=
  match candidates with
  | [] => Ok tt
  | agent_id :: rest =>
      if Dict.mem agent_id load_metrics && Dict.mem agent_id performance_metrics
      then check_metrics rest load_metrics performance_metrics
      else Err (InvalidMetrics agent_id)
  end.

(** [route_task]: the selected agent and the catalog after the write-back.
    [selected_at] and [now] are the two clock readings. *)
Definition route_task (self : DecisionMaker) (agents : registry)
    (required_capability : string) (selected_at now : string)
    : result error (string * registry) :=
  do candidates <- get_candidate_agents agents required_capability;
  do load_metrics <- get_load_metrics agents;
  do performance_metrics <- get_performance_metrics agents;
  do _ <- check_metrics candidates load_metrics performance_metrics;
  let candidate_scores :=
    fold_left
      (fun scores agent_id =>
         Dict.set agent_id
           (calculate_agent_score self agent_id load_metrics performance_metrics)
           scores)
      candidates [] in
  do selected <- py_max candidate_scores;
  let selected_agent := fst selected in
  do agents' <- update_agent agents selected_agent selected_at required_capability now;
  Ok (selected_agent, agents').

End DecisionMaker.

(** ** Facts about the decision engine *)

(** Both the capability and the status test of [get_candidate_agents]. *)
Definition eligible (required_capability : string) (a : string * AgentMetadata) : bool :=
  has_capability required_capability (snd a) && is_active (snd a).

Lemma filter_filter_and {A : Type} (p q : A -> bool) (l : list A) :
  filter q (filter p l) = filter (fun a => p a && q a) l.
Proof.
  induction l as [|a l IH]; simpl; auto.
  destruct (p a); simpl; [destruct (q a)|]; simpl; congruence.
Qed.

Lemma NoDup_keys_filter {V : Type} (p : string * V -> bool) (d : Dict.t V) :
  NoDup (Dict.keys d) -> NoDup (Dict.keys (filter p d)).
Proof.
  induction d as [|a d IH]; simpl; intros ND; auto.
  inversion ND as [|? ? Hn ND']; subst.
  destruct (p a); simpl; auto.
  constructor; auto. intro H. apply Hn.
  unfold Dict.keys in *. apply in_map_iff in H. destruct H as [x [Hx Hin]].
  apply filter_In in Hin. apply in_map_iff. exists x. tauto.
Qed.



Lemma collect_metrics_get metric agents acc m :
  NoDup (Dict.keys agents) ->
  collect_metrics metric agents acc = Ok m ->
  forall id, Dict.get id m =
             match Dict.get id agents with
             | Some md => metric md
             | None => Dict.get id acc
             end.
Proof.
  revert acc. induction agents as [|[k md] agents IH]; intros acc ND H id; simpl in *.
  - now inversion H.
  - inversion ND as [|? ? Hn ND']; subst.
    destruct (metric md) as [v|] eqn:E; [|discriminate].
    rewrite (IH _ ND' H id).
    destruct (String.eqb id k) eqn:Ek.
    + apply String.eqb_eq in Ek. subst id.
      apply get_None_notin in Hn. rewrite Hn. rewrite get_set_eq. now rewrite E.
    + apply String.eqb_neq in Ek.
      destruct (Dict.get id agents); auto.
      apply get_set_neq. congruence.
Qed.


Lemma fold_set_fresh (f : string -> Q) (xs : list string) (acc : Dict.t Q) :
  NoDup (Dict.keys acc ++ xs) ->
  fold_left (fun d x => Dict.set x (f x) d) xs acc = acc ++ map (fun x => (x, f x)) xs.
Proof.
  revert acc. induction xs as [|x xs IH]; intros acc ND; simpl.
  - now rewrite app_nil_r.
  - rewrite set_fresh.
    + rewrite IH.
      * now rewrite <- app_assoc.
      * rewrite keys_app. simpl. now rewrite <- app_assoc.
    + apply NoDup_remove_2 in ND. intro H. apply ND. apply in_or_app. now left.
Qed.

(** [max(..., key=...)] returns the first item whose key is not exceeded. *)
Lemma max_from_spec items : forall best pre0 mid,
  (forall x, In x pre0 -> snd x < snd best) ->
  (forall x, In x mid -> snd x <= snd best) ->
  exists pre post,
    pre0 ++ best :: mid ++ items = pre ++ max_from best items :: post /\
    (forall x, In x pre -> snd x < snd (max_from best items)) /\
    (forall x, In x post -> snd x <= snd (max_from best items)).
Proof.
  induction items as [|x items IH]; intros best pre0 mid Hpre Hmid; simpl.
  - exists pre0, mid. rewrite app_nil_r. auto.
  - destruct (Qgtb (snd x) (snd best)) eqn:E.
    + apply Qgtb_lt in E.
      destruct (IH x (pre0 ++ best :: mid) []) as [pre [post [H1 [H2 H3]]]].
      * intros y Hy. apply in_app_or in Hy. destruct Hy as [Hy | [<- | Hy]].
        -- eapply Qlt_trans; [apply Hpre|]; eauto.
        -- exact E.
        -- eapply Qle_lt_trans; [apply Hmid|]; eauto.
      * simpl. tauto.
      * exists pre, post. split; [|auto].
        rewrite <- H1. simpl. rewrite <- app_assoc. reflexivity.
    + apply Qgtb_false in E.
      destruct (IH best pre0 (mid ++ [x])) as [pre [post [H1 [H2 H3]]]]; auto.
      * intros y Hy. apply in_app_or in Hy. destruct Hy as [Hy | [<- | []]]; auto.
      * exists pre, post. split; [|auto].
        rewrite <- H1. now rewrite <- app_assoc.
Qed.

Lemma py_max_spec items :
  items <> [] ->
  exists r pre post,
    py_max items = Ok r /\ items = pre ++ r :: post /\
    (forall x, In x pre -> snd x < snd r) /\
    (forall x, In x post -> snd x <= snd r).
Proof.
  destruct items as [|x items]; [congruence|]. intros _.
  destruct (max_from_spec items x [] []) as [pre [post [H1 [H2 H3]]]];
    simpl; try tauto.
  exists (max_from x items), pre, post. simpl in H1. auto.
Qed.

Lemma check_metrics_ok candidates lm pm :
  (forall id, In id candidates -> Dict.get id lm <> None /\ Dict.get id pm <> None) ->
  check_metrics candidates lm pm = Ok tt.
Proof.
  induction candidates as [|id cs IH]; intros H; simpl; auto.
  destruct (H id (or_introl eq_refl)) as [H1 H2].
  unfold Dict.mem.
  destruct (Dict.get id lm); [|congruence].
  destruct (Dict.get id pm); [|congruence].
  simpl. apply IH. intros. apply H. now right.
Qed.




(** An agent record as the tests build them. *)

Definition agent (caps : list string) (st : string) (perf : option json)
    (ld : option json) : AgentMetadata :=
  {| capabilities := caps; status := Some st; load := ld; performance := perf;
     last_selected := None; current_task := None;
     registered_at := None; last_updated := None |}.

Example route_spec_example :
  fst_ok (route_task no_float DecisionMaker_init
     [("agent1", agent ["intent"] "active"
                  (Some (JDict [("success_rate", JNum (9 # 10))])) (Some (JNum (3 # 10))));
      ("agent2", agent ["intent"] "active"
                  (Some (JDict [("success_rate", JNum (7 # 10))])) (Some (JNum (8 # 10))))]
     "intent" "t0" "t1") = Some "agent1".
Proof. reflexivity. Qed.

(** The record of the test "missing metrics": capability and status only. *)
Definition bare_agent (caps : list string) : AgentMetadata := agent caps "active" None None.

Definition catalog_example : registry :=
  [("agent1", agent ["intent"] "active"
                (Some (JDict [("success_rate", JNum (9 # 10))])) (Some (JNum (3 # 10))));
   ("agent2", agent ["intent"] "active"
                (Some (JDict [("success_rate", JNum (7 # 10))])) (Some (JNum (8 # 10))))].

(** ** C2: load of a record without load fields *)

(** The record has no "request_count" and no "response_time_ms" to derive a
    load from. *)
Definition lacks_load_fields (metadata : AgentMetadata) : Prop :=
  match performance metadata with
  | Some (JDict perf) =>
      Dict.get "request_count" perf = None /\ Dict.get "response_time_ms" perf = None
  | _ => True
  end.

(** C2, as stated, fails: for the record of the repository's own
    "missing metrics" test, which has neither "load" nor "performance",
    [get_load_metrics] raises nothing and reports the load 0. *)
Lemma load_without_fields_counterexample :
  load (bare_agent ["intent"]) = None /\
  lacks_load_fields (bare_agent ["intent"]) /\
  exists l,
    get_load_metrics no_float [("agent1", bare_agent ["intent"])] = Ok [("agent1", l)] /\
    l == 0.
Proof.
  split; [reflexivity|]. split; [exact I|].
  eexists. split; [reflexivity | reflexivity].
Qed.

(** C2, amended.  For a record without "load" whose "performance" is absent,
    or is a map without "request_count" and "response_time_ms", the load
    computation substitutes the defaults 0 and 100 and yields the load 0;
    it fails only when "performance" is present and is not a map. *)
Theorem load_without_fields_defaults :
  forall (float_of_str : string -> option Q) (agent_id : string) (md : AgentMetadata),
    load md = None ->
    lacks_load_fields md ->
    match performance md with
    | Some (JDict _) | None =>
        exists l, agent_load float_of_str md = Some l /\ l == 0 /\
                  get_load_metrics float_of_str [(agent_id, md)] = Ok [(agent_id, l)]
    | Some _ =>
        agent_load float_of_str md = None /\
        get_load_metrics float_of_str [(agent_id, md)] = Err (InvalidMetrics agent_id)
    end.
Proof.
  intros fos id md Hl Hlack.
  unfold get_load_metrics, collect_metrics, agent_load, lacks_load_fields in *.
  rewrite Hl.
  destruct (performance md) as [[| | | | |perf]|]; simpl; auto.
  - destruct Hlack as [-> ->]. simpl. eexists. split; [reflexivity|].
    split; reflexivity.
  - eexists. split; [reflexivity|]. split; reflexivity.
Qed.

Lemma load_without_fields_defaults_witness :
  load (bare_agent ["intent"]) = None /\
  lacks_load_fields (bare_agent ["intent"]) /\
  exists l, agent_load no_float (bare_agent ["intent"]) = Some l /\ l == 0 /\
            get_load_metrics no_float [("agent1", bare_agent ["intent"])]
              = Ok [("agent1", l)].
Proof.
  split; [reflexivity|]. split; [exact I|].
  exact (load_without_fields_defaults no_float "agent1" (bare_agent ["intent"])
           eq_refl I).
Defined.

(** ** C10: a failing record anywhere in the catalog *)


(** The failures the decision engine meets in practice. *)
Lemma failing_retrieval_examples (float_of_str : string -> option Q)
    (caps : list string) (perf : Dict.t json) :
  Dict.get "success_rate" perf = None ->
  agent_performance float_of_str (agent caps "active" (Some (JDict perf)) None) = None /\
  agent_performance float_of_str
    (agent caps "active" (Some (JDict [("success_rate", JNull)])) None) = None /\
  agent_load float_of_str (agent caps "active" (Some (JDict perf)) (Some JNull)) = None /\
  agent_load float_of_str (agent caps "active" (Some (JNum (9 # 10))) None) = None.
Proof.
  intros H. unfold agent_performance, agent_load. simpl. rewrite H. auto.
Qed.



End Routing.


(* ================================================================== *)
(** * Tool catalog [src/tools/base.py] *)

Module Tools.

Record ToolMetrics : Type := {
  execution_time : Q;
  success_rate : Q;
  last_execution : option string;
  total_executions : Z;
  failed_executions : Z
}.

(** [ToolMetrics()] *)
Definition ToolMetrics_init : ToolMetrics :=
  {| execution_time := 0; success_rate := 0; last_execution := None;
     total_executions := 0; failed_executions := 0 |}.

Record ToolContext : Type := {
  intent : json;
  confidence : Q;
  entities : json;
  metadata : json;
  chain_context : option json
}.

Record ToolResult : Type := {
  success : bool;
  data : Dict.t json;
  next_tools : list string;
  error_message : option string
}.

(** A list object on the heap.  [compatible_versions] is a class attribute
    holding a mutable list: what a tool has is a reference to that list,
    shared with every class that inherits the attribute without overriding
    it. *)
Definition loc := nat.
Definition heap := loc -> list string.

(** [h[l].append(v)] *)
Definition heap_append (h : heap) (l : loc) (v : string) : heap :=
  fun l' => if Nat.eqb l' l then h l' ++ [v] else h l'.

(** A subclass of [Tool]: its class attributes and its two abstract
    methods.  [can_handle] yields [None] when it raises; [_execute_impl]
    yields [Err msg] when it raises an exception whose text is [msg]. *)
Record ToolClass : Type := {
  name : string;
  description : string;
  required_params : list string;
  version : string;
  compatible_versions : loc;
  can_handle : ToolContext -> option Q;
  _execute_impl : json -> ToolContext -> result string (Dict.t json)
}.

(** An instance: the class and the instance attribute [metrics]. *)
Record Tool : Type := {
  cls : ToolClass;
  metrics : ToolMetrics
}.

Inductive error : Type :=
| ValueError (msg : string).

(** [Tool.__init__] *)
Definition Tool_init (c : ToolClass) : result error Tool :=
  if String.eqb (name c) "" then Err (ValueError "Tool must have a name")
  else Ok {| cls := c; metrics := ToolMetrics_init |}.

(** [Tool.validate_params]; [params] is any value, a dict or not. *)
Definition validate_params (self : Tool) (params : json) : bool :=
  match params with
  | JDict d => forallb (fun param => Dict.mem param d) (required_params (cls self))
  | _ => false
  end.

(** The [except] branch of [Tool.execute]. *)
Definition execute_failed (self : Tool) (total : Z) (e : string) : ToolResult * Tool :=
  let m := metrics self in
  let failed := (failed_executions m + 1)%Z in
  ({| success := false; data := []; next_tools := []; error_message := Some e |},
   {| cls := cls self;
      metrics := {| execution_time := execution_time m;
                    success_rate := inject_Z (total - failed) / inject_Z (Z.max total 1);
                    last_execution := last_execution m;
                    total_executions := total;
                    failed_executions := failed |} |}).

(** [Tool.execute]: the result and the tool with its metrics updated.
    [elapsed] is [time.time() - start_time], [now] is [datetime.now()].
    A division by [total_executions = 0] in the [try] block raises
    [ZeroDivisionError], which the [except] branch handles like any other
    exception. *)
Definition execute (self : Tool) (params : json) (context : ToolContext)
    (elapsed : Q) (now : string) : ToolResult * Tool :=
  let m := metrics self in
  let total := (total_executions m + 1)%Z in
  match _execute_impl (cls self) params context with
  | Ok result =>
      if (total =? 0)%Z then execute_failed self total "float division by zero"
      else
        ({| success := true; data := result; next_tools := []; error_message := None |},
         {| cls := cls self;
            metrics := {| execution_time :=
                            (execution_time m * inject_Z (total - 1) + elapsed)
                            / inject_Z total;
                          success_rate :=
                            inject_Z (total - failed_executions m) / inject_Z total;
                          last_execution := Some now;
                          total_executions := total;
                          failed_executions := failed_executions m |} |})
  | Err e => execute_failed self total e
  end.

(** ** ToolRegistry *)

Record ToolRegistry : Type := {
  _tools : Dict.t Tool;
  _version_history : Dict.t (list string);
  _chain_definitions : Dict.t (list (string * Q))
}.

Definition ToolRegistry_init : ToolRegistry :=
  {| _tools := []; _version_history := []; _chain_definitions := [] |}.

(** [ToolRegistry.register]: the registry and the heap afterwards. *)
Definition register (self : ToolRegistry) (h : heap) (tool_class : ToolClass)
    : result error (ToolRegistry * heap) :=
  do tool <- Tool_init tool_class;
  let h' :=
    match Dict.get (name (cls tool)) (_tools self) with
    | Some current =>
        let current_version := version (cls current) in
        if String.eqb current_version (version (cls tool)) then h
        else heap_append h (compatible_versions (cls current)) current_version
    | None => h
    end in
  let tools' := Dict.set (name (cls tool)) tool (_tools self) in
  let history :=
    match Dict.get (name (cls tool)) (_version_history self) with
    | Some vs => vs
    | None => []
    end in
  Ok ({| _tools := tools';
         _version_history :=
           Dict.set (name (cls tool)) (history ++ [version (cls tool)])
                    (_version_history self);
         _chain_definitions := _chain_definitions self |},
      h').

(** [adjusted_confidence] of [select_tool]. *)
Definition adjusted_confidence (tool : Tool) (confidence : Q) : Q :=
  confidence * ((8 # 10) + (2 # 10) * success_rate (metrics tool)).

(** The loop of [select_tool] over [self._tools.values()]. *)
Fixpoint select_loop (tools : list Tool) (tool_context : ToolContext)
    (min_confidence : Q) (best_tool : option Tool) (best_confidence : Q)
    : option Tool :=
  match tools with
  | [] => best_tool
  | tool :: rest =>
      match can_handle (cls tool) tool_context with
      | Some confidence =>
          let adjusted := adjusted_confidence tool confidence in
          if Qgtb adjusted best_confidence && Qgeb adjusted min_confidence
          then select_loop rest tool_context min_confidence (Some tool) adjusted
          else select_loop rest tool_context min_confidence best_tool best_confidence
      | None =>
          select_loop rest tool_context min_confidence best_tool best_confidence
      end
  end.

(** [context.get(key, default)] *)
Definition get_default (context : Dict.t json) (key : string) (default : json) : json :=
  match Dict.get key context with
  | Some v => v
  | None => default
  end.

(** The [ToolContext] that [select_tool] builds; [None] when [float]
    raises. *)
Definition make_tool_context (float_of_str : string -> option Q)
    (context : Dict.t json) : option ToolContext :=
  match py_float float_of_str (get_default context "confidence" (JNum 0)) with
  | Some c =>
      Some {| intent := get_default context "intent" (JStr "");
              confidence := c;
              entities := get_default context "entities" (JDict []);
              metadata := get_default context "metadata" (JDict []);
              chain_context := None |}
  | None => None
  end.

(** [ToolRegistry.select_tool] *)
Definition select_tool (float_of_str : string -> option Q) (self : ToolRegistry)
    (context : Dict.t json) (min_confidence : Q) : option Tool :=
  match make_tool_context float_of_str context with
  | Some tool_context =>
      select_loop (map snd (_tools self)) tool_context min_confidence None 0
  | None => None
  end.

Lemma map_snd_filter {A B : Type} (p : B -> bool) (l : list (A * B)) :
  map snd (filter (fun kv => p (snd kv)) l) = filter p (map snd l).
Proof.
  induction l as [|[a b] l IH]; simpl; auto.
  destruct (p b); simpl; congruence.
Qed.

(** A tool like the [MockTool]s of the unit tests: "param1" is required,
    [can_handle] is confident for one intent only (test_base.py), and the
    logic returns a fixed result without looking at [params]
    (test_discovery.py). *)
Definition mock_tool_class (ver : string) (compat : loc) : ToolClass :=
  {| name := "mock_tool";
     description := "A mock tool for testing";
     required_params := ["param1"];
     version := ver;
     compatible_versions := compat;
     can_handle := fun context =>
       match intent context with
       | JStr "test_intent" => Some (8 # 10)
       | _ => Some 0
       end;
     _execute_impl := fun params context => Ok [("result", JStr "success")] |}.

Definition mock_tool : Tool :=
  {| cls := mock_tool_class "1.0.0" 1%nat; metrics := ToolMetrics_init |}.

Definition mock_registry : ToolRegistry :=
  {| _tools := [("mock_tool", mock_tool)];
     _version_history := [("mock_tool", ["1.0.0"])];
     _chain_definitions := [] |}.

Example select_tool_matching_intent :
  select_tool no_float mock_registry
    [("intent", JStr "test_intent"); ("confidence", JNum (9 # 10)); ("entities", JDict [])]
    (1 # 10) = Some mock_tool.
Proof. reflexivity. Qed.

(** Two tools with the same raw score and one whose [can_handle] raises:
    the more reliable one is selected, whatever the registration order. *)
Definition scoring_tool (n : string) (raw : option Q) (rate : Q) : Tool :=
  {| cls := {| name := n; description := ""; required_params := [];
               version := "1.0.0"; compatible_versions := 0%nat;
               can_handle := fun _ => raw;
               _execute_impl := fun _ _ => Ok [] |};
     metrics := {| execution_time := 0; success_rate := rate;
                   last_execution := None;
                   total_executions := 10; failed_executions := 0 |} |}.

Example select_tool_prefers_reliable :
  select_tool no_float
    {| _tools := [("broken", scoring_tool "broken" None 1);
                  ("shaky", scoring_tool "shaky" (Some (1 # 2)) (5 # 10));
                  ("solid", scoring_tool "solid" (Some (1 # 2)) (9 # 10))];
       _version_history := []; _chain_definitions := [] |}
    [("intent", JStr "search")] (1 # 10)
  = Some (scoring_tool "solid" (Some (1 # 2)) (9 # 10)).
Proof. reflexivity. Qed.

(** ** Facts about execution *)

Definition test_context : ToolContext :=
  {| intent := JStr "test_intent"; confidence := 9 # 10;
     entities := JDict [("entity1", JList [JStr "value1"])];
     metadata := JDict []; chain_context := None |}.

(** A tool whose logic always raises. *)
Definition failing_tool : Tool :=
  {| cls := {| name := "failing_tool"; description := ""; required_params := [];
               version := "1.0.0"; compatible_versions := 0%nat;
               can_handle := fun _ => Some 0;
               _execute_impl := fun _ _ => Err "Execution failed as requested" |};
     metrics := ToolMetrics_init |}.

(** C3, as stated, fails: "param1" is required and missing, [validate_params]
    says so, and [execute] still runs the tool-specific logic and returns
    its data as a success. *)
Lemma execute_validates_counterexample :
  validate_params mock_tool (JDict []) = false /\
  fst (execute mock_tool (JDict []) test_context 1 "now")
  = {| success := true; data := [("result", JStr "success")];
       next_tools := []; error_message := None |}.
Proof. split; reflexivity. Qed.

(** C3, amended.  [execute] checks no parameter itself: whatever [params]
    is, it runs the tool-specific logic on it, and its result is the outcome
    of that logic, a success carrying the returned data or a failure
    carrying the text of the exception.  Checking [required_params] is left
    to the tool-specific logic. *)
Theorem execute_runs_logic_unchecked :
  forall (self : Tool) (params : json) (context : ToolContext)
         (elapsed : Q) (now : string),
    (0 <= total_executions (metrics self))%Z ->
    fst (execute self params context elapsed now)
    = match _execute_impl (cls self) params context with
      | Ok result =>
          {| success := true; data := result; next_tools := []; error_message := None |}
      | Err e =>
          {| success := false; data := []; next_tools := []; error_message := Some e |}
      end.
Proof.
  intros self params context elapsed now Hpos. unfold execute.
  destruct (_execute_impl (cls self) params context) as [result | e]; [|reflexivity].
  destruct (Z.eqb_spec (total_executions (metrics self) + 1) 0) as [E | E]; [lia|].
  reflexivity.
Qed.

Lemma execute_runs_logic_unchecked_witness :
  (0 <= total_executions (metrics mock_tool))%Z /\
  fst (execute mock_tool (JDict []) test_context 1 "now")
  = match _execute_impl (cls mock_tool) (JDict []) test_context with
    | Ok result =>
        {| success := true; data := result; next_tools := []; error_message := None |}
    | Err e =>
        {| success := false; data := []; next_tools := []; error_message := Some e |}
    end.
Proof.
  split; [simpl; lia|].
  apply (execute_runs_logic_unchecked mock_tool (JDict []) test_context 1 "now").
  simpl. lia.
Defined.

(** A tool-specific logic that begins, as [MockTool] and [SearchTool] do,
    with [if not self.validate_params(params): raise ...]. *)
Definition validating (c : ToolClass)
    (logic : json -> ToolContext -> result string (Dict.t json)) : ToolClass :=
  {| name := name c; description := description c;
     required_params := required_params c; version := version c;
     compatible_versions := compatible_versions c; can_handle := can_handle c;
     _execute_impl := fun params context =>
       if validate_params {| cls := c; metrics := ToolMetrics_init |} params
       then logic params context
       else Err "Invalid parameters" |}.

Lemma execute_validating_tool (c : ToolClass) logic (m : ToolMetrics)
    (params : json) (context : ToolContext) (elapsed : Q) (now : string) :
  validate_params {| cls := validating c logic; metrics := m |} params = false ->
  success (fst (execute {| cls := validating c logic; metrics := m |}
                        params context elapsed now)) = false.
Proof.
  intros H. unfold execute. simpl.
  unfold validate_params in *. simpl in *. rewrite H. reflexivity.
Qed.

(** C4, as stated, fails: a failed call leaves [execution_time] as it was;
    here it stays 0 where the incremental average of the claim is 2. *)
Lemma execute_average_counterexample :
  success (fst (execute failing_tool (JDict []) test_context 2 "now")) = false /\
  execution_time (metrics (snd (execute failing_tool (JDict []) test_context 2 "now"))) = 0 /\
  ~ (0 == (execution_time (metrics failing_tool) * inject_Z (1 - 1) + 2) / inject_Z 1).
Proof.
  split; [reflexivity|]. split; [reflexivity|].
  intros H. vm_compute in H. discriminate.
Qed.

(** C4, amended.  After every call of [execute] on a tool whose counter is
    not negative: [total_executions] has grown by 1; [failed_executions] has
    grown by 1 exactly when the call failed; [success_rate] is
    [(total - failed) / total]; and [execution_time] is the incremental
    average [(avg * (n - 1) + sample) / n] after a successful call, and is
    unchanged after a failed one. *)
Theorem execute_updates_metrics :
  forall (self : Tool) (params : json) (context : ToolContext)
         (elapsed : Q) (now : string),
    (0 <= total_executions (metrics self))%Z ->
    let r := fst (execute self params context elapsed now) in
    let m := metrics self in
    let m' := metrics (snd (execute self params context elapsed now)) in
    total_executions m' = (total_executions m + 1)%Z /\
    failed_executions m'
      = (if success r then failed_executions m else failed_executions m + 1)%Z /\
    success_rate m'
      = inject_Z (total_executions m' - failed_executions m')
        / inject_Z (total_executions m') /\
    execution_time m'
      = (if success r
         then (execution_time m * inject_Z (total_executions m' - 1) + elapsed)
              / inject_Z (total_executions m')
         else execution_time m).
Proof.
  intros self params context elapsed now Hpos. unfold execute.
  destruct (_execute_impl (cls self) params context) as [result | e].
  - destruct (Z.eqb_spec (total_executions (metrics self) + 1) 0) as [E | E]; [lia|].
    simpl. auto.
  - simpl. rewrite Z.max_l by lia. auto.
Qed.

Lemma execute_updates_metrics_witness :
  (0 <= total_executions (metrics failing_tool))%Z /\
  total_executions (metrics (snd (execute failing_tool (JDict []) test_context 2 "now")))
  = (total_executions (metrics failing_tool) + 1)%Z.
Proof.
  split; [simpl; lia|].
  apply (execute_updates_metrics failing_tool (JDict []) test_context 2 "now").
  simpl. lia.
Defined.

(** The counter of a tool starts at 0 and [execute] keeps it non-negative. *)
Lemma execute_total_nonneg (self : Tool) params context elapsed now :
  (0 <= total_executions (metrics self))%Z ->
  (0 <= total_executions (metrics (snd (execute self params context elapsed now))))%Z.
Proof.
  intros H. unfold execute.
  destruct (_execute_impl (cls self) params context);
    [destruct (Z.eqb_spec (total_executions (metrics self) + 1) 0)|]; simpl; lia.
Qed.

(** ** Facts about registration *)

(** The heap of the version-update test: [MockTool.compatible_versions] is
    the list at 1, and nothing else is allocated. *)
Definition test_heap : heap :=
  fun l => if Nat.eqb l 1 then ["0.9.0"] else [].

(** Registering [c1] and then [c2] in an empty registry. *)
Definition register_twice (h : heap) (c1 c2 : ToolClass)
    : result error (ToolRegistry * heap) :=
  do st <- register ToolRegistry_init h c1;
  register (fst st) (snd st) c2.

(** The current tool of a name, its version and the contents of its
    [compatible_versions] list. *)
Definition current_versions (st : ToolRegistry * heap) (n : string)
    : option (string * list string) :=
  match Dict.get n (_tools (fst st)) with
  | Some tool => Some (version (cls tool), snd st (compatible_versions (cls tool)))
  | None => None
  end.

(** When the new class shares the list object of the old one, which is the
    case of the repository's test ([UpdatedMockTool] inherits the attribute
    of [MockTool]), the old version is found in the new tool's list. *)
Lemma register_update_shared_list (h : heap) (c1 c2 : ToolClass) :
  name c1 <> "" -> name c2 = name c1 ->
  version c1 <> version c2 ->
  compatible_versions c2 = compatible_versions c1 ->
  exists st, register_twice h c1 c2 = Ok st /\
    current_versions st (name c1)
    = Some (version c2, h (compatible_versions c1) ++ [version c1]).
Proof.
  intros Hn Hsame Hv Hc. unfold register_twice, register, Tool_init.
  apply String.eqb_neq in Hn. apply String.eqb_neq in Hv.
  rewrite Hsame, Hn. cbn [bind].
  eexists. split; [reflexivity|].
  unfold current_versions. simpl. rewrite Hsame, !String.eqb_refl. simpl.
  rewrite String.eqb_refl. simpl.
  rewrite Hv. unfold heap_append. rewrite Hc, Nat.eqb_refl. reflexivity.
Qed.

(** The version-update test of the repository: [UpdatedMockTool] inherits
    the list of [MockTool]. *)
Example register_update_test :
  exists st,
    register_twice test_heap (mock_tool_class "1.0.0" 1%nat) (mock_tool_class "1.1.0" 1%nat)
      = Ok st /\
    current_versions st "mock_tool" = Some ("1.1.0", ["0.9.0"; "1.0.0"]).
Proof. eexists. split; reflexivity. Qed.

(** C6 on the code: [register] appends the old version to the list of the
    tool that is being replaced.  When the new class has a list of its own
    (here the list at 2, declared empty) the registry's tool has version
    "2.0.0" and an empty [compatible_versions]: "1.0.0" went to the list of
    the discarded tool. *)
Theorem register_update_own_list_drops_old_version :
  exists st,
    register_twice test_heap (mock_tool_class "1.0.0" 1%nat) (mock_tool_class "2.0.0" 2%nat)
      = Ok st /\
    current_versions st "mock_tool" = Some ("2.0.0", []) /\
    snd st 1%nat = ["0.9.0"; "1.0.0"] /\
    Dict.get "mock_tool" (_version_history (fst st)) = Some ["1.0.0"; "2.0.0"].
Proof.
  eexists. split; [reflexivity|]. repeat split; reflexivity.
Qed.

End Tools.


(* ================================================================== *)
(** * Session store [src/context/context_manager.py]

    The in-memory backend ([USE_REDIS_CACHING] off, the default).  Nested
    dicts are values: an update tree shares no dict object with the store.
    [ContextObjects] below has the dicts as shared objects. *)

Module Context.

(** The value stored under [key] by one step of [recursive_update]:
    [old] is [original.get(key)], [value] is the update's value. *)
Fixpoint update_value (old : option json) (value : json) {struct value} : json :=
  match value, old with
  | JDict updates, Some (JDict original) =>
      JDict
        ((fix loop (original : Dict.t json) (updates : list (string * json))
              {struct updates} : Dict.t json :=
            match updates with
            | [] => original
            | (key, value) :: rest =>
                loop (Dict.set key (update_value (Dict.get key original) value) original)
                     rest
            end) original updates)
  | _, _ => value
  end.

(** [recursive_update(original, updates)]: the loop over [updates.items()]. *)
Fixpoint recursive_update (original updates : Dict.t json) : Dict.t json :=
  match updates with
  | [] => original
  | (key, value) :: rest =>
      recursive_update
        (Dict.set key (update_value (Dict.get key original) value) original) rest
  end.

(** One delivered callback: [callback(session_id, event_type, data)]. *)
Record notification : Type := {
  listener : string;
  session_id : string;
  event_type : string;
  payload : json
}.

(** The state of a [ContextManager] with the in-memory store.  A listener
    is known by its name; [delivered] is the log of the callbacks invoked so
    far. *)
Record ContextManager : Type := {
  session_expiration : Q;
  event_emission_enabled : bool;
  _event_listeners : list string;
  _context_store : Dict.t (Dict.t json);
  delivered : list notification
}.

Definition with_store (self : ContextManager) (store : Dict.t (Dict.t json))
    : ContextManager :=
  {| session_expiration := session_expiration self;
     event_emission_enabled := event_emission_enabled self;
     _event_listeners := _event_listeners self;
     _context_store := store;
     delivered := delivered self |}.

(** [_emit_event]: every listener is called, in order; an exception raised
    by a listener is caught and the next listener is called. *)
Definition _emit_event (self : ContextManager) (sid type : string) (data : json)
    : ContextManager :=
  if event_emission_enabled self then
    {| session_expiration := session_expiration self;
       event_emission_enabled := event_emission_enabled self;
       _event_listeners := _event_listeners self;
       _context_store := _context_store self;
       delivered := delivered self
                    ++ map (fun callback =>
                              {| listener := callback; session_id := sid;
                                 event_type := type; payload := data |})
                           (_event_listeners self) |}
  else self.

Definition add_event_listener (self : ContextManager) (callback : string)
    : ContextManager :=
  {| session_expiration := session_expiration self;
     event_emission_enabled := event_emission_enabled self;
     _event_listeners := _event_listeners self ++ [callback];
     _context_store := _context_store self;
     delivered := delivered self |}.

(** The store with the session present: a missing session is created with
    its timestamp. *)
Definition ensure_session (store : Dict.t (Dict.t json)) (sid : string) (now : Q)
    : Dict.t (Dict.t json) :=
  if Dict.mem sid store then store
  else Dict.set sid [("_timestamp", JNum now)] store.

Definition session_of (store : Dict.t (Dict.t json)) (sid : string) : Dict.t json :=
  match Dict.get sid store with
  | Some context => context
  | None => []
  end.

Definition create_session (self : ContextManager) (sid : string) (now : Q)
    : ContextManager :=
  _emit_event (with_store self (ensure_session (_context_store self) sid now))
              sid "create_session" JNull.

(** [created] and [now] are the two readings of [time.time()]. *)
Definition set_context (self : ContextManager) (sid key : string) (value : json)
    (created now : Q) : ContextManager :=
  let store := ensure_session (_context_store self) sid created in
  let context := Dict.set key value (session_of store sid) in
  let context := Dict.set "_timestamp" (JNum now) context in
  _emit_event (with_store self (Dict.set sid context store))
              sid "set_context" (JDict [(key, value)]).

Definition update_partial_context (self : ContextManager) (sid : string)
    (partial_context : Dict.t json) (created now : Q) : ContextManager :=
  let store := ensure_session (_context_store self) sid created in
  let context := recursive_update (session_of store sid) partial_context in
  let context := Dict.set "_timestamp" (JNum now) context in
  _emit_event (with_store self (Dict.set sid context store))
              sid "update_partial" (JDict partial_context).

(** [get_context]: a copy of the session's dict, [{}] for an unknown session. *)
Definition get_context (self : ContextManager) (sid : string) : Dict.t json :=
  session_of (_context_store self) sid.

Definition delete_context (self : ContextManager) (sid : string) : ContextManager :=
  _emit_event (with_store self (Dict.del sid (_context_store self)))
              sid "delete_context" JNull.

(** [now - context.get("_timestamp", now)]; [None] is the [TypeError] of a
    timestamp that is not a number. *)
Definition age (now : Q) (context : Dict.t json) : option Q :=
  match Dict.get "_timestamp" context with
  | None => Some (now - now)
  | Some v =>
      match num_of v with
      | Some t => Some (now - t)
      | None => None
      end
  end.

(** The list comprehension [expired_sessions] of [gc_worker]. *)
Fixpoint expired_sessions (expiration now : Q) (store : Dict.t (Dict.t json))
    : option (list string) :=
  match store with
  | [] => Some []
  | (sid, context) :: rest =>
      match age now context, expired_sessions expiration now rest with
      | Some a, Some l => Some (if Qgtb a expiration then sid :: l else l)
      | _, _ => None
      end
  end.

(** The [for] loop of [gc_worker]: delete, then notify. *)
Fixpoint collect (self : ContextManager) (expired : list string) : ContextManager :=
  match expired with
  | [] => self
  | sid :: rest =>
      collect (_emit_event (with_store self (Dict.del sid (_context_store self)))
                           sid "garbage_collected" JNull)
              rest
  end.

(** One sweep of [gc_worker] at time [now]; [None] when the comprehension
    raises, which ends the worker thread with the store untouched. *)
Definition gc_sweep (self : ContextManager) (now : Q) : option ContextManager :=
  match expired_sessions (session_expiration self) now (_context_store self) with
  | Some expired => Some (collect self expired)
  | None => None
  end.

(** ** Facts about the deep merge *)

(** The claim's rule for one key: two maps are merged, anything else is
    replaced by the new value. *)
Definition merged (old : option json) (new : json) : json :=
  match new, old with
  | JDict updates, Some (JDict original) => JDict (recursive_update original updates)
  | _, _ => new
  end.

Lemma update_value_merged (old : option json) (value : json) :
  update_value old value = merged old value.
Proof. destruct value; reflexivity. Qed.

Lemma recursive_update_get updates : forall original key,
  NoDup (Dict.keys updates) ->
  Dict.get key (recursive_update original updates)
  = match Dict.get key updates with
    | Some new => Some (merged (Dict.get key original) new)
    | None => Dict.get key original
    end.
Proof.
  induction updates as [|[k v] updates IH]; intros original key ND; simpl.
  - reflexivity.
  - inversion ND as [|? ? Hn ND']; subst.
    rewrite (IH _ key ND'). rewrite update_value_merged.
    destruct (String.eqb key k) eqn:E.
    + apply String.eqb_eq in E. subst key.
      apply get_None_notin in Hn. rewrite Hn. apply get_set_eq.
    + apply String.eqb_neq in E.
      rewrite get_set_neq by congruence. reflexivity.
Qed.

Lemma store_emit self sid type data :
  _context_store (_emit_event self sid type data) = _context_store self.
Proof. unfold _emit_event. now destruct (event_emission_enabled self). Qed.

Lemma get_ensured_session self sid created key :
  key <> "_timestamp" ->
  Dict.get key (session_of (ensure_session (_context_store self) sid created) sid)
  = Dict.get key (get_context self sid).
Proof.
  intros Hk. unfold ensure_session, get_context, session_of, Dict.mem.
  destruct (Dict.get sid (_context_store self)) eqn:E.
  - now rewrite E.
  - rewrite get_set_eq. simpl.
    destruct (String.eqb key "_timestamp") eqn:Ek; auto.
    apply String.eqb_eq in Ek. contradiction.
Qed.

Definition empty_manager : ContextManager :=
  {| session_expiration := 3600; event_emission_enabled := false;
     _event_listeners := []; _context_store := []; delivered := [] |}.

(** Three levels deep. *)
Example recursive_update_nested :
  recursive_update
    [("a", JDict [("b", JDict [("c", JNum 1); ("d", JNum 2)]); ("e", JNum 3)])]
    [("a", JDict [("b", JDict [("d", JNum 4); ("f", JNum 5)])])]
  = [("a", JDict [("b", JDict [("c", JNum 1); ("d", JNum 4); ("f", JNum 5)]);
                  ("e", JNum 3)])].
Proof. reflexivity. Qed.

(** ** Facts about garbage collection *)



Lemma expired_sessions_total expiration now store :
  (forall sid context, In (sid, context) store -> age now context <> None) ->
  exists l, expired_sessions expiration now store = Some l.
Proof.
  induction store as [|[sid context] store IH]; intros H; simpl.
  - eauto.
  - destruct IH as [l ->]; [intros; eapply H; right; eauto|].
    destruct (age now context) eqn:E; [eauto|].
    exfalso. apply (H sid context); [now left | exact E].
Qed.

Lemma expired_sessions_In expiration now store l :
  expired_sessions expiration now store = Some l ->
  forall sid, In sid l <->
    exists context a, In (sid, context) store /\ age now context = Some a /\
                      expiration < a.
Proof.
  revert l. induction store as [|[s c] store IH]; intros l H sid; simpl in *.
  - injection H as <-. simpl. split; [tauto | intros [? [? [[] _]]]].
  - destruct (age now c) as [a|] eqn:Ea; [|discriminate].
    destruct (expired_sessions expiration now store) as [l'|]; [|discriminate].
    specialize (IH l' eq_refl sid).
    injection H as <-.
    destruct (Qgtb a expiration) eqn:Eg.
    + apply Qgtb_lt in Eg. simpl. rewrite IH. split.
      * intros [<- | [c' [a' [Hin Hr]]]].
        -- exists c, a. auto.
        -- exists c', a'. split; [now right | exact Hr].
      * intros [c' [a' [[[= <- <-] | Hin] [Ha Hlt]]]].
        -- now left.
        -- right. exists c', a'. auto.
    + apply Qgtb_false in Eg. rewrite IH. split.
      * intros [c' [a' [Hin Hr]]]. exists c', a'. split; [now right | exact Hr].
      * intros [c' [a' [[[= <- <-] | Hin] [Ha Hlt]]]].
        -- exfalso. rewrite Ea in Ha. injection Ha as <-.
           exact (Qlt_not_le _ _ Hlt Eg).
        -- exists c', a'. auto.
Qed.



Lemma collect_config self expired :
  session_expiration (collect self expired) = session_expiration self /\
  event_emission_enabled (collect self expired) = event_emission_enabled self /\
  _event_listeners (collect self expired) = _event_listeners self.
Proof.
  revert self. induction expired as [|sid rest IH]; intros self; simpl; auto.
  destruct (IH (_emit_event (with_store self (Dict.del sid (_context_store self)))
                            sid "garbage_collected" JNull)) as [-> [-> ->]].
  unfold _emit_event, with_store. simpl.
  destruct (event_emission_enabled self); auto.
Qed.

Lemma collect_get self expired sid :
  NoDup (Dict.keys (_context_store self)) ->
  Dict.get sid (_context_store (collect self expired))
  = if in_dec string_dec sid expired then None
    else Dict.get sid (_context_store self).
Proof.
  revert self. induction expired as [|x rest IH]; intros self ND; simpl.
  - reflexivity.
  - rewrite IH; rewrite store_emit; simpl; [|now apply NoDup_keys_del].
    destruct (string_dec x sid) as [-> | Hx].
    + destruct (in_dec string_dec sid rest); auto. now apply get_del_eq.
    + destruct (in_dec string_dec sid rest); auto. now apply get_del_neq.
Qed.

(** A store as the default configuration leaves it: event emission is
    off, one listener is registered, one session was last written at 0. *)
Definition stale_manager (emit : bool) : ContextManager :=
  {| session_expiration := 3600; event_emission_enabled := emit;
     _event_listeners := ["on_event"];
     _context_store := [("old", [("_timestamp", JNum 0)]);
                        ("fresh", [("_timestamp", JNum 3000)])];
     delivered := [] |}.










(** The sweep of the witness: "old" is collected and notified once,
    "fresh" stays. *)
Example gc_sweep_example :
  exists self',
    gc_sweep (stale_manager true) 4000 = Some self' /\
    _context_store self' = [("fresh", [("_timestamp", JNum 3000)])] /\
    delivered self'
    = [{| listener := "on_event"; session_id := "old";
          event_type := "garbage_collected"; payload := JNull |}].
Proof. eexists. repeat split; reflexivity. Qed.

(** Every write through the store leaves numeric timestamps behind, so the
    sweep's comprehension does not raise. *)
Definition timestamped (store : Dict.t (Dict.t json)) : Prop :=
  forall sid context, In (sid, context) store ->
    exists t, Dict.get "_timestamp" context = Some (JNum t).

Lemma timestamped_age store now :
  timestamped store ->
  forall sid context, In (sid, context) store -> age now context <> None.
Proof.
  intros H sid context Hin. destruct (H sid context Hin) as [t Ht].
  unfold age. rewrite Ht. discriminate.
Qed.

Lemma timestamped_ensure store sid now :
  timestamped store -> timestamped (ensure_session store sid now).
Proof.
  intros H. unfold ensure_session. destruct (Dict.mem sid store); auto.
  intros s c Hin. apply in_set_inv in Hin. destruct Hin as [[-> ->] | Hin]; eauto.
  exists now. reflexivity.
Qed.

Lemma timestamped_write store sid context now :
  timestamped store ->
  timestamped (Dict.set sid (Dict.set "_timestamp" (JNum now) context) store).
Proof.
  intros H s c Hin. apply in_set_inv in Hin. destruct Hin as [[-> ->] | Hin]; eauto.
  exists now. apply get_set_eq.
Qed.

Lemma timestamped_operations self :
  timestamped (_context_store self) ->
  (forall sid now, timestamped (_context_store (create_session self sid now))) /\
  (forall sid key value created now,
      timestamped (_context_store (set_context self sid key value created now))) /\
  (forall sid partial created now,
      timestamped (_context_store (update_partial_context self sid partial created now))) /\
  (forall sid, timestamped (_context_store (delete_context self sid))).
Proof.
  intros H. repeat split; intros;
    unfold create_session, set_context, update_partial_context, delete_context;
    rewrite store_emit; simpl.
  - now apply timestamped_ensure.
  - apply timestamped_write. now apply timestamped_ensure.
  - apply timestamped_write. now apply timestamped_ensure.
  - intros s c Hin. apply in_del_inv in Hin. eauto.
Qed.

End Context.


(* ================================================================== *)
(** * Tool discovery [src/tools/discovery.py]

    The two persisted documents with the fields the code reads and writes,
    and a well-typed context ("entities" and "metadata" are dicts).
    Writing the documents to disk has no effect on the in-memory state (a
    failed write is logged and swallowed) and is not modelled. *)

Module Discovery.

Record IntentStats : Type := {
  count : Z;
  intent_success_count : Z
}.

Record ToolStats : Type := {
  success_count : Z;
  total_executions : Z;
  avg_execution_time : Q;
  intent_patterns : Dict.t IntentStats
}.

Record ToolPattern : Type := {
  tool_name : string;
  intent : string;
  entities_present : list string;
  metadata_keys : list string;
  learned_at : string
}.

(** The context of an execution, by what the learner reads from it:
    [context.get("intent", "unknown")] and the keys of
    [context.get("entities", {})] and [context.get("metadata", {})]. *)
Record Context : Type := {
  ctx_intent : option string;
  ctx_entities : list string;
  ctx_metadata : list string
}.

Record ToolDiscovery : Type := {
  performance_history : Dict.t ToolStats;
  history_last_updated : string;
  tool_patterns : list ToolPattern;
  patterns_last_updated : string
}.

(** [set(a) == set(b)] *)
Definition same_set (a b : list string) : bool :=
  forallb (fun x => existsb (String.eqb x) b) a
  && forallb (fun x => existsb (String.eqb x) a) b.

(** The test of [pattern_exists] for one stored pattern. *)
Definition matches (name intent_ : string) (keys : list string) (p : ToolPattern) : bool :=
  String.eqb (tool_name p) name
  && String.eqb (intent p) intent_
  && same_set (entities_present p) keys.

Definition intent_of (context : Context) : string :=
  match ctx_intent context with
  | Some i => i
  | None => "unknown"
  end.

(** [_learn_tool_pattern] *)
Definition _learn_tool_pattern (self : ToolDiscovery) (name : string)
    (context : Context) (now : string) : ToolDiscovery :=
  let new_pattern :=
    {| tool_name := name;
       intent := intent_of context;
       entities_present := ctx_entities context;
       metadata_keys := ctx_metadata context;
       learned_at := now |} in
  let pattern_exists :=
    existsb (matches name (intent new_pattern) (entities_present new_pattern))
            (tool_patterns self) in
  if pattern_exists then self
  else
    {| performance_history := performance_history self;
       history_last_updated := history_last_updated self;
       tool_patterns := tool_patterns self ++ [new_pattern];
       patterns_last_updated := now |}.

Definition new_tool_stats : ToolStats :=
  {| success_count := 0; total_executions := 0; avg_execution_time := 0;
     intent_patterns := [] |}.

(** [record_tool_execution].  The whole body is in a [try]: an exception,
    which here can only be the [ZeroDivisionError] of the average, ends the
    call with the counters already incremented and nothing else done. *)
Definition record_tool_execution (self : ToolDiscovery) (name : string)
    (context : Context) (success : bool) (execution_time : Q) (now : string)
    : ToolDiscovery :=
  let tool_stats :=
    match Dict.get name (performance_history self) with
    | Some stats => stats
    | None => new_tool_stats
    end in
  let total := (total_executions tool_stats + 1)%Z in
  let successes :=
    (if success then success_count tool_stats + 1 else success_count tool_stats)%Z in
  if (total =? 0)%Z then
    {| performance_history :=
         Dict.set name
           {| success_count := successes; total_executions := total;
              avg_execution_time := avg_execution_time tool_stats;
              intent_patterns := intent_patterns tool_stats |}
           (performance_history self);
       history_last_updated := history_last_updated self;
       tool_patterns := tool_patterns self;
       patterns_last_updated := patterns_last_updated self |}
  else
    let average :=
      (avg_execution_time tool_stats * inject_Z (total - 1) + execution_time)
      / inject_Z total in
    let intent_ := intent_of context in
    let stats :=
      match Dict.get intent_ (intent_patterns tool_stats) with
      | Some s => s
      | None => {| count := 0; intent_success_count := 0 |}
      end in
    let stats' :=
      {| count := count stats + 1;
         intent_success_count :=
           if success then intent_success_count stats + 1
           else intent_success_count stats |} in
    let self' :=
      {| performance_history :=
           Dict.set name
             {| success_count := successes; total_executions := total;
                avg_execution_time := average;
                intent_patterns := Dict.set intent_ stats' (intent_patterns tool_stats) |}
             (performance_history self);
         history_last_updated := now;
         tool_patterns := tool_patterns self;
         patterns_last_updated := patterns_last_updated self |} in
    if success then _learn_tool_pattern self' name context now else self'.

(** [ToolDiscovery.__init__] when no file exists. *)
Definition ToolDiscovery_init (now : string) : ToolDiscovery :=
  {| performance_history := []; history_last_updated := now;
     tool_patterns := []; patterns_last_updated := now |}.

(** A sequence of recorded executions. *)
Record Execution : Type := {
  exec_tool : string;
  exec_context : Context;
  exec_success : bool;
  exec_time : Q;
  exec_at : string
}.

Definition record_all (self : ToolDiscovery) (calls : list Execution) : ToolDiscovery :=
  fold_left
    (fun d c => record_tool_execution d (exec_tool c) (exec_context c)
                  (exec_success c) (exec_time c) (exec_at c))
    calls self.

(** How many stored patterns match a combination. *)
Definition stored (self : ToolDiscovery) (name intent_ : string) (keys : list string)
    : nat :=
  List.length (filter (matches name intent_ keys) (tool_patterns self)).

(** ** Facts about pattern learning *)

Lemma existsb_eqb_In (x : string) (l : list string) :
  existsb (String.eqb x) l = true <-> In x l.
Proof.
  rewrite existsb_exists. split.
  - intros [y [Hy He]]. apply String.eqb_eq in He. now subst.
  - intros H. exists x. split; [exact H | apply String.eqb_refl].
Qed.

Lemma same_set_spec (a b : list string) :
  same_set a b = true <-> (forall x, In x a <-> In x b).
Proof.
  unfold same_set. rewrite andb_true_iff, !forallb_forall. split.
  - intros [H1 H2] x. split; intros Hx.
    + now apply existsb_eqb_In, H1.
    + now apply existsb_eqb_In, H2.
  - intros H. split; intros x Hx; apply existsb_eqb_In; now apply H.
Qed.

(** Two patterns of one combination match each other. *)
Lemma matches_same_combination name intent_ keys (p q : ToolPattern) :
  matches name intent_ keys p = true ->
  matches name intent_ keys q = true ->
  matches (tool_name q) (intent q) (entities_present q) p = true.
Proof.
  unfold matches. rewrite !andb_true_iff, !String.eqb_eq, !same_set_spec.
  intros [[-> ->] Hp] [[-> ->] Hq]. repeat split; auto.
  - intros Hx. apply Hq. now apply Hp.
  - intros Hx. apply Hp. now apply Hq.
Qed.

(** The pattern [_learn_tool_pattern] builds. *)
Definition pattern_of (name : string) (context : Context) (now : string) : ToolPattern :=
  {| tool_name := name; intent := intent_of context;
     entities_present := ctx_entities context;
     metadata_keys := ctx_metadata context; learned_at := now |}.

(** What one recorded execution does to the stored patterns. *)
Lemma record_tool_execution_patterns self name context success t now :
  tool_patterns (record_tool_execution self name context success t now)
  = tool_patterns self
  \/ (success = true /\
      existsb (matches name (intent_of context) (ctx_entities context))
              (tool_patterns self) = false /\
      tool_patterns (record_tool_execution self name context success t now)
      = tool_patterns self ++ [pattern_of name context now]).
Proof.
  unfold record_tool_execution.
  destruct (_ =? 0)%Z; [now left|].
  destruct success; [|now left].
  unfold _learn_tool_pattern. simpl.
  destruct (existsb _ (tool_patterns self)) eqn:E; [now left|].
  right. auto.
Qed.

Lemma stored_after_append name intent_ keys patterns p :
  (List.length (filter (matches name intent_ keys) patterns) <= 1)%nat ->
  existsb (matches (tool_name p) (intent p) (entities_present p)) patterns = false ->
  (List.length (filter (matches name intent_ keys) (patterns ++ [p])) <= 1)%nat.
Proof.
  intros Hle Hnew. rewrite filter_app, length_app. simpl.
  destruct (matches name intent_ keys p) eqn:Ep; simpl; [|lia].
  destruct (filter (matches name intent_ keys) patterns) as [|q l] eqn:Ef; simpl; [lia|].
  exfalso.
  assert (Hq : In q (filter (matches name intent_ keys) patterns))
    by (rewrite Ef; now left).
  apply filter_In in Hq. destruct Hq as [Hin Hm].
  assert (Hex : existsb (matches (tool_name p) (intent p) (entities_present p)) patterns
                = true).
  { apply existsb_exists. exists q. split; [exact Hin|].
    exact (matches_same_combination name intent_ keys q p Hm Ep). }
  congruence.
Qed.

(** C9.  A recorded failure leaves the stored patterns alone.  A recorded
    success whose combination of tool, intent and set of entity keys is
    already stored leaves them alone too; otherwise it appends one pattern
    and changes no stored one.  Hence a store with at most one pattern per
    combination stays so, and the store that starts empty has, after any
    sequence of recorded executions, at most one pattern per combination. *)
Theorem record_tool_execution_learns_once :
  forall (self : ToolDiscovery) (name : string) (context : Context)
         (success : bool) (execution_time : Q) (now : string),
    let self' := record_tool_execution self name context success execution_time now in
    (success = false -> tool_patterns self' = tool_patterns self) /\
    (existsb (matches name (intent_of context) (ctx_entities context))
             (tool_patterns self) = true ->
     tool_patterns self' = tool_patterns self) /\
    (tool_patterns self' = tool_patterns self \/
     tool_patterns self' = tool_patterns self ++ [pattern_of name context now]) /\
    ((forall n i ks, (stored self n i ks <= 1)%nat) ->
     forall n i ks, (stored self' n i ks <= 1)%nat) /\
    (forall (calls : list Execution) n i ks,
        (stored (record_all (ToolDiscovery_init now) calls) n i ks <= 1)%nat).
Proof.
  assert (Hinv : forall self name context success t now,
            (forall n i ks, (stored self n i ks <= 1)%nat) ->
            forall n i ks,
              (stored (record_tool_execution self name context success t now) n i ks
               <= 1)%nat).
  { intros self name context success t now H n i ks. unfold stored in *.
    destruct (record_tool_execution_patterns self name context success t now)
      as [-> | [_ [Hnew ->]]]; [apply H|].
    apply stored_after_append; [apply H | exact Hnew]. }
  assert (Hall : forall calls d,
            (forall n i ks, (stored d n i ks <= 1)%nat) ->
            forall n i ks, (stored (record_all d calls) n i ks <= 1)%nat).
  { induction calls as [|c calls IH]; intros d Hd.
    - exact Hd.
    - simpl. apply IH. now apply Hinv. }
  intros self name context success t now self'. subst self'.
  split; [|split; [|split; [|split]]].
  - intros ->.
    destruct (record_tool_execution_patterns self name context false t now)
      as [Hp | [Hs _]]; [exact Hp | discriminate].
  - intros Hex.
    destruct (record_tool_execution_patterns self name context success t now)
      as [Hp | [_ [Hnew _]]]; [exact Hp | congruence].
  - destruct (record_tool_execution_patterns self name context success t now)
      as [Hp | [_ [_ Hp]]]; auto.
  - apply Hinv.
  - intros calls. apply Hall. intros n i ks. unfold stored. simpl. lia.
Qed.

Definition search_context : Context :=
  {| ctx_intent := Some "test_intent"; ctx_entities := ["entity1"];
     ctx_metadata := ["key1"] |}.

Definition search_success (at_ : string) : Execution :=
  {| exec_tool := "mock_tool"; exec_context := search_context;
     exec_success := true; exec_time := 5 # 10; exec_at := at_ |}.

(** The same successful execution recorded three times: one pattern, the
    one learned first. *)
Example record_thrice :
  tool_patterns
    (record_all (ToolDiscovery_init "t0")
       [search_success "t1"; search_success "t2"; search_success "t3"])
  = [pattern_of "mock_tool" search_context "t1"].
Proof. reflexivity. Qed.

Lemma record_tool_execution_learns_once_witness :
  tool_patterns
    (record_tool_execution
       (record_tool_execution (ToolDiscovery_init "t0") "mock_tool" search_context
          true (5 # 10) "t1")
       "mock_tool" search_context true (5 # 10) "t2")
  = tool_patterns
      (record_tool_execution (ToolDiscovery_init "t0") "mock_tool" search_context
         true (5 # 10) "t1").
Proof.
  apply (record_tool_execution_learns_once
           (record_tool_execution (ToolDiscovery_init "t0") "mock_tool" search_context
              true (5 # 10) "t1")
           "mock_tool" search_context true (5 # 10) "t2").
  reflexivity.
Defined.

End Discovery.


(* ================================================================== *)
(** * The agent catalog as a whole [src/agents/registry.py] *)

Module Catalog.
Import Routing.

(** [is_agent_registered] *)
Definition is_agent_registered (agents : registry) (agent_name : string) : bool :=
  Dict.mem agent_name agents.

(** [get_agent] *)
Definition get_agent (agents : registry) (agent_name : string) : option AgentMetadata :=
  Dict.get agent_name agents.

(** [get_agents_by_capability] *)
Definition get_agents_by_capability (agents : registry) (capability : string)
    : list string :=
  map fst (filter (fun a => has_capability capability (snd a)) agents).

(** [get_active_agents] *)
Definition get_active_agents (agents : registry) : list string :=
  map fst (filter (fun a => is_active (snd a)) agents).

(** [unregister_agent] *)
Definition unregister_agent (agents : registry) (agent_name : string)
    : result error registry :=
  if Dict.mem agent_name agents then Ok (Dict.del agent_name agents)
  else Err (NotRegistered agent_name).

(** The dict passed to [update_agent], by the keys of a record: a field is
    [Some v] when the dict has the key. *)
Record AgentUpdate : Type := {
  upd_capabilities : option (list string);
  upd_status : option string;
  upd_load : option json;
  upd_performance : option json;
  upd_last_selected : option string;
  upd_current_task : option string;
  upd_registered_at : option string
}.

Definition or_else {A : Type} (new old : option A) : option A :=
  match new with
  | Some v => Some v
  | None => old
  end.

(** [self._agents[agent_name].update(metadata)] followed by the refresh of
    "last_updated": a shallow merge. *)
Definition apply_update (metadata : AgentMetadata) (u : AgentUpdate) (now : string)
    : AgentMetadata :=
  {| capabilities := match upd_capabilities u with
                     | Some c => c
                     | None => capabilities metadata
                     end;
     status := or_else (upd_status u) (status metadata);
     load := or_else (upd_load u) (load metadata);
     performance := or_else (upd_performance u) (performance metadata);
     last_selected := or_else (upd_last_selected u) (last_selected metadata);
     current_task := or_else (upd_current_task u) (current_task metadata);
     registered_at := or_else (upd_registered_at u) (registered_at metadata);
     last_updated := Some now |}.

(** [AgentRegistry.update_agent] *)
Definition update_agent_with (agents : registry) (agent_name : string)
    (u : AgentUpdate) (now : string) : result error registry :=
  match Dict.get agent_name agents with
  | None => Err (NotRegistered agent_name)
  | Some metadata => Ok (Dict.set agent_name (apply_update metadata u now) agents)
  end.

(** The update that [route_task] writes back. *)
Definition selection_update (selected_at task : string) : AgentUpdate :=
  {| upd_capabilities := None; upd_status := None; upd_load := None;
     upd_performance := None; upd_last_selected := Some selected_at;
     upd_current_task := Some task; upd_registered_at := None |}.

Lemma update_agent_selection agents agent_name selected_at task now :
  update_agent agents agent_name selected_at task now
  = update_agent_with agents agent_name (selection_update selected_at task) now.
Proof.
  unfold update_agent, update_agent_with.
  destruct (Dict.get agent_name agents); reflexivity.
Qed.

(** ** Catalogs built through the interface *)

Inductive operation : Type :=
| Register (agent_name : string) (metadata : AgentMetadata) (now : string)
| Update (agent_name : string) (u : AgentUpdate) (now : string)
| Unregister (agent_name : string).

(** One call; a call that raises leaves the catalog as it was (each method
    checks the name before it touches [_agents]). *)
Definition step (agents : registry) (op : operation) : registry :=
  let outcome :=
    match op with
    | Register n metadata now => register_agent agents n metadata now
    | Update n u now => update_agent_with agents n u now
    | Unregister n => unregister_agent agents n
    end in
  match outcome with
  | Ok agents' => agents'
  | Err _ => agents
  end.

Definition run (ops : list operation) (agents : registry) : registry :=
  fold_left step ops agents.

(** What every catalog built through the interface satisfies. *)
Definition well_formed (agents : registry) : Prop :=
  NoDup (Dict.keys agents) /\
  forall id md, In (id, md) agents ->
    status md <> None /\ registered_at md <> None /\ last_updated md <> None.

Lemma well_formed_step agents op : well_formed agents -> well_formed (step agents op).
Proof.
  intros [ND H]. unfold step.
  destruct op as [n md now | n u now | n]; simpl.
  - unfold register_agent. destruct (Dict.mem n agents); [now split|].
    split; [now apply NoDup_keys_set|].
    intros id m Hin. apply in_set_inv in Hin. destruct Hin as [[-> ->] | Hin]; eauto.
    simpl. destruct (status md); repeat split; discriminate.
  - unfold update_agent_with. destruct (Dict.get n agents) as [m0|] eqn:E; [|now split].
    split; [now apply NoDup_keys_set|].
    intros id m Hin. apply in_set_inv in Hin. destruct Hin as [[-> ->] | Hin]; eauto.
    destruct (H n m0 (get_In _ _ _ E)) as [Hs [Hr _]].
    unfold apply_update, or_else. simpl.
    destruct (upd_status u), (upd_registered_at u); repeat split;
      try discriminate; assumption.
  - unfold unregister_agent. destruct (Dict.mem n agents); [|now split].
    split; [now apply NoDup_keys_del|].
    intros id m Hin. apply in_del_inv in Hin. eauto.
Qed.

(** X3.  After any sequence of [register_agent], [update_agent] and
    [unregister_agent] calls on an empty catalog, failed calls included, the
    agent ids are pairwise distinct and every agent has a status, a
    registration time and an update time. *)
Theorem catalog_well_formed :
  forall (ops : list operation),
    NoDup (Dict.keys (run ops [])) /\
    forall id md, In (id, md) (run ops []) ->
      status md <> None /\ registered_at md <> None /\ last_updated md <> None.
Proof.
  intros ops. change (well_formed (run ops [])).
  assert (H : forall agents, well_formed agents -> well_formed (run ops agents)).
  { induction ops as [|op ops IH]; intros agents Hw; simpl; auto.
    apply IH. now apply well_formed_step. }
  apply H. split; [constructor | intros id md []].
Qed.

End Catalog.


(* ================================================================== *)
(** * More about the decision engine [src/routing/decision_maker.py] *)

Module RoutingFacts.
Import Routing Catalog.

Lemma max_from_In items : forall best, In (max_from best items) (best :: items).
Proof.
  induction items as [|x items IH]; intros best; simpl.
  - now left.
  - destruct (IH (if Qgtb (snd x) (snd best) then x else best)) as [H | H].
    + rewrite <- H. destruct (Qgtb (snd x) (snd best)); auto.
    + right. now right.
Qed.

Lemma fold_set_keys (f : string -> Q) (xs : list string) :
  forall (acc : Dict.t Q) k,
    In k (Dict.keys (fold_left (fun d x => Dict.set x (f x) d) xs acc)) ->
    In k (Dict.keys acc) \/ In k xs.
Proof.
  induction xs as [|x xs IH]; intros acc k H; simpl in *; auto.
  apply IH in H. destruct H as [H | H]; [|auto].
  apply keys_set_In in H. destruct H as [-> | H]; auto.
Qed.

Lemma fold_set_values (f : string -> Q) (xs : list string) :
  forall (acc : Dict.t Q),
    (forall k v, In (k, v) acc -> v = f k) ->
    forall k v, In (k, v) (fold_left (fun d x => Dict.set x (f x) d) xs acc) -> v = f k.
Proof.
  induction xs as [|x xs IH]; intros acc Hacc k v H; simpl in *; eauto.
  apply (IH (Dict.set x (f x) acc)); auto.
  intros k' v' H'. apply in_set_inv in H'. destruct H' as [[-> ->] | H']; eauto.
Qed.

Lemma get_candidate_agents_Ok agents cap l :
  get_candidate_agents agents cap = Ok l ->
  l = map fst (filter (eligible cap) agents) /\ l <> [].
Proof.
  unfold get_candidate_agents. rewrite filter_filter_and.
  change (fun a : string * AgentMetadata =>
            has_capability cap (snd a) && is_active (snd a)) with (eligible cap).
  destruct (map fst (filter (fun a => has_capability cap (snd a)) agents));
    [discriminate|].
  destruct (map fst (filter (eligible cap) agents)) eqn:E; [discriminate|].
  intros [= <-]. split; [reflexivity | discriminate].
Qed.

(** What a successful [route_task] went through. *)
Lemma route_task_inv fos self agents cap t0 t1 sel agents' :
  route_task fos self agents cap t0 t1 = Ok (sel, agents') ->
  exists candidates lm pm,
    get_candidate_agents agents cap = Ok candidates /\
    get_load_metrics fos agents = Ok lm /\
    get_performance_metrics fos agents = Ok pm /\
    check_metrics candidates lm pm = Ok tt /\
    py_max (fold_left
              (fun scores agent_id =>
                 Dict.set agent_id (calculate_agent_score self agent_id lm pm) scores)
              candidates [])
    = Ok (sel, calculate_agent_score self sel lm pm) /\
    In sel candidates /\
    update_agent agents sel t0 cap t1 = Ok agents'.
Proof.
  unfold route_task. intros H.
  destruct (get_candidate_agents agents cap) as [candidates|] eqn:Ec; [|discriminate].
  destruct (get_load_metrics fos agents) as [lm|] eqn:El; [|discriminate].
  destruct (get_performance_metrics fos agents) as [pm|] eqn:Ep; [|discriminate].
  cbn [bind] in H.
  destruct (check_metrics candidates lm pm) as [[]|] eqn:Ek; [|discriminate].
  cbn [bind] in H. cbv zeta in H.
  pose (score := fun i => calculate_agent_score self i lm pm).
  change (fun (scores : Dict.t Q) (agent_id : string) =>
            Dict.set agent_id (calculate_agent_score self agent_id lm pm) scores)
    with (fun (scores : Dict.t Q) (i : string) => Dict.set i (score i) scores) in H |- *.
  destruct (py_max (fold_left (fun scores i => Dict.set i (score i) scores)
                              candidates [])) as [[s q]|] eqn:Em;
    [|cbn in H; discriminate].
  cbn [bind fst] in H.
  destruct (update_agent agents s t0 cap t1) as [a'|] eqn:Eu;
    [|cbn in H; discriminate].
  cbn [bind] in H. injection H as -> ->.
  assert (Hin : In (sel, q) (fold_left (fun scores i => Dict.set i (score i) scores)
                                       candidates [])).
  { unfold py_max in Em.
    destruct (fold_left (fun scores i => Dict.set i (score i) scores) candidates [])
      as [|x items]; [discriminate|].
    injection Em as Em. rewrite <- Em. apply max_from_In. }
  assert (Hsel : In sel candidates).
  { destruct (fold_set_keys score candidates [] sel) as [[] | Hs]; auto.
    change sel with (fst (sel, q)). now apply in_map. }
  assert (Hq : q = score sel).
  { apply (fold_set_values score candidates [] (fun k v (F : In (k, v) []) =>
                                                   match F with end) sel q Hin). }
  exists candidates, lm, pm. subst q. auto 10.
Qed.

Lemma filter_nil_inv {A : Type} (p : A -> bool) (l : list A) :
  filter p l = [] -> forall a, In a l -> p a = false.
Proof.
  induction l as [|x l IH]; simpl; intros H a Ha; [contradiction|].
  destruct (p x) eqn:E; [discriminate|].
  destruct Ha as [<- | Ha]; auto.
Qed.

(** X4.  The three outcomes of the candidate search: [NoCapableAgents]
    exactly when no registered agent declares the capability;
    [NoActiveAgents] when some do and none of them is "active"; otherwise
    the non-empty list of the agents that are capable and active, in catalog
    order. *)
Theorem get_candidate_agents_cases :
  forall (agents : registry) (cap : string),
    match get_candidate_agents agents cap with
    | Ok l =>
        l <> [] /\
        l = map fst (filter (fun a => has_capability cap (snd a) && is_active (snd a))
                            agents)
    | Err (NoCapableAgents c) =>
        c = cap /\ get_agents_by_capability agents cap = []
    | Err (NoActiveAgents c) =>
        c = cap /\ get_agents_by_capability agents cap <> [] /\
        forall a, In a agents -> has_capability cap (snd a) = true ->
                  is_active (snd a) = false
    | Err _ => False
    end.
Proof.
  intros agents cap. unfold get_candidate_agents, get_agents_by_capability.
  rewrite filter_filter_and.
  destruct (map fst (filter (fun a => has_capability cap (snd a)) agents)) eqn:E1;
    [auto|].
  destruct (filter (fun a => has_capability cap (snd a) && is_active (snd a)) agents)
    eqn:E2; simpl.
  - split; [reflexivity|]. split; [discriminate|].
    intros a Ha Hc. pose proof (filter_nil_inv _ _ E2 a Ha) as H.
    simpl in H. now rewrite Hc in H.
  - split; [discriminate | reflexivity].
Qed.

(** X5.  An agent registered without a status gets "initializing" and is
    therefore never the result of [route_task], whatever its metrics, until
    its status is updated. *)
Theorem fresh_agent_is_not_routed :
  forall (float_of_str : string -> option Q) (self : DecisionMaker)
         (agents agents1 agents2 : registry) (agent_name : string)
         (metadata : AgentMetadata) (now cap t0 t1 selected : string),
    status metadata = None ->
    register_agent agents agent_name metadata now = Ok agents1 ->
    route_task float_of_str self agents1 cap t0 t1 = Ok (selected, agents2) ->
    selected <> agent_name.
Proof.
  intros fos self agents agents1 agents2 n md now cap t0 t1 sel Hs Hreg Hroute ->.
  unfold register_agent in Hreg.
  destruct (Dict.mem n agents) eqn:Em; [discriminate|].
  injection Hreg as <-.
  apply route_task_inv in Hroute.
  destruct Hroute as [cands [lm [pm [Hc [_ [_ [_ [_ [Hin _]]]]]]]]].
  apply get_candidate_agents_Ok in Hc. destruct Hc as [-> _].
  apply in_map_iff in Hin. destruct Hin as [[k m] [Hk Hin]]. simpl in Hk. subst k.
  apply filter_In in Hin. destruct Hin as [Hin He].
  apply in_set_inv in Hin. destruct Hin as [[_ ->] | Hin].
  - unfold eligible, is_active in He. simpl in He. rewrite Hs in He.
    simpl in He. now rewrite andb_false_r in He.
  - unfold Dict.mem in Em. destruct (Dict.get n agents) eqn:Eg; [discriminate|].
    apply get_None_notin in Eg. apply Eg.
    change n with (fst (n, m)). now apply in_map.
Qed.

(** A newcomer with perfect metrics and no status. *)
Definition newcomer : AgentMetadata :=
  {| capabilities := ["intent"]; status := None; load := Some (JNum 0);
     performance := Some (JDict [("success_rate", JNum 1)]);
     last_selected := None; current_task := None;
     registered_at := None; last_updated := None |}.

Lemma fresh_agent_is_not_routed_witness :
  exists agents1 agents2 selected,
    status newcomer = None /\
    register_agent catalog_example "agent3" newcomer "t0" = Ok agents1 /\
    route_task no_float DecisionMaker_init agents1 "intent" "t1" "t2"
      = Ok (selected, agents2) /\
    selected <> "agent3".
Proof.
  eexists. eexists. eexists.
  split; [reflexivity|]. split; [reflexivity|]. split; [reflexivity|].
  eapply (fresh_agent_is_not_routed no_float DecisionMaker_init catalog_example
            _ _ "agent3" newcomer "t0" "intent" "t1" "t2");
    reflexivity.
Defined.

(** ** Which agent an [InvalidMetrics] error names *)




End RoutingFacts.


(* ================================================================== *)
(** * More about tools [src/tools/base.py] *)

Module ToolFacts.
Import Tools.

(** One call of [execute]: its arguments and the two clock readings. *)
Record Call : Type := {
  call_params : json;
  call_context : ToolContext;
  call_elapsed : Q;
  call_now : string
}.

(** The tool after a sequence of calls. *)
Definition execute_all (self : Tool) (calls : list Call) : Tool :=
  fold_left
    (fun t c => snd (execute t (call_params c) (call_context c)
                       (call_elapsed c) (call_now c)))
    calls self.

(** The tool-specific logic raises on this call. *)
Definition logic_raises (c : ToolClass) (call : Call) : bool :=
  match _execute_impl c (call_params call) (call_context call) with
  | Ok _ => false
  | Err _ => true
  end.

(** The counters of a tool that has been called [n] times, [k] of them
    raising. *)
Definition counted (m : ToolMetrics) (n k : nat) : Prop :=
  total_executions m = Z.of_nat n /\
  failed_executions m = Z.of_nat k /\
  (k <= n)%nat /\
  (n = 0%nat -> success_rate m = 0) /\
  ((0 < n)%nat ->
   success_rate m = inject_Z (Z.of_nat n - Z.of_nat k) / inject_Z (Z.of_nat n)).

Lemma execute_cls self params context elapsed now :
  cls (snd (execute self params context elapsed now)) = cls self.
Proof.
  unfold execute, execute_failed.
  destruct (_execute_impl (cls self) params context); [|reflexivity].
  destruct (_ =? 0)%Z; reflexivity.
Qed.

Lemma execute_counted self call n k :
  counted (metrics self) n k ->
  counted (metrics (snd (execute self (call_params call) (call_context call)
                           (call_elapsed call) (call_now call))))
          (S n) (if logic_raises (cls self) call then S k else k).
Proof.
  intros [Ht [Hf [Hkn [_ _]]]]. unfold execute, execute_failed, logic_raises.
  destruct (_execute_impl (cls self) (call_params call) (call_context call)).
  - destruct (Z.eqb_spec (total_executions (metrics self) + 1) 0) as [E | E]; [lia|].
    simpl. rewrite Ht, Hf.
    replace (Z.of_nat n + 1)%Z with (Z.of_nat (S n)) by lia.
    repeat split; try lia; try discriminate.
  - simpl. rewrite Ht, Hf.
    replace (Z.of_nat n + 1)%Z with (Z.of_nat (S n)) by lia.
    replace (Z.of_nat k + 1)%Z with (Z.of_nat (S k)) by lia.
    rewrite Z.max_l by lia.
    repeat split; try lia; try discriminate.
Qed.

Lemma execute_all_cls calls : forall self, cls (execute_all self calls) = cls self.
Proof.
  induction calls as [|c calls IH]; intros self; simpl; auto.
  unfold execute_all in *. simpl. rewrite IH. apply execute_cls.
Qed.

Lemma execute_all_counted calls : forall self n k,
  counted (metrics self) n k ->
  counted (metrics (execute_all self calls))
          (n + List.length calls)
          (k + List.length (filter (logic_raises (cls self)) calls)).
Proof.
  induction calls as [|c calls IH]; intros self n k H; simpl.
  - now rewrite !Nat.add_0_r.
  - unfold execute_all in *. simpl.
    pose proof (execute_counted self c n k H) as H1.
    apply IH in H1. rewrite execute_cls in H1.
    replace (n + S (List.length calls))%nat with (S n + List.length calls)%nat by lia.
    destruct (logic_raises (cls self) c); simpl.
    + replace (k + S (List.length (filter (logic_raises (cls self)) calls)))%nat
        with (S k + List.length (filter (logic_raises (cls self)) calls))%nat by lia.
      exact H1.
    + exact H1.
Qed.

Lemma ratio_bounds (n d : Z) :
  (0 <= n <= d)%Z -> (0 < d)%Z -> 0 <= inject_Z n / inject_Z d /\ inject_Z n / inject_Z d <= 1.
Proof.
  intros [H0 H1] Hd.
  assert (Hd' : 0 < inject_Z d) by (change 0 with (inject_Z 0); now rewrite <- Zlt_Qlt).
  split.
  - apply Qle_shift_div_l; [exact Hd'|]. rewrite Qmult_0_l.
    change 0 with (inject_Z 0). now rewrite <- Zle_Qle.
  - apply Qle_shift_div_r; [exact Hd'|]. rewrite Qmult_1_l. now rewrite <- Zle_Qle.
Qed.

Lemma counted_rate_bounds m n k :
  counted m n k -> 0 <= success_rate m /\ success_rate m <= 1.
Proof.
  intros [_ [_ [Hkn [H0 Hpos]]]].
  destruct n as [|n].
  - rewrite H0 by reflexivity. split; lra.
  - rewrite Hpos by lia. apply ratio_bounds; lia.
Qed.

(** X9.  A tool built by the constructor and then called any number of
    times has [total_executions] equal to the number of calls,
    [failed_executions] equal to the number of calls whose logic raised,
    and a [success_rate] in [0, 1] that is 0 before the first call and
    [(total - failed) / total] afterwards. *)
Theorem fresh_tool_metrics :
  forall (c : ToolClass) (calls : list Call),
    let m := metrics (execute_all {| cls := c; metrics := ToolMetrics_init |} calls) in
    total_executions m = Z.of_nat (List.length calls) /\
    failed_executions m = Z.of_nat (List.length (filter (logic_raises c) calls)) /\
    (failed_executions m <= total_executions m)%Z /\
    0 <= success_rate m /\ success_rate m <= 1 /\
    (calls = [] -> success_rate m = 0) /\
    (calls <> [] ->
     success_rate m
     = inject_Z (total_executions m - failed_executions m)
       / inject_Z (total_executions m)).
Proof.
  intros c calls m.
  assert (H0 : counted ToolMetrics_init 0 0).
  { repeat split; try reflexivity; try lia. }
  pose proof (execute_all_counted calls {| cls := c; metrics := ToolMetrics_init |}
                0%nat 0%nat H0) as H.
  simpl in H. fold m in H.
  destruct (counted_rate_bounds _ _ _ H) as [Hlo Hhi].
  destruct H as [Ht [Hf [Hkn [Hz Hp]]]].
  split; [exact Ht|]. split; [exact Hf|]. split; [lia|].
  split; [exact Hlo|]. split; [exact Hhi|]. split.
  - intros ->. apply Hz. reflexivity.
  - intros Hne. rewrite Ht, Hf. apply Hp.
    destruct calls; [congruence | simpl; lia].
Qed.

(** X10.  Whatever calls a freshly built tool has served, its adjusted
    confidence for a raw score [raw >= 0] lies between [0.8 * raw] and
    [raw]: the history scales the score down by at most a fifth and never
    up. *)
Theorem fresh_tool_adjusted_confidence :
  forall (c : ToolClass) (calls : list Call) (raw : Q),
    0 <= raw ->
    let tool := execute_all {| cls := c; metrics := ToolMetrics_init |} calls in
    (8 # 10) * raw <= adjusted_confidence tool raw /\
    adjusted_confidence tool raw <= raw.
Proof.
  intros c calls raw Hraw tool.
  assert (H0 : counted ToolMetrics_init 0 0).
  { repeat split; try reflexivity; try lia. }
  pose proof (execute_all_counted calls {| cls := c; metrics := ToolMetrics_init |}
                0%nat 0%nat H0) as H.
  apply counted_rate_bounds in H. fold tool in H. destruct H as [Hlo Hhi].
  unfold adjusted_confidence.
  assert (H1 : 0 <= raw * success_rate (metrics tool))
    by (apply Qmult_le_0_compat; assumption).
  assert (H2 : 0 <= raw * (1 - success_rate (metrics tool)))
    by (apply Qmult_le_0_compat; [assumption | lra]).
  split; lra.
Qed.

Lemma fresh_tool_adjusted_confidence_witness :
  (8 # 10) * (1 # 2)
  <= adjusted_confidence
       (execute_all mock_tool
          [{| call_params := JDict []; call_context := test_context;
              call_elapsed := 1; call_now := "t1" |}]) (1 # 2) /\
  adjusted_confidence
    (execute_all mock_tool
       [{| call_params := JDict []; call_context := test_context;
           call_elapsed := 1; call_now := "t1" |}]) (1 # 2)
  <= 1 # 2.
Proof.
  apply (fresh_tool_adjusted_confidence (mock_tool_class "1.0.0" 1%nat)
           [{| call_params := JDict []; call_context := test_context;
               call_elapsed := 1; call_now := "t1" |}] (1 # 2)).
  unfold Qle. simpl. lia.
Defined.

(** ** The running average *)






(** ** Registration history *)

(** Registering a list of classes in order; the first that raises ends the
    sequence. *)
Fixpoint register_all (st : ToolRegistry * heap) (classes : list ToolClass)
    : result error (ToolRegistry * heap) :=
  match classes with
  | [] => Ok st
  | c :: rest =>
      match register (fst st) (snd st) c with
      | Ok st' => register_all st' rest
      | Err e => Err e
      end
  end.

(** The versions registered under a name, oldest first. *)
Definition versions_of (n : string) (classes : list ToolClass) : list string :=
  map version (filter (fun c => String.eqb (name c) n) classes).

(** The class registered last under a name. *)
Definition latest (n : string) (classes : list ToolClass) : option ToolClass :=
  fold_left (fun acc c => if String.eqb (name c) n then Some c else acc) classes None.

Definition instance (c : ToolClass) : Tool :=
  {| cls := c; metrics := ToolMetrics_init |}.

Lemma latest_from (n : string) (classes : list ToolClass) : forall acc,
  fold_left (fun acc c => if String.eqb (name c) n then Some c else acc) classes acc
  = match latest n classes with
    | Some c => Some c
    | None => acc
    end.
Proof.
  unfold latest. induction classes as [|c classes IH]; intros acc; simpl; auto.
  rewrite (IH (if String.eqb (name c) n then Some c else acc)).
  rewrite (IH (if String.eqb (name c) n then Some c else None)).
  destruct (fold_left _ classes None); auto.
  destruct (String.eqb (name c) n); auto.
Qed.

Lemma register_all_state classes : forall st,
  (forall c, In c classes -> name c <> "") ->
  exists st',
    register_all st classes = Ok st' /\
    forall n,
      Dict.get n (_version_history (fst st'))
      = match versions_of n classes with
        | [] => Dict.get n (_version_history (fst st))
        | vs => Some (match Dict.get n (_version_history (fst st)) with
                      | Some old => old
                      | None => []
                      end ++ vs)
        end /\
      Dict.get n (_tools (fst st'))
      = match latest n classes with
        | Some c => Some (instance c)
        | None => Dict.get n (_tools (fst st))
        end.
Proof.
  induction classes as [|c classes IH]; intros st Hnamed.
  - exists st. split; [reflexivity|]. intros n. split; reflexivity.
  - assert (Hc : String.eqb (name c) "" = false)
      by (apply String.eqb_neq, Hnamed; now left).
    simpl. unfold register at 1, Tool_init. rewrite Hc. cbn [bind cls].
    match goal with
    | |- context [register_all ?s classes] => destruct (IH s) as [st' [Hr Hst]]
    end.
    { intros c' Hc'. apply Hnamed. now right. }
    exists st'. split; [exact Hr|]. intros n.
    destruct (Hst n) as [Hh Ht]. cbn [fst snd _version_history _tools] in Hh, Ht.
    unfold versions_of, latest in *. simpl.
    rewrite latest_from. fold (latest n classes) in *.
    destruct (String.eqb (name c) n) eqn:En.
    + apply String.eqb_eq in En. subst n. simpl.
      rewrite get_set_eq in Hh. rewrite get_set_eq in Ht. split.
      * rewrite Hh.
        destruct (map version (filter (fun c0 => String.eqb (name c0) (name c)) classes));
          [reflexivity|].
        now rewrite <- app_assoc.
      * rewrite Ht. unfold latest. destruct (fold_left _ classes None); reflexivity.
    + apply String.eqb_neq in En.
      rewrite get_set_neq in Hh by exact En.
      rewrite get_set_neq in Ht by exact En. split.
      * exact Hh.
      * rewrite Ht. unfold latest. destruct (fold_left _ classes None); reflexivity.
Qed.

(** X12.  A class without a name cannot be registered ([ValueError]).
    After any sequence of registrations of named classes on an empty
    registry, the version history of a name lists the versions registered
    under it, oldest first and repeats included, and the registry's tool for
    the name is a new instance of the class registered last: a
    re-registration starts the metrics from zero. *)
Theorem register_all_history :
  forall (classes : list ToolClass) (h : heap),
    (forall reg c, name c = "" ->
       register reg h c = Err (ValueError "Tool must have a name")) /\
    ((forall c, In c classes -> name c <> "") ->
     exists st,
       register_all (ToolRegistry_init, h) classes = Ok st /\
       forall n,
         Dict.get n (_version_history (fst st))
         = match versions_of n classes with
           | [] => None
           | vs => Some vs
           end /\
         Dict.get n (_tools (fst st))
         = match latest n classes with
           | Some c => Some {| cls := c; metrics := ToolMetrics_init |}
           | None => None
           end).
Proof.
  intros classes h. split.
  - intros reg c Hn. unfold register, Tool_init. rewrite Hn. reflexivity.
  - intros Hnamed.
    destruct (register_all_state classes (ToolRegistry_init, h) Hnamed)
      as [st [Hr Hst]].
    exists st. split; [exact Hr|]. intros n. destruct (Hst n) as [Hh Ht].
    simpl in Hh, Ht. split.
    + rewrite Hh. destruct (versions_of n classes); reflexivity.
    + exact Ht.
Qed.

Lemma register_all_history_witness :
  exists st,
    register_all (ToolRegistry_init, test_heap)
      [mock_tool_class "1.0.0" 1%nat; mock_tool_class "1.1.0" 1%nat] = Ok st /\
    forall n,
      Dict.get n (_version_history (fst st))
      = match versions_of n [mock_tool_class "1.0.0" 1%nat; mock_tool_class "1.1.0" 1%nat]
        with
        | [] => None
        | vs => Some vs
        end /\
      Dict.get n (_tools (fst st))
      = match latest n [mock_tool_class "1.0.0" 1%nat; mock_tool_class "1.1.0" 1%nat] with
        | Some c => Some {| cls := c; metrics := ToolMetrics_init |}
        | None => None
        end.
Proof.
  apply (proj2 (register_all_history
                  [mock_tool_class "1.0.0" 1%nat; mock_tool_class "1.1.0" 1%nat]
                  test_heap)).
  intros c [<- | [<- | []]]; discriminate.
Defined.

(** ** Selection and the threshold *)

Lemma select_loop_lower (ctx : ToolContext) (m m' : Q) (t : Tool) (tools : list Tool) :
  m' <= m ->
  forall best bc best' bc',
    (best = best' /\ bc = bc') \/ (best = None /\ bc <= bc' /\ bc' < m) ->
    (forall b, best = Some b -> m <= bc) ->
    select_loop tools ctx m best bc = Some t ->
    select_loop tools ctx m' best' bc' = Some t.
Proof.
  intros Hm. induction tools as [|tool rest IH]; intros best bc best' bc' HR Hbest Hsel.
  - simpl in *. destruct HR as [[<- _] | [-> _]]; [exact Hsel | discriminate].
  - simpl in *.
    destruct (can_handle (cls tool) ctx) as [c|]; [|now apply (IH best bc)].
    set (A := adjusted_confidence tool c) in *.
    destruct (Qgtb A bc && Qgeb A m) eqn:E1.
    + (* accepted under the higher threshold *)
      apply andb_true_iff in E1. destruct E1 as [Hgt Hge].
      apply Qgtb_lt in Hgt. apply Qgeb_le in Hge.
      assert (E2 : Qgtb A bc' && Qgeb A m' = true).
      { apply andb_true_iff. split.
        - apply Qgtb_lt. destruct HR as [[_ <-] | [_ [_ Hlt]]]; [exact Hgt|].
          eapply Qlt_le_trans; eauto.
        - apply Qgeb_le. eapply Qle_trans; eauto. }
      rewrite E2. apply (IH (Some tool) A); auto.
    + destruct (Qgtb A bc' && Qgeb A m') eqn:E2.
      * (* accepted under the lower threshold only *)
        apply andb_true_iff in E2. destruct E2 as [Hgt' Hge'].
        apply Qgtb_lt in Hgt'. apply Qgeb_le in Hge'.
        assert (Hlow : A < m).
        { destruct (Qlt_le_dec A m) as [H | H]; [exact H|]. exfalso.
          apply Qgeb_le in H. rewrite H, andb_true_r in E1.
          apply Qgtb_false in E1.
          destruct HR as [[_ <-] | [_ [Hle _]]].
          - exact (Qlt_not_le _ _ Hgt' E1).
          - apply (Qlt_not_le _ _ Hgt'). eapply Qle_trans; eauto. }
        assert (Hnone : best = None).
        { destruct HR as [[-> <-] | [-> _]]; [|reflexivity].
          destruct best' as [b|]; [|reflexivity]. exfalso.
          specialize (Hbest b eq_refl).
          apply (Qlt_not_le _ _ Hlow). eapply Qle_trans; [exact Hbest|].
          now apply Qlt_le_weak. }
        apply (IH best bc); auto. right. split; [exact Hnone|]. split; [|exact Hlow].
        destruct HR as [[_ <-] | [_ [Hle _]]].
        -- now apply Qlt_le_weak.
        -- eapply Qle_trans; [exact Hle|]. now apply Qlt_le_weak.
      * now apply (IH best bc).
Qed.

(** X13.  Lowering [min_confidence] never changes a selection: the tool
    selected at one threshold is the tool selected at every lower one. *)
Theorem select_tool_lower_threshold :
  forall (float_of_str : string -> option Q) (self : ToolRegistry)
         (context : Dict.t json) (m m' : Q) (t : Tool),
    m' <= m ->
    select_tool float_of_str self context m = Some t ->
    select_tool float_of_str self context m' = Some t.
Proof.
  intros fos self context m m' t Hm. unfold select_tool.
  destruct (make_tool_context fos context) as [ctx|]; [|discriminate].
  apply (select_loop_lower ctx m m' t _ Hm None 0 None 0); [now left|].
  intros b Hb. discriminate.
Qed.

Lemma select_tool_lower_threshold_witness :
  select_tool no_float mock_registry [("intent", JStr "test_intent")] (1 # 10)
  = Some mock_tool.
Proof.
  apply (select_tool_lower_threshold no_float mock_registry
           [("intent", JStr "test_intent")] (5 # 10) (1 # 10) mock_tool).
  - unfold Qle. simpl. lia.
  - reflexivity.
Defined.

(** ** Tools that validate their parameters *)

(** A tool-specific logic that begins with
    [if not self.validate_params(params): raise ValueError(msg)], as
    [SearchTool._execute_impl] does. *)
Definition guarded (c : ToolClass) (msg : string)
    (logic : json -> ToolContext -> result string (Dict.t json)) : ToolClass :=
  {| name := name c; description := description c;
     required_params := required_params c; version := version c;
     compatible_versions := compatible_versions c; can_handle := can_handle c;
     _execute_impl := fun params context =>
       if validate_params {| cls := c; metrics := ToolMetrics_init |} params
       then logic params context
       else Err msg |}.

(** X14.  For a tool whose logic begins with the [validate_params] guard,
    [execute] on a value that is not a dict, or on a dict without one of
    the required names, returns a failure carrying the guard's message and
    counts one more failed execution; on valid parameters the result is the
    outcome of the logic behind the guard. *)
Theorem execute_guarded_tool :
  forall (c : ToolClass) (msg : string)
         (logic : json -> ToolContext -> result string (Dict.t json))
         (m : ToolMetrics) (params : json) (context : ToolContext)
         (elapsed : Q) (now : string),
    (0 <= total_executions m)%Z ->
    let self := {| cls := guarded c msg logic; metrics := m |} in
    let outcome := execute self params context elapsed now in
    (validate_params self params = false ->
     fst outcome = {| success := false; data := []; next_tools := [];
                      error_message := Some msg |} /\
     failed_executions (metrics (snd outcome)) = (failed_executions m + 1)%Z) /\
    (validate_params self params = true ->
     fst outcome
     = match logic params context with
       | Ok result => {| success := true; data := result; next_tools := [];
                         error_message := None |}
       | Err e => {| success := false; data := []; next_tools := [];
                     error_message := Some e |}
       end).
Proof.
  intros c msg logic m params context elapsed now Hpos self outcome.
  unfold outcome, self, execute. cbn [cls metrics guarded _execute_impl].
  change (validate_params {| cls := guarded c msg logic; metrics := m |} params)
    with (validate_params {| cls := c; metrics := ToolMetrics_init |} params).
  split; intros ->.
  - split; reflexivity.
  - destruct (logic params context); [|reflexivity].
    destruct (Z.eqb_spec (total_executions m + 1) 0) as [E | E]; [lia | reflexivity].
Qed.

Lemma execute_guarded_tool_witness :
  fst (execute {| cls := guarded (mock_tool_class "1.0.0" 1%nat)
                           "Missing required parameters" (fun _ _ => Ok []);
                  metrics := ToolMetrics_init |}
               (JDict [("other", JNull)]) test_context 1 "t1")
  = {| success := false; data := []; next_tools := [];
       error_message := Some "Missing required parameters" |} /\
  failed_executions
    (metrics (snd (execute {| cls := guarded (mock_tool_class "1.0.0" 1%nat)
                                       "Missing required parameters" (fun _ _ => Ok []);
                              metrics := ToolMetrics_init |}
                           (JDict [("other", JNull)]) test_context 1 "t1")))
  = (failed_executions ToolMetrics_init + 1)%Z.
Proof.
  apply (proj1 (execute_guarded_tool (mock_tool_class "1.0.0" 1%nat)
                  "Missing required parameters" (fun _ _ => Ok [])
                  ToolMetrics_init (JDict [("other", JNull)]) test_context 1 "t1"
                  ltac:(simpl; lia))).
  reflexivity.
Defined.

(** ** Chains *)

(** The context dict of [execute_chain], by the keys it reads; a field is
    [None] when the key is missing.  The confidence is a number. *)
Record ChainRequest : Type := {
  chain_intent : option string;
  chain_confidence : option Q;
  chain_entities : option json;
  chain_metadata : option json;
  chain_params : option json
}.

Definition default {A : Type} (o : option A) (d : A) : A :=
  match o with
  | Some v => v
  | None => d
  end.

(** [ToolRegistry.define_chain] *)
Definition define_chain (self : ToolRegistry) (intent_ : string)
    (chain : list (string * Q)) : ToolRegistry :=
  {| _tools := _tools self;
     _version_history := _version_history self;
     _chain_definitions := Dict.set intent_ chain (_chain_definitions self) |}.

(** [d.update(updates)] *)
Definition dict_update (d updates : Dict.t json) : Dict.t json :=
  fold_left (fun acc kv => Dict.set (fst kv) (snd kv) acc) updates d.

(** The [ToolContext] built for each tool of the chain. *)
Definition chain_tool_context (req : ChainRequest) (chain_ctx : Dict.t json)
    : ToolContext :=
  {| intent := JStr (default (chain_intent req) "");
     confidence := default (chain_confidence req) 0;
     entities := default (chain_entities req) (JDict []);
     metadata := default (chain_metadata req) (JDict []);
     chain_context := Some (JDict chain_ctx) |}.

(** The loop of [execute_chain].  [timing k] gives the two clock readings of
    the [k]-th execution.  The executed tool is the object held by the
    registry, so its new metrics are the registry's. *)
Fixpoint chain_loop (tools : Dict.t Tool) (chain : list (string * Q))
    (req : ChainRequest) (chain_ctx : Dict.t json)
    (timing : nat -> Q * string) (k : nat) : list ToolResult * Dict.t Tool :=
  match chain with
  | [] => ([], tools)
  | (tool_name, threshold) :: rest =>
      match Dict.get tool_name tools with
      | None => chain_loop tools rest req chain_ctx timing k
      | Some tool =>
          let outcome :=
            execute tool (default (chain_params req) (JDict []))
                    (chain_tool_context req chain_ctx)
                    (fst (timing k)) (snd (timing k)) in
          let result := fst outcome in
          let tools' := Dict.set tool_name (snd outcome) tools in
          if negb (success result)
             || Qltb (success_rate (metrics (snd outcome))) threshold
          then ([result], tools')
          else
            let later :=
              chain_loop tools' rest req (dict_update chain_ctx (data result))
                         timing (S k) in
            (result :: fst later, snd later)
      end
  end.

(** [ToolRegistry.execute_chain]: the results and the registry afterwards. *)
Definition execute_chain (self : ToolRegistry) (req : ChainRequest)
    (timing : nat -> Q * string) : list ToolResult * ToolRegistry :=
  match Dict.get (default (chain_intent req) "") (_chain_definitions self) with
  | None => ([], self)
  | Some chain =>
      let run := chain_loop (_tools self) chain req [] timing 0 in
      (fst run,
       {| _tools := snd run;
          _version_history := _version_history self;
          _chain_definitions := _chain_definitions self |})
  end.

(** The entries of a chain whose tool is registered. *)
Definition registered_entries (tools : Dict.t Tool) (chain : list (string * Q))
    : list (string * Q) :=
  filter (fun e => Dict.mem (fst e) tools) chain.

(** All executions counted by the registry's tools. *)
Definition total_calls (tools : Dict.t Tool) : Z :=
  fold_right (fun kv acc => (total_executions (metrics (snd kv)) + acc)%Z) 0%Z tools.

Lemma execute_total self params context elapsed now :
  total_executions (metrics (snd (execute self params context elapsed now)))
  = (total_executions (metrics self) + 1)%Z.
Proof.
  unfold execute, execute_failed.
  destruct (_execute_impl (cls self) params context); [|reflexivity].
  destruct (_ =? 0)%Z; reflexivity.
Qed.

Lemma total_calls_set tools k t t' :
  Dict.get k tools = Some t ->
  total_calls (Dict.set k t' tools)
  = (total_calls tools - total_executions (metrics t)
     + total_executions (metrics t'))%Z.
Proof.
  induction tools as [|[k0 t0] tools IH]; simpl; [discriminate|].
  destruct (String.eqb k k0) eqn:E; simpl.
  - intros [= ->]. lia.
  - intros H. rewrite (IH H). lia.
Qed.

Lemma mem_set_same {V : Type} (k k' : string) (v : V) (d : Dict.t V) :
  Dict.mem k d = true -> Dict.mem k' (Dict.set k v d) = Dict.mem k' d.
Proof.
  unfold Dict.mem. intros H.
  destruct (String.eqb k k') eqn:E.
  - apply String.eqb_eq in E. subst k'. rewrite get_set_eq.
    destruct (Dict.get k d); [reflexivity | discriminate].
  - apply String.eqb_neq in E. now rewrite get_set_neq.
Qed.

Lemma keys_set_present {V : Type} (k : string) (v : V) (d : Dict.t V) :
  Dict.mem k d = true -> Dict.keys (Dict.set k v d) = Dict.keys d.
Proof.
  unfold Dict.mem. induction d as [|[k0 v0] d IH]; simpl; [discriminate|].
  destruct (String.eqb k k0) eqn:E; simpl; [reflexivity|].
  intros H. now rewrite IH.
Qed.

(** What the loop keeps and what it counts. *)
Lemma chain_loop_spec chain req timing : forall tools chain_ctx k,
  let run := chain_loop tools chain req chain_ctx timing k in
  (List.length (fst run) <= List.length (registered_entries tools chain))%nat /\
  Forall (fun r => success r = true) (removelast (fst run)) /\
  Dict.keys (snd run) = Dict.keys tools /\
  (forall n, option_map cls (Dict.get n (snd run)) = option_map cls (Dict.get n tools)) /\
  total_calls (snd run) = (total_calls tools + Z.of_nat (List.length (fst run)))%Z.
Proof.
  induction chain as [|[tool_name threshold] rest IH]; intros tools chain_ctx k; simpl.
  - repeat split; auto. lia.
  - unfold Dict.mem at 1.
    destruct (Dict.get tool_name tools) as [tool|] eqn:Eg; [|apply IH].
    set (outcome := execute tool (default (chain_params req) (JDict []))
                      (chain_tool_context req chain_ctx)
                      (fst (timing k)) (snd (timing k))).
    assert (Hmem : Dict.mem tool_name tools = true)
      by (unfold Dict.mem; now rewrite Eg).
    assert (Hcls : forall n,
              option_map cls (Dict.get n (Dict.set tool_name (snd outcome) tools))
              = option_map cls (Dict.get n tools)).
    { intros n. destruct (String.eqb tool_name n) eqn:En.
      - apply String.eqb_eq in En. subst n. rewrite get_set_eq, Eg. simpl.
        f_equal. apply execute_cls.
      - apply String.eqb_neq in En. now rewrite get_set_neq. }
    assert (Htot : total_calls (Dict.set tool_name (snd outcome) tools)
                   = (total_calls tools + 1)%Z).
    { rewrite (total_calls_set tools tool_name tool _ Eg).
      unfold outcome. rewrite execute_total. lia. }
    destruct (negb (success (fst outcome))
              || Qltb (success_rate (metrics (snd outcome))) threshold) eqn:Estop.
    + simpl. repeat split; auto.
      * lia.
      * now apply keys_set_present.
    + specialize (IH (Dict.set tool_name (snd outcome) tools)
                     (dict_update chain_ctx (data (fst outcome))) (S k)).
      simpl in IH. destruct IH as [Hlen [Hall [Hkeys [Hc Hsum]]]].
      cbn [fst snd].
      assert (Hreg : registered_entries (Dict.set tool_name (snd outcome) tools) rest
                     = registered_entries tools rest).
      { unfold registered_entries. apply filter_ext. intros e.
        now apply mem_set_same. }
      rewrite Hreg in Hlen.
      apply orb_false_iff in Estop. destruct Estop as [Hs _].
      apply negb_false_iff in Hs.
      split; [simpl; lia|]. split; [|split; [|split]].
      * destruct (fst (chain_loop (Dict.set tool_name (snd outcome) tools) rest req
                         (dict_update chain_ctx (data (fst outcome))) timing (S k)))
          eqn:El; simpl; [constructor|].
        constructor; [exact Hs | exact Hall].
      * rewrite Hkeys. now apply keys_set_present.
      * intros n. now rewrite Hc, Hcls.
      * rewrite Hsum, Htot. simpl List.length. lia.
Qed.

(** X16.  [execute_chain] changes metrics only: the registered names and
    their order, the class of every tool, the version history and the chain
    definitions are as before, and the executions counted by the registry's
    tools grow by exactly the number of results returned. *)
Theorem execute_chain_touches_metrics_only :
  forall (self : ToolRegistry) (req : ChainRequest) (timing : nat -> Q * string),
    let results := fst (execute_chain self req timing) in
    let self' := snd (execute_chain self req timing) in
    Dict.keys (_tools self') = Dict.keys (_tools self) /\
    (forall n, option_map cls (Dict.get n (_tools self'))
               = option_map cls (Dict.get n (_tools self))) /\
    _version_history self' = _version_history self /\
    _chain_definitions self' = _chain_definitions self /\
    total_calls (_tools self')
    = (total_calls (_tools self) + Z.of_nat (List.length results))%Z.
Proof.
  intros self req timing results self'. unfold results, self', execute_chain.
  destruct (Dict.get (default (chain_intent req) "") (_chain_definitions self))
    as [chain|].
  - cbn [fst snd _tools _version_history _chain_definitions].
    destruct (chain_loop_spec chain req timing (_tools self) [] 0%nat)
      as [_ [_ [H3 [H4 H5]]]]. auto.
  - simpl. repeat split; auto. lia.
Qed.

(** The chain test of the repository: one tool, one result. *)
Example execute_chain_test :
  map success
    (fst (execute_chain
            (define_chain mock_registry "test_intent" [("mock_tool", 5 # 10)])
            {| chain_intent := Some "test_intent"; chain_confidence := Some (9 # 10);
               chain_entities := Some (JDict []); chain_metadata := None;
               chain_params := Some (JDict [("param1", JStr "test")]) |}
            (fun _ => (1, "t"))))
  = [true].
Proof. reflexivity. Qed.

End ToolFacts.


(* ================================================================== *)
(** * More about the session store [src/context/context_manager.py] *)

Module SessionFacts.
Import Context.

Lemma del_absent {V : Type} (k : string) (d : Dict.t V) :
  Dict.get k d = None -> Dict.del k d = d.
Proof.
  induction d as [|[k0 v0] d IH]; simpl; auto.
  destruct (String.eqb k k0); [discriminate|]. intros H. now rewrite IH.
Qed.



(** X18.  After [set_context], the session reads back the value under the
    key and the write time under "_timestamp"; its other keys and all other
    sessions read as before.  The key "_timestamp" itself cannot be set: the
    write time replaces whatever was given. *)
Theorem set_context_get_context :
  forall (self : ContextManager) (sid key : string) (value : json) (created now : Q),
    let self' := set_context self sid key value created now in
    (key <> "_timestamp" -> Dict.get key (get_context self' sid) = Some value) /\
    Dict.get "_timestamp" (get_context self' sid) = Some (JNum now) /\
    (forall k, k <> key -> k <> "_timestamp" ->
               Dict.get k (get_context self' sid) = Dict.get k (get_context self sid)) /\
    (forall other, other <> sid -> get_context self' other = get_context self other).
Proof.
  intros self sid key value created now self'.
  unfold self', set_context, get_context. rewrite store_emit. simpl.
  unfold session_of at 1 3 5. rewrite get_set_eq.
  split; [|split; [|split]].
  - intros Hk. rewrite get_set_neq by congruence. apply get_set_eq.
  - apply get_set_eq.
  - intros k Hk Ht. rewrite !get_set_neq by congruence.
    apply (get_ensured_session self sid created k Ht).
  - intros other Ho. unfold session_of. rewrite get_set_neq by congruence.
    unfold ensure_session. destruct (Dict.mem sid (_context_store self)); auto.
    rewrite get_set_neq by congruence. reflexivity.
Qed.

(** X19.  After [delete_context] the session reads as empty and the other
    sessions read as before; deleting an unknown session leaves the store
    as it is. *)
Theorem delete_context_get_context :
  forall (self : ContextManager) (sid : string),
    NoDup (Dict.keys (_context_store self)) ->
    let self' := delete_context self sid in
    get_context self' sid = [] /\
    (forall other, other <> sid -> get_context self' other = get_context self other) /\
    (Dict.mem sid (_context_store self) = false ->
     _context_store self' = _context_store self).
Proof.
  intros self sid ND self'. unfold self', delete_context, get_context.
  rewrite store_emit. simpl. unfold session_of. split; [|split].
  - now rewrite get_del_eq.
  - intros other Ho. now rewrite get_del_neq.
  - intros H. apply del_absent. unfold Dict.mem in H.
    destruct (Dict.get sid (_context_store self)); [discriminate | reflexivity].
Qed.

Lemma delete_context_get_context_witness :
  get_context (delete_context (stale_manager true) "old") "old" = [] /\
  (forall other, other <> "old" ->
     get_context (delete_context (stale_manager true) "old") other
     = get_context (stale_manager true) other) /\
  (Dict.mem "old" (_context_store (stale_manager true)) = false ->
   _context_store (delete_context (stale_manager true) "old")
   = _context_store (stale_manager true)).
Proof.
  apply (delete_context_get_context (stale_manager true) "old").
  repeat constructor; simpl; intuition discriminate.
Defined.

(** ** Stores built with [create_session], [set_context] and
    [delete_context] *)

Inductive operation : Type :=
| Create (sid : string) (now : Q)
| SetKey (sid key : string) (value : json) (created now : Q)
| Delete (sid : string)
| AddListener (callback : string)
| Sweep (now : Q).

(** One call.  A sweep whose comprehension raises ends the worker and
    leaves the manager as it was. *)
Definition step (self : ContextManager) (op : operation) : ContextManager :=
  match op with
  | Create sid now => create_session self sid now
  | SetKey sid key value created now => set_context self sid key value created now
  | Delete sid => delete_context self sid
  | AddListener callback => add_event_listener self callback
  | Sweep now =>
      match gc_sweep self now with
      | Some self' => self'
      | None => self
      end
  end.

Definition run (ops : list operation) (self : ContextManager) : ContextManager :=
  fold_left step ops self.


Definition sound (store : Dict.t (Dict.t json)) : Prop :=
  NoDup (Dict.keys store) /\ timestamped store.

Lemma sound_ensure store sid now : sound store -> sound (ensure_session store sid now).
Proof.
  intros [ND T]. split; [|now apply timestamped_ensure].
  unfold ensure_session. destruct (Dict.mem sid store); auto.
  now apply NoDup_keys_set.
Qed.

Lemma sound_write store sid context now :
  sound store ->
  sound (Dict.set sid (Dict.set "_timestamp" (JNum now) context) store).
Proof.
  intros [ND T]. split; [now apply NoDup_keys_set | now apply timestamped_write].
Qed.

Lemma sound_del store sid : sound store -> sound (Dict.del sid store).
Proof.
  intros [ND T]. split; [now apply NoDup_keys_del|].
  intros s c Hin. apply in_del_inv in Hin. eauto.
Qed.

Lemma sound_collect expired : forall self,
  sound (_context_store self) -> sound (_context_store (collect self expired)).
Proof.
  induction expired as [|sid rest IH]; intros self H; simpl; auto.
  apply IH. rewrite store_emit. simpl. now apply sound_del.
Qed.

Lemma sound_step self op : sound (_context_store self) -> sound (_context_store (step self op)).
Proof.
  intros H. destruct op; simpl.
  - unfold create_session. rewrite store_emit. simpl. now apply sound_ensure.
  - unfold set_context. rewrite store_emit. simpl.
    apply sound_write. now apply sound_ensure.
  - unfold delete_context. rewrite store_emit. simpl. now apply sound_del.
  - exact H.
  - unfold gc_sweep.
    destruct (expired_sessions (session_expiration self) now (_context_store self));
      [now apply sound_collect | exact H].
Qed.


Lemma sound_sweeps self now :
  sound (_context_store self) ->
  exists expired,
    expired_sessions (session_expiration self) now (_context_store self) = Some expired.
Proof.
  intros [_ T]. apply expired_sessions_total. now apply timestamped_age.
Qed.


(** X21.  A sweep leaves nothing for a second sweep at the same instant:
    run again on its own result, it deletes no session and notifies
    nobody. *)
Theorem gc_sweep_twice :
  forall (self self' : ContextManager) (now : Q),
    NoDup (Dict.keys (_context_store self)) ->
    gc_sweep self now = Some self' ->
    gc_sweep self' now = Some self'.
Proof.
  intros self self' now ND H. unfold gc_sweep in *.
  destruct (expired_sessions (session_expiration self) now (_context_store self))
    as [l|] eqn:El; [|discriminate].
  injection H as <-.
  destruct (collect_config self l) as [-> _].
  assert (ND' : NoDup (Dict.keys (_context_store (collect self l)))).
  { clear El. revert self ND. induction l as [|x l IH]; intros self ND; simpl; auto.
    apply IH. rewrite store_emit. simpl. now apply NoDup_keys_del. }
  assert (Hsub : forall sid c, In (sid, c) (_context_store (collect self l)) ->
                               In (sid, c) (_context_store self)).
  { clear El ND ND'. revert self. induction l as [|x l IH]; intros self sid c Hin;
      simpl in *; auto.
    apply IH in Hin. rewrite store_emit in Hin. simpl in Hin.
    now apply in_del_inv in Hin. }
  assert (Hages : forall sid c, In (sid, c) (_context_store self) -> age now c <> None).
  { intros sid c Hin. clear ND ND' Hsub. revert l El.
    induction (_context_store self) as [|[s0 c0] store IH]; intros l El;
      simpl in *; [contradiction|].
    destruct (age now c0) eqn:Ea; [|discriminate].
    destruct (expired_sessions (session_expiration self) now store) eqn:Ee;
      [|discriminate].
    destruct Hin as [[= <- <-] | Hin]; [congruence | eauto]. }
  destruct (expired_sessions_total (session_expiration self) now
              (_context_store (collect self l))) as [l' Hl'].
  { intros sid c Hin. eapply Hages. eauto. }
  rewrite Hl'. destruct l' as [|sid l']; [reflexivity|]. exfalso.
  assert (Hin : In sid (sid :: l')) by now left.
  apply (expired_sessions_In _ _ _ _ Hl') in Hin.
  destruct Hin as [c [a [Hc [Ha Hlt]]]].
  assert (Hold : In sid l).
  { apply (expired_sessions_In _ _ _ _ El). exists c, a. eauto. }
  pose proof (collect_get self l sid ND) as Hg.
  destruct (in_dec string_dec sid l) as [_ | Hn]; [|contradiction].
  rewrite (In_get _ _ _ ND' Hc) in Hg. discriminate.
Qed.

Lemma gc_sweep_twice_witness :
  exists self',
    gc_sweep (stale_manager true) 4000 = Some self' /\
    gc_sweep self' 4000 = Some self'.
Proof.
  eexists. split; [reflexivity|].
  eapply (gc_sweep_twice (stale_manager true) _ 4000).
  - repeat constructor; simpl; intuition discriminate.
  - reflexivity.
Defined.

(** X22.  A value written with [set_context] is still read after a sweep
    that runs no later than the TTL after the write. *)
Theorem written_value_survives_sweep :
  forall (self : ContextManager) (sid key : string) (value : json)
         (created now later : Q),
    NoDup (Dict.keys (_context_store self)) ->
    (forall s c, In (s, c) (_context_store self) ->
       exists t, Dict.get "_timestamp" c = Some (JNum t)) ->
    key <> "_timestamp" ->
    later - now <= session_expiration self ->
    exists self',
      gc_sweep (set_context self sid key value created now) later = Some self' /\
      Dict.get key (get_context self' sid) = Some value.
Proof.
  intros self sid key value created now later ND T Hk Hle.
  set (written := set_context self sid key value created now).
  assert (Hs : sound (_context_store written)).
  { apply (sound_step self (SetKey sid key value created now)). now split. }
  destruct (sound_sweeps written later Hs) as [l Hl].
  exists (collect written l). unfold gc_sweep. rewrite Hl. split; [reflexivity|].
  destruct Hs as [ND' T'].
  assert (Hctx : exists c, Dict.get sid (_context_store written) = Some c /\
                           Dict.get key c = Some value /\
                           Dict.get "_timestamp" c = Some (JNum now)).
  { unfold written, set_context. rewrite store_emit. simpl. rewrite get_set_eq.
    eexists. split; [reflexivity|]. split.
    - rewrite get_set_neq by congruence. apply get_set_eq.
    - apply get_set_eq. }
  destruct Hctx as [c [Hc [Hv Hts]]].
  assert (Hexp : session_expiration written = session_expiration self).
  { unfold written, set_context, _emit_event, with_store. simpl.
    destruct (event_emission_enabled self); reflexivity. }
  assert (Hnot : ~ In sid l).
  { intros Hin. apply (expired_sessions_In _ _ _ _ Hl) in Hin.
    destruct Hin as [c' [a [Hc' [Ha Hlt]]]].
    apply (In_get _ _ _ ND') in Hc'. rewrite Hc in Hc'. injection Hc' as <-.
    unfold age in Ha. rewrite Hts in Ha. simpl in Ha. injection Ha as <-.
    rewrite Hexp in Hlt. exact (Qlt_not_le _ _ Hlt Hle). }
  pose proof (collect_get written l sid ND') as Hg.
  destruct (in_dec string_dec sid l) as [Hin | _]; [contradiction|].
  unfold get_context, session_of. rewrite Hg, Hc. exact Hv.
Qed.

Lemma written_value_survives_sweep_witness :
  exists self',
    gc_sweep (set_context (stale_manager true) "new" "user" (JStr "ada") 4000 4000) 5000
      = Some self' /\
    Dict.get "user" (get_context self' "new") = Some (JStr "ada").
Proof.
  apply (written_value_survives_sweep (stale_manager true) "new" "user" (JStr "ada")
           4000 4000 5000).
  - repeat constructor; simpl; intuition discriminate.
  - intros s c [H | [H | []]]; inversion H; subst; eexists; reflexivity.
  - discriminate.
  - unfold Qle. simpl. lia.
Defined.

(** ** More about the deep merge *)

(** Dicts with pairwise distinct keys, at every level of nesting (what is
    inside a list is never merged and does not matter). *)
Fixpoint distinct_keys (v : json) : Prop :=
  match v with
  | JDict d =>
      NoDup (Dict.keys d) /\
      (fix all (d : list (string * json)) : Prop :=
         match d with
         | [] => True
         | (_, x) :: rest => distinct_keys x /\ all rest
         end) d
  | _ => True
  end.

Lemma distinct_keys_dict d :
  distinct_keys (JDict d) <->
  NoDup (Dict.keys d) /\ forall k v, In (k, v) d -> distinct_keys v.
Proof.
  simpl. split; intros [ND H]; (split; [exact ND|]).
  - induction d as [|[k0 v0] d IH]; intros k v Hin; [contradiction|].
    destruct H as [H0 H]. inversion ND; subst.
    destruct Hin as [[= <- <-] | Hin]; eauto.
  - induction d as [|[k0 v0] d IH]; [exact I|].
    inversion ND; subst. split.
    + apply (H k0). now left.
    + apply IH; auto. intros k v Hin. apply (H k). now right.
Qed.

(** Writing the value a key already has changes nothing. *)
Lemma set_same_value {V : Type} (k : string) (v : V) (d : Dict.t V) :
  Dict.get k d = Some v -> Dict.set k v d = d.
Proof.
  induction d as [|[k0 v0] d IH]; simpl; [discriminate|].
  destruct (String.eqb k k0) eqn:E.
  - apply String.eqb_eq in E. subst. now intros [= ->].
  - intros H. now rewrite IH.
Qed.

(** A dict that already holds what an update would write is left as it is. *)
Lemma recursive_update_absorbed updates : forall original,
  (forall k v, In (k, v) updates ->
     exists have, Dict.get k original = Some have /\ merged (Some have) v = have) ->
  recursive_update original updates = original.
Proof.
  induction updates as [|[k v] updates IH]; intros original H; simpl; auto.
  destruct (H k v (or_introl eq_refl)) as [have [Hg Hm]].
  rewrite update_value_merged, Hg, Hm, (set_same_value _ _ _ Hg).
  apply IH. intros k' v' Hin. apply H. now right.
Qed.

Lemma merged_twice : forall v,
  distinct_keys v ->
  (forall old, merged (Some (merged old v)) v = merged old v) /\
  merged (Some v) v = v.
Proof.
  fix IH 1. intros v.
  destruct v as [| b | q | s | l | d]; try (intros _; split; [intros old|]; reflexivity).
  intros Hwf. apply distinct_keys_dict in Hwf. destruct Hwf as [ND Hvals].
  assert (Hall : forall k x, In (k, x) d ->
            (forall old, merged (Some (merged old x)) x = merged old x) /\
            merged (Some x) x = x).
  { clear ND. induction d as [|[k0 x0] d IHd]; intros k x Hin; [contradiction|].
    destruct Hin as [[= <- <-] | Hin].
    - apply IH. apply (Hvals k0). now left.
    - apply (IHd (fun k' v' H' => Hvals k' v' (or_intror H')) k x Hin). }
  clear IH.
  assert (Hself : recursive_update d d = d).
  { apply recursive_update_absorbed. intros k x Hin. exists x. split.
    - now apply In_get.
    - apply (Hall k x Hin). }
  split.
  - intros old. destruct old as [[| | | | |od]|]; simpl; try now rewrite Hself.
    f_equal. apply recursive_update_absorbed. intros k x Hin.
    exists (merged (Dict.get k od) x). split.
    + rewrite (recursive_update_get d od k ND). now rewrite (In_get _ _ _ ND Hin).
    + apply (Hall k x Hin).
  - simpl. now rewrite Hself.
Qed.

Lemma keys_set_cases {V : Type} (k : string) (v : V) (d : Dict.t V) :
  Dict.keys (Dict.set k v d)
  = if Dict.mem k d then Dict.keys d else Dict.keys d ++ [k].
Proof.
  unfold Dict.mem. induction d as [|[k0 v0] d IH]; simpl; auto.
  destruct (String.eqb k k0) eqn:E; simpl; auto.
  rewrite IH. destruct (Dict.get k d); reflexivity.
Qed.

(** X23.  [recursive_update] never removes or moves a key: the keys of the
    original stay where they are, and the keys that only the update has
    follow them. *)
Theorem recursive_update_keeps_keys :
  forall (updates original : Dict.t json),
    exists added,
      Dict.keys (recursive_update original updates) = Dict.keys original ++ added /\
      forall k, In k added <->
                In k (Dict.keys updates) /\ ~ In k (Dict.keys original).
Proof.
  induction updates as [|[k v] updates IH]; intros original; simpl.
  - exists []. rewrite app_nil_r. split; [reflexivity|]. intros k. simpl. tauto.
  - destruct (IH (Dict.set k (update_value (Dict.get k original) v) original))
      as [added [Hk Hin]].
    rewrite keys_set_cases in Hk.
    assert (Hiff : forall x, In x (Dict.keys (Dict.set k (update_value
                                    (Dict.get k original) v) original))
                             <-> x = k \/ In x (Dict.keys original))
      by (intros; apply keys_set_In).
    destruct (Dict.mem k original) eqn:Em.
    + exists added. split; [exact Hk|]. intros x. rewrite Hin, Hiff.
      assert (Hko : In k (Dict.keys original)).
      { unfold Dict.mem in Em. destruct (Dict.get k original) eqn:Eg; [|discriminate].
        apply get_In in Eg. change k with (fst (k, j)). now apply in_map. }
      split.
      * intros [H1 H2]. split; [now right | tauto].
      * intros [[<- | H1] H2]; [tauto|]. split; [exact H1|]. intros [-> | H3]; tauto.
    + exists (k :: added). split; [now rewrite Hk, <- app_assoc|].
      assert (Hko : ~ In k (Dict.keys original)).
      { apply get_None_notin. unfold Dict.mem in Em.
        destruct (Dict.get k original); [discriminate | reflexivity]. }
      intros x. simpl. rewrite Hin, Hiff. split.
      * intros [<- | [H1 H2]]; [tauto|]. split; [now right | tauto].
      * intros [[<- | H1] H2]; [now left|].
        destruct (string_dec k x) as [-> | Hne]; [now left|].
        right. split; [exact H1|]. intros [-> | H3]; tauto.
Qed.

(** X24.  For an update whose dicts have pairwise distinct keys at every
    level, applying it a second time changes nothing, and applying it to an
    empty dict stores the update as it is. *)
Theorem recursive_update_is_idempotent :
  forall (updates original : Dict.t json),
    distinct_keys (JDict updates) ->
    recursive_update (recursive_update original updates) updates
    = recursive_update original updates /\
    recursive_update [] updates = updates.
Proof.
  intros updates original Hwf.
  destruct (merged_twice (JDict updates) Hwf) as [Hidem Hself].
  split.
  - specialize (Hidem (Some (JDict original))). simpl in Hidem. now injection Hidem.
  - apply distinct_keys_dict in Hwf. destruct Hwf as [ND _].
    assert (G : forall u acc,
              NoDup (Dict.keys acc ++ Dict.keys u) ->
              recursive_update acc u = acc ++ u).
    { induction u as [|[k v] u IHu]; intros acc Hnd; simpl.
      - now rewrite app_nil_r.
      - simpl in Hnd.
        assert (Hk : ~ In k (Dict.keys acc)).
        { apply NoDup_remove_2 in Hnd. intro H. apply Hnd. apply in_or_app. now left. }
        rewrite update_value_merged.
        assert (Hg : Dict.get k acc = None) by now apply get_None_notin.
        rewrite Hg. replace (merged None v) with v by (destruct v; reflexivity).
        rewrite set_fresh by exact Hk. rewrite IHu.
        + now rewrite <- app_assoc.
        + rewrite keys_app. simpl. now rewrite <- app_assoc. }
    apply (G updates []). exact ND.
Qed.

Lemma recursive_update_is_idempotent_witness :
  recursive_update
    (recursive_update [("a", JDict [("x", JNum 1)])]
       [("a", JDict [("y", JNum 2)]); ("b", JNum 3)])
    [("a", JDict [("y", JNum 2)]); ("b", JNum 3)]
  = recursive_update [("a", JDict [("x", JNum 1)])]
      [("a", JDict [("y", JNum 2)]); ("b", JNum 3)] /\
  recursive_update [] [("a", JDict [("y", JNum 2)]); ("b", JNum 3)]
  = [("a", JDict [("y", JNum 2)]); ("b", JNum 3)].
Proof.
  apply (recursive_update_is_idempotent
           [("a", JDict [("y", JNum 2)]); ("b", JNum 3)]
           [("a", JDict [("x", JNum 1)])]).
  simpl. repeat split; repeat constructor; simpl; intuition discriminate.
Defined.

End SessionFacts.

From Stdlib Require Import Permutation Sorted.

(* ================================================================== *)
(** * The performance ledger [src/tools/discovery.py] *)

Module LedgerFacts.
Import Discovery.

(** The recorded executions of one tool, and those for one intent. *)
Definition calls_of (name : string) (calls : list Execution) : list Execution :=
  filter (fun c => String.eqb (exec_tool c) name) calls.

Definition with_intent (i : string) (calls : list Execution) : list Execution :=
  filter (fun c => String.eqb (intent_of (exec_context c)) i) calls.

Definition successes (calls : list Execution) : list Execution :=
  filter exec_success calls.

Definition count_of (calls : list Execution) : Z := Z.of_nat (List.length calls).

Definition sum_times (calls : list Execution) : Q :=
  fold_right (fun c acc => exec_time c + acc) 0 calls.

(** The entry of a tool says exactly what was recorded for it. *)
Definition tracks (stats : ToolStats) (mine : list Execution) : Prop :=
  mine <> [] /\
  total_executions stats = count_of mine /\
  success_count stats = count_of (successes mine) /\
  avg_execution_time stats * inject_Z (count_of mine) == sum_times mine /\
  forall i,
    Dict.get i (intent_patterns stats)
    = match with_intent i mine with
      | [] => None
      | l => Some {| count := count_of l;
                     intent_success_count := count_of (successes l) |}
      end.

(** The entry that one more recorded execution leaves. *)
Definition updated_stats (tool_stats : ToolStats) (c : Execution) : ToolStats :=
  let total := (total_executions tool_stats + 1)%Z in
  let intent_ := intent_of (exec_context c) in
  let stats :=
    match Dict.get intent_ (intent_patterns tool_stats) with
    | Some s => s
    | None => {| count := 0; intent_success_count := 0 |}
    end in
  {| success_count := if exec_success c then success_count tool_stats + 1
                      else success_count tool_stats;
     total_executions := total;
     avg_execution_time :=
       (avg_execution_time tool_stats * inject_Z (total - 1) + exec_time c)
       / inject_Z total;
     intent_patterns :=
       Dict.set intent_
         {| count := count stats + 1;
            intent_success_count :=
              if exec_success c then intent_success_count stats + 1
              else intent_success_count stats |}
         (intent_patterns tool_stats) |}.

Lemma record_history self c :
  let tool_stats :=
    match Dict.get (exec_tool c) (performance_history self) with
    | Some stats => stats
    | None => new_tool_stats
    end in
  (total_executions tool_stats + 1 <> 0)%Z ->
  performance_history
    (record_tool_execution self (exec_tool c) (exec_context c) (exec_success c)
       (exec_time c) (exec_at c))
  = Dict.set (exec_tool c) (updated_stats tool_stats c) (performance_history self).
Proof.
  intros tool_stats Hnz. unfold record_tool_execution. fold tool_stats.
  destruct (Z.eqb_spec (total_executions tool_stats + 1) 0) as [E | _]; [contradiction|].
  unfold updated_stats.
  destruct (exec_success c); [|reflexivity].
  unfold _learn_tool_pattern. simpl. destruct (existsb _ _); reflexivity.
Qed.

Lemma sum_times_app l c : sum_times (l ++ [c]) == sum_times l + exec_time c.
Proof.
  induction l as [|x l IH]; simpl.
  - lra.
  - rewrite IH. lra.
Qed.

Lemma count_of_app l c : count_of (l ++ [c]) = (count_of l + 1)%Z.
Proof. unfold count_of. rewrite length_app. simpl. lia. Qed.

Lemma successes_app l c :
  successes (l ++ [c]) = successes l ++ (if exec_success c then [c] else []).
Proof. unfold successes. rewrite filter_app. simpl. now destruct (exec_success c). Qed.

Lemma with_intent_app i l c :
  with_intent i (l ++ [c])
  = with_intent i l ++ (if String.eqb (intent_of (exec_context c)) i then [c] else []).
Proof.
  unfold with_intent. rewrite filter_app. simpl.
  now destruct (String.eqb (intent_of (exec_context c)) i).
Qed.

Lemma count_successes_app l c :
  count_of (successes (l ++ [c]))
  = (if exec_success c then count_of (successes l) + 1 else count_of (successes l))%Z.
Proof.
  rewrite successes_app. destruct (exec_success c).
  - apply count_of_app.
  - now rewrite app_nil_r.
Qed.

Lemma updated_stats_tracks tool_stats mine c :
  (mine = [] /\ tool_stats = new_tool_stats) \/ tracks tool_stats mine ->
  tracks (updated_stats tool_stats c) (mine ++ [c]).
Proof.
  intros H.
  assert (Hpre : total_executions tool_stats = count_of mine /\
                 success_count tool_stats = count_of (successes mine) /\
                 avg_execution_time tool_stats * inject_Z (count_of mine)
                 == sum_times mine /\
                 forall i,
                   Dict.get i (intent_patterns tool_stats)
                   = match with_intent i mine with
                     | [] => None
                     | l => Some {| count := count_of l;
                                    intent_success_count := count_of (successes l) |}
                     end).
  { destruct H as [[-> ->] | [_ H]]; [|exact H].
    repeat split; try reflexivity. }
  clear H. destruct Hpre as [Ht [Hs [Ha Hi]]].
  unfold tracks, updated_stats. cbn [total_executions success_count
                                   avg_execution_time intent_patterns].
  split; [destruct mine; discriminate|].
  split; [rewrite count_of_app; lia|].
  split; [rewrite count_successes_app, Hs; reflexivity|].
  split.
  - rewrite count_of_app, sum_times_app, Ht.
    replace (count_of mine + 1 - 1)%Z with (count_of mine) by lia.
    assert (Hnz : ~ inject_Z (count_of mine + 1) == 0).
    { intro E. unfold Qeq in E. simpl in E. unfold count_of in E. lia. }
    rewrite Ha, Qmult_comm. now apply Qmult_div_r.
  - intros i. rewrite with_intent_app.
    destruct (String.eqb (intent_of (exec_context c)) i) eqn:Ei.
    + apply String.eqb_eq in Ei. subst i. rewrite get_set_eq, Hi.
      destruct (with_intent (intent_of (exec_context c)) mine) as [|x l] eqn:Ew.
      * simpl. destruct (exec_success c); reflexivity.
      * cbn [count intent_success_count].
        change ((x :: l) ++ [c]) with (x :: (l ++ [c])).
        rewrite <- (count_of_app (x :: l) c).
        rewrite <- (count_successes_app (x :: l) c). reflexivity.
    + apply String.eqb_neq in Ei. rewrite get_set_neq by exact Ei.
      rewrite Hi, app_nil_r. reflexivity.
Qed.

(** The ledger after any sequence of recorded executions. *)
Lemma ledger_tracks now calls :
  forall name,
    match Dict.get name (performance_history (record_all (ToolDiscovery_init now) calls))
    with
    | Some stats => tracks stats (calls_of name calls)
    | None => calls_of name calls = []
    end.
Proof.
  induction calls as [|c calls IH] using rev_ind; intros name.
  - reflexivity.
  - unfold record_all in *. rewrite fold_left_app. simpl.
    set (d := fold_left
                (fun d c => record_tool_execution d (exec_tool c) (exec_context c)
                              (exec_success c) (exec_time c) (exec_at c))
                calls (ToolDiscovery_init now)) in *.
    pose proof (IH (exec_tool c)) as Hc.
    assert (Hnz : (total_executions
                     match Dict.get (exec_tool c) (performance_history d) with
                     | Some stats => stats
                     | None => new_tool_stats
                     end + 1 <> 0)%Z).
    { destruct (Dict.get (exec_tool c) (performance_history d)) as [stats|].
      - destruct Hc as [_ [-> _]]. unfold count_of. lia.
      - simpl. lia. }
    rewrite (record_history d c Hnz).
    unfold calls_of. rewrite filter_app. simpl.
    destruct (String.eqb (exec_tool c) name) eqn:En.
    + apply String.eqb_eq in En. subst name. rewrite get_set_eq.
      apply updated_stats_tracks.
      destruct (Dict.get (exec_tool c) (performance_history d)); [now right | now left].
    + apply String.eqb_neq in En. rewrite get_set_neq by exact En.
      rewrite app_nil_r. apply IH.
Qed.

(** X25.  On a ledger that starts empty, a tool has an entry exactly when
    an execution was recorded for it.  Its entry then counts what was
    recorded: [total_executions] the executions of the tool,
    [success_count] the successful ones, and for every intent the
    executions and the successes with that intent (no entry for an intent
    never seen). *)
Theorem ledger_counts_what_was_recorded :
  forall (now : string) (calls : list Execution) (name : string),
    match Dict.get name (performance_history (record_all (ToolDiscovery_init now) calls))
    with
    | None => calls_of name calls = []
    | Some stats =>
        calls_of name calls <> [] /\
        total_executions stats = count_of (calls_of name calls) /\
        success_count stats = count_of (successes (calls_of name calls)) /\
        forall i,
          Dict.get i (intent_patterns stats)
          = match with_intent i (calls_of name calls) with
            | [] => None
            | l => Some {| count := count_of l;
                           intent_success_count := count_of (successes l) |}
            end
    end.
Proof.
  intros now calls name. pose proof (ledger_tracks now calls name) as H.
  destruct (Dict.get name (performance_history
                             (record_all (ToolDiscovery_init now) calls))); [|exact H].
  destruct H as [H1 [H2 [H3 [_ H5]]]]. auto.
Qed.




(** ** Chain suggestions *)

(** The list [relevant_tools] of [suggest_tool_chain]: the tools with a
    positive count for the intent, with their success rate, in ledger
    order. *)
Definition relevant_tools (self : ToolDiscovery) (intent_ : string)
    : list (string * Q) :=
  flat_map
    (fun kv =>
       match Dict.get intent_ (intent_patterns (snd kv)) with
       | Some pattern_stats =>
           if (0 <? count pattern_stats)%Z
           then [(fst kv,
                  inject_Z (intent_success_count pattern_stats)
                  / inject_Z (count pattern_stats))]
           else []
       | None => []
       end)
    (performance_history self).

(** [list.sort(key=lambda x: x[1], reverse=True)].  The sort is stable, with
    [reverse=True] too, so its result is determined by the keys: the rates
    in non-increasing order, equal rates in their original order. *)
Fixpoint insert_by_rate (x : string * Q) (l : list (string * Q)) : list (string * Q) :=
  match l with
  | [] => [x]
  | y :: rest =>
      if Qgtb (snd y) (snd x) then y :: insert_by_rate x rest else x :: y :: rest
  end.

Definition sort_by_rate (l : list (string * Q)) : list (string * Q) :=
  fold_right insert_by_rate [] l.

(** [suggest_tool_chain] *)
Definition suggest_tool_chain (self : ToolDiscovery) (intent_ : string) : list string :=
  map fst (firstn 3 (sort_by_rate (relevant_tools self intent_))).


Lemma insert_by_rate_perm x l : Permutation (insert_by_rate x l) (x :: l).
Proof.
  induction l as [|y l IH]; simpl; auto.
  destruct (Qgtb (snd y) (snd x)); auto.
  rewrite IH. apply perm_swap.
Qed.

Lemma sort_by_rate_perm l : Permutation (sort_by_rate l) l.
Proof.
  induction l as [|x l IH]; simpl; auto.
  rewrite insert_by_rate_perm. now constructor.
Qed.



Lemma firstn_subset {A : Type} (n : nat) (l : list A) (x : A) :
  In x (firstn n l) -> In x l.
Proof.
  intros H. rewrite <- (firstn_skipn n l). apply in_or_app. now left.
Qed.

Lemma suggested_in_ledger self intent_ name :
  In name (suggest_tool_chain self intent_) ->
  exists stats pattern_stats,
    In (name, stats) (performance_history self) /\
    Dict.get intent_ (intent_patterns stats) = Some pattern_stats /\
    (0 < count pattern_stats)%Z.
Proof.
  unfold suggest_tool_chain. intros Hin.
  apply in_map_iff in Hin. destruct Hin as [[n r] [Hn Hin]].
  simpl in Hn. subst n. apply firstn_subset in Hin.
  apply (Permutation_in _ (sort_by_rate_perm _)) in Hin.
  unfold relevant_tools in Hin. apply in_flat_map in Hin.
  destruct Hin as [[k stats] [Hk Hin]]. simpl in Hin.
  destruct (Dict.get intent_ (intent_patterns stats)) as [ps|] eqn:Eg; [|contradiction].
  destruct (Z.ltb_spec 0 (count ps)) as [Hpos|]; [|contradiction].
  destruct Hin as [[= <- _] | []]. eauto.
Qed.


(** The ledger's tool names stay pairwise distinct. *)
Lemma record_keeps_names_distinct self name context success t now :
  NoDup (Dict.keys (performance_history self)) ->
  NoDup (Dict.keys (performance_history
                      (record_tool_execution self name context success t now))).
Proof.
  intros ND. unfold record_tool_execution.
  destruct (_ =? 0)%Z; simpl; [now apply NoDup_keys_set|].
  destruct success; [|simpl; now apply NoDup_keys_set].
  unfold _learn_tool_pattern. simpl.
  destruct (existsb _ _); simpl; now apply NoDup_keys_set.
Qed.

Lemma ledger_names_distinct now calls :
  NoDup (Dict.keys (performance_history (record_all (ToolDiscovery_init now) calls))).
Proof.
  unfold record_all.
  assert (H : forall d, NoDup (Dict.keys (performance_history d)) ->
            NoDup (Dict.keys (performance_history
                     (fold_left
                        (fun d c => record_tool_execution d (exec_tool c)
                                      (exec_context c) (exec_success c)
                                      (exec_time c) (exec_at c))
                        calls d)))).
  { induction calls as [|c calls IH]; intros d Hd; simpl; auto.
    apply IH. now apply record_keeps_names_distinct. }
  apply H. constructor.
Qed.

(** An execution of the tool for the intent is on record. *)
Definition recorded_for (calls : list Execution) (name intent_ : string) : Prop :=
  exists c, In c calls /\ exec_tool c = name /\ intent_of (exec_context c) = intent_.

Lemma recorded_for_with_intent calls name intent_ :
  recorded_for calls name intent_ <-> with_intent intent_ (calls_of name calls) <> [].
Proof.
  unfold recorded_for, with_intent, calls_of. split.
  - intros [c [Hin [Hn Hi]]] E.
    assert (H : In c (filter (fun c => String.eqb (intent_of (exec_context c)) intent_)
                        (filter (fun c => String.eqb (exec_tool c) name) calls))).
    { apply filter_In. split; [apply filter_In; split; auto|].
      - now apply String.eqb_eq.
      - now apply String.eqb_eq. }
    rewrite E in H. contradiction.
  - intros H.
    destruct (filter (fun c => String.eqb (intent_of (exec_context c)) intent_)
                (filter (fun c => String.eqb (exec_tool c) name) calls))
      as [|c l] eqn:E; [congruence|].
    assert (Hc : In c (c :: l)) by now left.
    rewrite <- E in Hc. apply filter_In in Hc. destruct Hc as [Hc Hi].
    apply filter_In in Hc. destruct Hc as [Hc Hn].
    exists c. repeat split; auto; now apply String.eqb_eq.
Qed.

(** X28.  On a ledger that starts empty, only tools with a recorded
    execution for the intent are suggested; and when at most three tools
    have one, every such tool is suggested. *)
Theorem suggestions_follow_the_records :
  forall (now : string) (calls : list Execution) (intent_ name : string),
    let self := record_all (ToolDiscovery_init now) calls in
    (In name (suggest_tool_chain self intent_) -> recorded_for calls name intent_) /\
    ((List.length (relevant_tools self intent_) <= 3)%nat ->
     recorded_for calls name intent_ ->
     In name (suggest_tool_chain self intent_)).
Proof.
  intros now calls intent_ name self.
  set (ledger := performance_history self).
  pose proof (ledger_tracks now calls name) as Ht.
  change (performance_history _) with ledger in Ht.
  split.
  - intros Hin. apply suggested_in_ledger in Hin.
    destruct Hin as [stats [ps [Hl [Hg Hpos]]]].
    fold ledger in Hl.
    apply (In_get _ _ _ (ledger_names_distinct now calls)) in Hl.
    fold self ledger in Hl. rewrite Hl in Ht. destruct Ht as [_ [_ [_ [_ Hi]]]].
    apply recorded_for_with_intent. intros E.
    rewrite (Hi intent_), E in Hg. discriminate.
  - intros Hlen Hrec. apply recorded_for_with_intent in Hrec.
    destruct (Dict.get name ledger) as [stats|] eqn:Eg.
    + destruct Ht as [_ [_ [_ [_ Hi]]]]. specialize (Hi intent_).
      destruct (with_intent intent_ (calls_of name calls)) as [|c l] eqn:Ew;
        [congruence|].
      assert (Hrel : In name (map fst (relevant_tools self intent_))).
      { apply in_map_iff.
        exists (name, inject_Z (count_of (successes (c :: l)))
                      / inject_Z (count_of (c :: l))).
        split; [reflexivity|]. unfold relevant_tools. apply in_flat_map.
        exists (name, stats). split; [now apply get_In|].
        cbn [fst snd]. rewrite Hi. cbn [count intent_success_count].
        assert (Hp : (0 <? count_of (c :: l))%Z = true).
        { apply Z.ltb_lt. unfold count_of. simpl. lia. }
        rewrite Hp. now left. }
      unfold suggest_tool_chain.
      rewrite firstn_all2.
      * apply in_map_iff in Hrel. destruct Hrel as [x [Hx Hin]].
        apply in_map_iff. exists x. split; [exact Hx|].
        apply (Permutation_in _ (Permutation_sym (sort_by_rate_perm _))). exact Hin.
      * rewrite (Permutation_length (sort_by_rate_perm _)). exact Hlen.
    + exfalso. rewrite Ht in Hrec. now apply Hrec.
Qed.

(** ** Analytics *)

(** One entry of [analytics["tools"]]. *)
Record ToolAnalytics : Type := {
  an_success_rate : Q;
  an_avg_execution_time : Q;
  an_total_executions : Z;
  an_intent_coverage : nat
}.

Definition analyse (stats : ToolStats) : ToolAnalytics :=
  {| an_success_rate :=
       inject_Z (success_count stats) / inject_Z (Z.max (total_executions stats) 1);
     an_avg_execution_time := avg_execution_time stats;
     an_total_executions := total_executions stats;
     an_intent_coverage := List.length (intent_patterns stats) |}.

(** [get_tool_analytics]: the per-tool entries and "total_patterns". *)
Definition get_tool_analytics (self : ToolDiscovery) : Dict.t ToolAnalytics * nat :=
  (fold_left (fun acc kv => Dict.set (fst kv) (analyse (snd kv)) acc)
             (performance_history self) [],
   List.length (tool_patterns self)).

Lemma fold_set_get {A B : Type} (f : A -> B) (l : Dict.t A) : forall (acc : Dict.t B) k,
  NoDup (Dict.keys l) ->
  Dict.get k (fold_left (fun acc kv => Dict.set (fst kv) (f (snd kv)) acc) l acc)
  = match Dict.get k l with
    | Some v => Some (f v)
    | None => Dict.get k acc
    end.
Proof.
  induction l as [|[k0 v0] l IH]; intros acc k ND; simpl; auto.
  inversion ND as [|? ? Hn ND']; subst.
  rewrite (IH _ k ND').
  destruct (String.eqb k k0) eqn:E.
  - apply String.eqb_eq in E. subst k0.
    apply get_None_notin in Hn. rewrite Hn. apply get_set_eq.
  - apply String.eqb_neq in E.
    destruct (Dict.get k l); auto. apply get_set_neq. congruence.
Qed.

Lemma successes_count_le l : (count_of (successes l) <= count_of l)%Z.
Proof.
  unfold count_of, successes. apply inj_le. apply filter_length_le.
Qed.

Lemma patterns_bounded calls : forall d,
  (List.length (tool_patterns (record_all d calls))
   <= List.length (tool_patterns d) + List.length (successes calls))%nat.
Proof.
  unfold record_all.
  induction calls as [|c calls IH]; intros d; [simpl; lia|].
  cbn [fold_left].
  specialize (IH (record_tool_execution d (exec_tool c) (exec_context c)
                    (exec_success c) (exec_time c) (exec_at c))).
  assert (Hle : (List.length (successes calls)
                 <= List.length (successes (c :: calls)))%nat).
  { unfold successes. simpl. destruct (exec_success c); simpl; lia. }
  destruct (record_tool_execution_patterns d (exec_tool c) (exec_context c)
              (exec_success c) (exec_time c) (exec_at c)) as [Hp | [Hs [_ Hp]]].
  - rewrite Hp in IH. lia.
  - assert (Hlen : List.length (successes (c :: calls))
                   = S (List.length (successes calls))).
    { unfold successes. simpl. rewrite Hs. reflexivity. }
    rewrite Hp, length_app in IH. cbn [List.length] in IH. lia.
Qed.

(** X29.  On a ledger that starts empty, [get_tool_analytics] reports for
    every tool with a recorded execution the number of its executions and,
    as "success_rate", the fraction of them that succeeded, a number in
    [0, 1]; it reports no tool without one; and "total_patterns" is at most
    the number of successful executions recorded. *)
Theorem analytics_report_the_records :
  forall (now : string) (calls : list Execution) (name : string),
    let report := get_tool_analytics (record_all (ToolDiscovery_init now) calls) in
    match Dict.get name (fst report) with
    | None => calls_of name calls = []
    | Some a =>
        calls_of name calls <> [] /\
        an_total_executions a = count_of (calls_of name calls) /\
        an_success_rate a
        = inject_Z (count_of (successes (calls_of name calls)))
          / inject_Z (count_of (calls_of name calls)) /\
        0 <= an_success_rate a /\ an_success_rate a <= 1
    end /\
    (snd report <= List.length (successes calls))%nat.
Proof.
  intros now calls name report. unfold report, get_tool_analytics. cbn [fst snd].
  split.
  - rewrite (fold_set_get analyse _ [] name (ledger_names_distinct now calls)).
    pose proof (ledger_tracks now calls name) as Ht.
    destruct (Dict.get name (performance_history
                               (record_all (ToolDiscovery_init now) calls)))
      as [stats|]; [|exact Ht].
    destruct Ht as [Hne [Htot [Hsucc _]]].
    assert (Hpos : (0 < count_of (calls_of name calls))%Z).
    { unfold count_of. destruct (calls_of name calls); [congruence | simpl; lia]. }
    assert (Hrate : an_success_rate (analyse stats)
                    = inject_Z (count_of (successes (calls_of name calls)))
                      / inject_Z (count_of (calls_of name calls))).
    { unfold analyse. simpl. rewrite Htot, Hsucc, Z.max_l by lia. reflexivity. }
    split; [exact Hne|]. split; [exact Htot|]. split; [exact Hrate|].
    rewrite Hrate. apply ToolFacts.ratio_bounds; [|exact Hpos].
    split; [unfold count_of; lia | apply successes_count_le].
  - pose proof (patterns_bounded calls (ToolDiscovery_init now)) as H.
    simpl in H. exact H.
Qed.

End LedgerFacts.

(* ================================================================== *)
(** * Python's numbers: ints and IEEE-754 doubles

    The modules above compute with exact rationals.  Where a statement
    depends on rounding, overflow or NaN, the code is embedded over the
    numbers Python has: unbounded ints and binary64 floats, the latter with
    the operations of the standard library's [SpecFloat] (round to nearest,
    ties to even). *)

Module Py.

Definition float : Type := spec_float.

Definition prec : Z := 53.
Definition emax : Z := 1024.

Definition fadd : float -> float -> float := SFadd prec emax.
Definition fsub : float -> float -> float := SFsub prec emax.
Definition fmul : float -> float -> float := SFmul prec emax.
Definition fdiv : float -> float -> float := SFdiv prec emax.

(** [a < b] and [a <= b] on floats; a comparison with a NaN is false. *)
Definition flt (a b : float) : bool := SFltb a b.
Definition fle (a b : float) : bool := SFleb a b.

Definition is_nan (a : float) : bool :=
  match a with S754_nan => true | _ => false end.

Definition is_zero (a : float) : bool :=
  match a with S754_zero _ => true | _ => false end.

(** An int as the exact operand of a correctly rounded division. *)
Definition integer (z : Z) : float :=
  match z with
  | Z0 => S754_zero false
  | Zpos p => S754_finite false p 0
  | Zneg p => S754_finite true p 0
  end.

(** [float(z)] of an int: the nearest double; [None] is [OverflowError]. *)
Definition float_of_int (z : Z) : option float :=
  match binary_normalize prec emax z 0 false with
  | S754_infinity _ => None
  | f => Some f
  end.

(** [a / b] of two ints: the double nearest to the quotient; [None] is
    [ZeroDivisionError] or [OverflowError]. *)
Definition int_truediv (a b : Z) : option float :=
  if (b =? 0)%Z then None
  else match SFdiv prec emax (integer a) (integer b) with
       | S754_infinity _ => None
       | f => Some f
       end.

(** The float literal written with the decimal digits of [n / d]. *)
Definition literal (n : Z) (d : positive) : float :=
  SFdiv prec emax (integer n) (integer (Zpos d)).

Definition zero : float := S754_zero false.
Definition one : float := literal 1 1.

(** The rational that a finite float stands for. *)
Definition exact (a : float) : option Q :=
  match a with
  | S754_zero _ => Some 0%Q
  | S754_finite s m e =>
      Some ((if s then inject_Z (Zneg m) else inject_Z (Zpos m)) * Qpower 2 e)%Q
  | _ => None
  end.

(** A Python number. *)
Inductive number : Type :=
| Int (z : Z)
| Float (f : float).

(** The float operand that mixed arithmetic converts a number to. *)
Definition to_float (n : number) : option float :=
  match n with
  | Int z => float_of_int z
  | Float f => Some f
  end.

(** [a * b]; [None] is [OverflowError]. *)
Definition mul (a b : number) : option number :=
  match a, b with
  | Int x, Int y => Some (Int (x * y))
  | _, _ =>
      match to_float a, to_float b with
      | Some x, Some y => Some (Float (fmul x y))
      | _, _ => None
      end
  end.

(** [a / b]; [None] is [ZeroDivisionError] or [OverflowError]. *)
Definition truediv (a b : number) : option float :=
  match a, b with
  | Int x, Int y => int_truediv x y
  | _, _ =>
      match to_float a, to_float b with
      | Some x, Some y => if is_zero y then None else Some (fdiv x y)
      | _, _ => None
      end
  end.

(** The values of a JSON-like dict, with Python's two kinds of number. *)
#[warnings="-register-all"]
Inductive value : Type :=
| VNone
| VBool (b : bool)
| VInt (z : Z)
| VFloat (f : float)
| VStr (s : string)
| VList (l : list value)
| VDict (d : list (string * value)).

(** The operand of arithmetic: numbers and booleans; anything else ends in
    a [TypeError]. *)
Definition number_of (v : value) : option number :=
  match v with
  | VInt z => Some (Int z)
  | VFloat f => Some (Float f)
  | VBool b => Some (Int (if b then 1 else 0))
  | _ => None
  end.

(** [float(v)], given Python's [float] on strings; [None] is [TypeError],
    [ValueError] or [OverflowError]. *)
Definition py_float (float_of_str : string -> option float) (v : value) : option float :=
  match v with
  | VInt z => float_of_int z
  | VFloat f => Some f
  | VBool b => float_of_int (if b then 1 else 0)
  | VStr s => float_of_str s
  | VNone | VList _ | VDict _ => None
  end.

(** A [float] that accepts no string. *)
Definition no_float : string -> option float := fun _ => None.

(** ** The order of floats *)

Ltac order_cases :=
  repeat match goal with
  | s : bool |- _ => destruct s
  end;
  cbn [SFcompare];
  repeat first
    [ match goal with
      | |- context [Z.compare ?a ?b] => destruct (Z.compare_spec a b)
      | |- context [Pos.compare_cont Eq ?a ?b] =>
          change (Pos.compare_cont Eq a b) with (Pos.compare a b);
          destruct (Pos.compare_spec a b)
      end
    | progress cbn ];
  intros; try discriminate; try reflexivity; try lia.

Lemma flt_fle_trans a b c : flt a b = true -> fle b c = true -> flt a c = true.
Proof.
  unfold flt, fle, SFltb, SFleb.
  destruct a as [sa|sa| |sa ma ea], b as [sb|sb| |sb mb eb], c as [sc|sc| |sc mc ec];
    order_cases.
Qed.

Lemma fle_flt_trans a b c : fle a b = true -> flt b c = true -> flt a c = true.
Proof.
  unfold flt, fle, SFltb, SFleb.
  destruct a as [sa|sa| |sa ma ea], b as [sb|sb| |sb mb eb], c as [sc|sc| |sc mc ec];
    order_cases.
Qed.

Lemma fle_trans a b c : fle a b = true -> fle b c = true -> fle a c = true.
Proof.
  unfold flt, fle, SFltb, SFleb.
  destruct a as [sa|sa| |sa ma ea], b as [sb|sb| |sb mb eb], c as [sc|sc| |sc mc ec];
    order_cases.
Qed.

Lemma flt_fle a b : flt a b = true -> fle a b = true.
Proof.
  unfold flt, fle, SFltb, SFleb. destruct (SFcompare a b) as [[]|]; auto.
Qed.

Lemma flt_trans a b c : flt a b = true -> flt b c = true -> flt a c = true.
Proof. intros H1 H2. eapply flt_fle_trans; [exact H1 | now apply flt_fle]. Qed.

Lemma flt_not_fle a b : flt a b = true -> fle b a = false.
Proof.
  unfold flt, fle, SFltb, SFleb.
  destruct a as [sa|sa| |sa ma ea], b as [sb|sb| |sb mb eb]; order_cases.
Qed.

(** Two floats that are not NaN are comparable. *)
Lemma not_fle_flt a b :
  is_nan a = false -> is_nan b = false -> fle a b = false -> flt b a = true.
Proof.
  unfold flt, fle, SFltb, SFleb.
  destruct a as [sa|sa| |sa ma ea], b as [sb|sb| |sb mb eb]; order_cases.
Qed.

Lemma not_flt_fle a b :
  is_nan a = false -> is_nan b = false -> flt a b = false -> fle b a = true.
Proof.
  unfold flt, fle, SFltb, SFleb.
  destruct a as [sa|sa| |sa ma ea], b as [sb|sb| |sb mb eb]; order_cases.
Qed.

End Py.

(* ================================================================== *)
(** * The catalog and the decision engine over Python's objects and numbers
    [src/agents/registry.py], [src/routing/decision_maker.py]

    [Routing] computes with exact rationals and holds agent records by value.
    Here the same code is embedded with what both abstract from: an agent
    record is a dict object, which [AgentRegistry] stores by reference and
    updates in place, and a metric is a Python int or a double. *)

Module Engine.
Import Py.

Definition error : Type := Routing.error.

(** The metadata dict of one agent, by the keys the code reads and writes. *)
Record AgentMetadata : Type := {
  capabilities : list string;      (* metadata.get("capabilities", []) *)
  status : option string;          (* metadata.get("status") *)
  load : option value;             (* present iff "load" in metadata *)
  performance : option value;      (* present iff "performance" in metadata *)
  last_selected : option string;
  current_task : option string;
  registered_at : option string;
  last_updated : option string
}.

(** Dict objects live on a heap; a variable or a dict entry holds the
    location of one. *)
Definition loc : Type := nat.
Definition heap : Type := loc -> AgentMetadata.

(** [h[l] = metadata] *)
Definition store (h : heap) (l : loc) (metadata : AgentMetadata) : heap :=
  fun l' => if Nat.eqb l' l then metadata else h l'.

(** [AgentRegistry._agents]: agent names to dict objects. *)
Definition registry : Type := Dict.t loc.

(** [AgentRegistry.is_agent_registered] *)
Definition is_agent_registered (agents : registry) (agent_name : string) : bool :=
  Dict.mem agent_name agents.

(** [AgentRegistry.register_agent]: the caller's dict [metadata] is updated
    in place and then stored under the name.  [registered] and [updated] are
    the two readings of the clock. *)
Definition register_agent (agents : registry) (h : heap) (agent_name : string)
    (metadata : loc) (registered updated : string)
    : result error (registry * heap) :=
  if is_agent_registered agents agent_name
  then Err (Routing.AlreadyRegistered agent_name)
  else
    let md := h metadata in
    let md' := {|
      capabilities := capabilities md;
      status := match status md with
                | Some s => Some s
                | None => Some "initializing"
                end;
      load := load md;
      performance := performance md;
      last_selected := last_selected md;
      current_task := current_task md;
      registered_at := Some registered;
      last_updated := Some updated |} in
    Ok (Dict.set agent_name metadata agents, store h metadata md').

(** [AgentRegistry.update_agent] as [route_task] calls it, with the update
    [{"last_selected": ..., "current_task": ...}]: the stored dict is updated
    in place. *)
Definition update_agent (agents : registry) (h : heap) (agent_name : string)
    (selected_at task : string) (now : string) : result error heap :=
  match Dict.get agent_name agents with
  | None => Err (Routing.NotRegistered agent_name)
  | Some l =>
      let md := h l in
      Ok (store h l {|
            capabilities := capabilities md;
            status := status md;
            load := load md;
            performance := performance md;
            last_selected := Some selected_at;
            current_task := Some task;
            registered_at := registered_at md;
            last_updated := Some now |})
  end.

(** [AgentRegistry.get_agent]: the stored dict itself. *)
Definition get_agent (agents : registry) (agent_name : string) : option loc :=
  Dict.get agent_name agents.

(** [AgentRegistry.unregister_agent] *)
Definition unregister_agent (agents : registry) (agent_name : string)
    : result error registry :=
  if Dict.mem agent_name agents then Ok (Dict.del agent_name agents)
  else Err (Routing.NotRegistered agent_name).

(** [AgentRegistry.get_all_agents], as its callers read it: a copy of the
    mapping, each name with the present content of its dict. *)
Definition get_all_agents (agents : registry) (h : heap) : Dict.t AgentMetadata :=
  map (fun entry => (fst entry, h (snd entry))) agents.

Section DecisionMaker.

(** Python's [float(s)] on a string. *)
Variable float_of_str : string -> option float.

(** [min(1.0, x)] *)
Definition min_one (x : float) : float := if flt x one then x else one.

(** The body of the [try] block of [get_load_metrics] for one agent;
    [None] is any exception raised there. *)
Definition agent_load (metadata : AgentMetadata) : option float :=
  match load metadata with
  | Some v => py_float float_of_str v
  | None =>
      (* performance = metadata.get("performance", {}) *)
      let performance :=
        match performance metadata with
        | Some v => v
        | None => VDict []
        end in
      match performance with
      | VDict perf =>
          let recent_requests :=
            match Dict.get "request_count" perf with
            | Some v => v
            | None => VInt 0
            end in
          let avg_response_time :=
            match Dict.get "response_time_ms" perf with
            | Some v => v
            | None => VInt 100
            end in
          match number_of recent_requests, number_of avg_response_time with
          | Some r, Some a =>
              match mul r a with
              | Some product =>
                  match truediv product (Int 10000) with
                  | Some quotient => Some (min_one quotient)
                  | None => None          (* OverflowError *)
                  end
              | None => None              (* OverflowError *)
              end
          | _, _ => None                  (* TypeError *)
          end
      | _ => None                         (* AttributeError: no .get *)
      end
  end.

(** The body of the [try] block of [get_performance_metrics]. *)
Definition agent_performance (metadata : AgentMetadata) : option float :=
  match performance metadata with
  | None => None                          (* {} : "Missing success_rate ..." *)
  | Some (VDict perf) =>
      match Dict.get "success_rate" perf with
      | None => None                      (* "Missing success_rate ..." *)
      | Some v => py_float float_of_str v
      end
  | Some VNone => Some zero
  | Some v => py_float float_of_str v
  end.

(** The loop shared by [get_load_metrics] and [get_performance_metrics]. *)
Fixpoint collect_metrics (metric : AgentMetadata -> option float)
    (agents_data : Dict.t AgentMetadata) (metrics : Dict.t float)
    : result error (Dict.t float) :=
  match agents_data with
  | [] => Ok metrics
  | (agent_id, metadata) :: rest =>
      match metric metadata with
      | Some m => collect_metrics metric rest (Dict.set agent_id m metrics)
      | None => Err (Routing.InvalidMetrics agent_id)
      end
  end.

Definition get_load_metrics (agents : registry) (h : heap)
    : result error (Dict.t float) :=
  collect_metrics agent_load (get_all_agents agents h) [].

Definition get_performance_metrics (agents : registry) (h : heap)
    : result error (Dict.t float) :=
  collect_metrics agent_performance (get_all_agents agents h) [].

(** [required_capability in metadata.get("capabilities", [])] *)
Definition has_capability (required_capability : string) (metadata : AgentMetadata)
    : bool :=
  existsb (String.eqb required_capability) (capabilities metadata).

(** [metadata.get("status") == "active"] *)
Definition is_active (metadata : AgentMetadata) : bool :=
  match status metadata with
  | Some s => String.eqb s "active"
  | None => false
  end.

Definition get_candidate_agents (agents : registry) (h : heap)
    (required_capability : string) : result error (list string) :=
  let agents_data := get_all_agents agents h in
  let capable :=
    filter (fun a => has_capability required_capability (snd a)) agents_data in
  let all_candidates := map fst capable in
  let active_candidates := map fst (filter (fun a => is_active (snd a)) capable) in
  match all_candidates, active_candidates with
  | [], _ => Err (Routing.NoCapableAgents required_capability)
  | _, [] => Err (Routing.NoActiveAgents required_capability)
  | _, _ => Ok active_candidates
  end.

(** The two weights set by [DecisionMaker.__init__]. *)
Record DecisionMaker : Type := {
  weight_performance : float;
  weight_load : float
}.

Definition DecisionMaker_init : DecisionMaker :=
  {| weight_performance := literal 6 10; weight_load := literal 4 10 |}.

Definition calculate_agent_score (self : DecisionMaker) (agent_id : string)
    (load_metrics performance_metrics : Dict.t float) : float :=
  let load := match Dict.get agent_id load_metrics with
              | Some l => l
              | None => one
              end in
  let performance := match Dict.get agent_id performance_metrics with
                     | Some p => p
                     | None => literal 5 10
                     end in
  fadd (fmul (weight_performance self) performance)
       (fmul (weight_load self) (fsub one load)).

(** [max(items, key=lambda x: x[1])]: an item replaces the best one so far
    when its key is greater. *)
Fixpoint max_from (best : string * float) (items : list (string * float))
    : string * float :=
  match items with
  | [] => best
  | x :: rest => max_from (if flt (snd best) (snd x) then x else best) rest
  end.

Definition py_max (items : list (string * float)) : result error (string * float) :=
  match items with
  | [] => Err Routing.MaxOfEmpty
  | x :: rest => Ok (max_from x rest)
  end.

(** The "missing metrics" check of [route_task]. *)
Fixpoint check_metrics (candidates : list string)
    (load_metrics performance_metrics : Dict.t float) : result error unit :=
  match candidates with
  | [] => Ok tt
  | agent_id :: rest =>
      if Dict.mem agent_id load_metrics && Dict.mem agent_id performance_metrics
      then check_metrics rest load_metrics performance_metrics
      else Err (Routing.InvalidMetrics agent_id)
  end.

(** [route_task]: the selected agent and the heap after the write-back.
    [selected_at] and [now] are the two clock readings. *)
Definition route_task (self : DecisionMaker) (agents : registry) (h : heap)
    (required_capability : string) (selected_at now : string)
    : result error (string * heap) :=
  do candidates <- get_candidate_agents agents h required_capability;
  do load_metrics <- get_load_metrics agents h;
  do performance_metrics <- get_performance_metrics agents h;
  do _ <- check_metrics candidates load_metrics performance_metrics;
  let candidate_scores :=
    fold_left
      (fun scores agent_id =>
         Dict.set agent_id
           (calculate_agent_score self agent_id load_metrics performance_metrics)
           scores)
      candidates [] in
  do selected <- py_max candidate_scores;
  let selected_agent := fst selected in
  do h' <- update_agent agents h selected_agent selected_at required_capability now;
  Ok (selected_agent, h').

(** ** The metrics of a record, in the words of the specification *)

(** [loadOf]: the record's explicit load if present; otherwise
    [min(1.0, request_count * response_time_ms / 10000)] from the counts of
    its performance block, 0 requests and 100 ms standing in for a count
    that is not recorded. *)
Inductive loadOf (metadata : AgentMetadata) : float -> Prop :=
| loadOf_explicit (v : value) (l : float) :
    load metadata = Some v ->
    py_float float_of_str v = Some l ->
    loadOf metadata l
| loadOf_derived (perf : Dict.t value) (r a product : number) (quotient : float) :
    load metadata = None ->
    performance metadata = Some (VDict perf) \/
    (performance metadata = None /\ perf = []) ->
    number_of (match Dict.get "request_count" perf with
               | Some v => v
               | None => VInt 0
               end) = Some r ->
    number_of (match Dict.get "response_time_ms" perf with
               | Some v => v
               | None => VInt 100
               end) = Some a ->
    mul r a = Some product ->
    truediv product (Int 10000) = Some quotient ->
    loadOf metadata (if flt quotient one then quotient else one).

(** [performanceOf]: the success rate of the record's performance block,
    or the performance itself when it is recorded as a number. *)
Inductive performanceOf (metadata : AgentMetadata) : float -> Prop :=
| performanceOf_block (perf : Dict.t value) (v : value) (s : float) :
    performance metadata = Some (VDict perf) ->
    Dict.get "success_rate" perf = Some v ->
    py_float float_of_str v = Some s ->
    performanceOf metadata s
| performanceOf_number (v : value) (s : float) :
    performance metadata = Some v ->
    py_float float_of_str v = Some s ->
    performanceOf metadata s
| performanceOf_null :
    performance metadata = Some VNone ->
    performanceOf metadata zero.

End DecisionMaker.

(** [score = w_perf * performanceOf + w_load * (1 - loadOf)] with the
    weights 0.6 and 0.4, each operation rounded to a double. *)
Definition score (success_rate load : float) : float :=
  fadd (fmul (literal 6 10) success_rate) (fmul (literal 4 10) (fsub one load)).

Definition eligible (required_capability : string) (a : string * AgentMetadata) : bool :=
  has_capability required_capability (snd a) && is_active (snd a).

(** ** Facts about the decision engine *)

Lemma get_all_agents_keys agents h :
  Dict.keys (get_all_agents agents h) = Dict.keys agents.
Proof.
  unfold get_all_agents, Dict.keys. rewrite map_map. reflexivity.
Qed.

Lemma get_all_agents_In agents h id md :
  In (id, md) (get_all_agents agents h) ->
  exists l, In (id, l) agents /\ md = h l.
Proof.
  unfold get_all_agents. intros H. apply in_map_iff in H.
  destruct H as [[k l] [[= <- <-] Hin]]. eauto.
Qed.

Lemma loadOf_sound fos md l : loadOf fos md l -> agent_load fos md = Some l.
Proof.
  intros H. unfold agent_load.
  destruct H as [v l Hl Hf | perf r a p q Hl Hp Hr Ha Hm Hq].
  - now rewrite Hl.
  - rewrite Hl.
    destruct Hp as [-> | [-> ->]]; cbn [Dict.get] in *;
      rewrite Hr, Ha, Hm, Hq; reflexivity.
Qed.

Lemma performanceOf_sound fos md s :
  performanceOf fos md s -> agent_performance fos md = Some s.
Proof.
  intros H. unfold agent_performance.
  destruct H as [perf v s Hp Hg Hf | v s Hp Hf | Hp]; rewrite Hp.
  - now rewrite Hg.
  - destruct v; simpl in Hf; try discriminate; exact Hf.
  - reflexivity.
Qed.

Lemma candidates_found agents h cap a :
  In a (get_all_agents agents h) -> eligible cap a = true ->
  get_candidate_agents agents h cap
  = Ok (map fst (filter (eligible cap) (get_all_agents agents h))).
Proof.
  intros Hin He. unfold get_candidate_agents.
  rewrite Routing.filter_filter_and. fold (eligible cap).
  unfold eligible in He. apply andb_true_iff in He. destruct He as [Hc Ha].
  assert (H1 : In a (filter (fun a => has_capability cap (snd a))
                       (get_all_agents agents h)))
    by (apply filter_In; split; auto).
  assert (H2 : In a (filter (eligible cap) (get_all_agents agents h))).
  { apply filter_In; split; auto. unfold eligible. now rewrite Hc, Ha. }
  change (fun a0 : string * AgentMetadata =>
            has_capability cap (snd a0) && is_active (snd a0)) with (eligible cap).
  destruct (filter (fun a => has_capability cap (snd a)) (get_all_agents agents h))
    as [|x l]; [contradiction|].
  destruct (filter (eligible cap) (get_all_agents agents h)) as [|y l'];
    [contradiction|].
  reflexivity.
Qed.

Lemma metrics_collected metric agents_data acc :
  (forall a, In a agents_data -> metric (snd a) <> None) ->
  exists m, collect_metrics metric agents_data acc = Ok m.
Proof.
  revert acc. induction agents_data as [|[id md] agents IH]; intros acc H; simpl.
  - eauto.
  - destruct (metric md) eqn:E.
    + apply IH. intros a Ha. apply H. now right.
    + exfalso. apply (H (id, md)); [now left | exact E].
Qed.

Lemma metrics_lookup metric agents_data acc m :
  NoDup (Dict.keys agents_data) ->
  collect_metrics metric agents_data acc = Ok m ->
  forall id, Dict.get id m =
             match Dict.get id agents_data with
             | Some md => metric md
             | None => Dict.get id acc
             end.
Proof.
  revert acc. induction agents_data as [|[k md] agents IH]; intros acc ND H id;
    simpl in *.
  - now inversion H.
  - inversion ND as [|? ? Hn ND']; subst.
    destruct (metric md) as [v|] eqn:E; [|discriminate].
    rewrite (IH _ ND' H id).
    destruct (String.eqb id k) eqn:Ek.
    + apply String.eqb_eq in Ek. subst id.
      apply get_None_notin in Hn. rewrite Hn. rewrite get_set_eq. now rewrite E.
    + apply String.eqb_neq in Ek.
      destruct (Dict.get id agents); auto.
      apply get_set_neq. congruence.
Qed.

Lemma scores_appended (f : string -> float) (xs : list string) (acc : Dict.t float) :
  NoDup (Dict.keys acc ++ xs) ->
  fold_left (fun d x => Dict.set x (f x) d) xs acc = acc ++ map (fun x => (x, f x)) xs.
Proof.
  revert acc. induction xs as [|x xs IH]; intros acc ND; simpl.
  - now rewrite app_nil_r.
  - rewrite set_fresh.
    + rewrite IH.
      * now rewrite <- app_assoc.
      * rewrite keys_app. simpl. now rewrite <- app_assoc.
    + apply NoDup_remove_2 in ND. intro H. apply ND. apply in_or_app. now left.
Qed.

(** [max(..., key=...)] on floats: no earlier item has a key that the
    result's key is at most, and no later item has a greater key. *)
Lemma max_from_first items : forall best pre0 mid,
  (forall x, In x pre0 -> fle (snd best) (snd x) = false) ->
  (forall x, In x mid -> flt (snd best) (snd x) = false) ->
  exists pre post,
    pre0 ++ best :: mid ++ items = pre ++ max_from best items :: post /\
    (forall x, In x pre -> fle (snd (max_from best items)) (snd x) = false) /\
    (forall x, In x post -> flt (snd (max_from best items)) (snd x) = false).
Proof.
  induction items as [|x items IH]; intros best pre0 mid Hpre Hmid; simpl.
  - exists pre0, mid. rewrite app_nil_r. auto.
  - destruct (flt (snd best) (snd x)) eqn:E.
    + destruct (IH x (pre0 ++ best :: mid) []) as [pre [post [H1 [H2 H3]]]].
      * intros y Hy. apply in_app_or in Hy.
        destruct (fle (snd x) (snd y)) eqn:Ey; [exfalso|reflexivity].
        pose proof (flt_fle_trans _ _ _ E Ey) as Hlt.
        destruct Hy as [Hy | [<- | Hy]].
        -- apply flt_fle in Hlt. rewrite (Hpre y Hy) in Hlt. discriminate.
        -- apply flt_not_fle in E. congruence.
        -- rewrite (Hmid y Hy) in Hlt. discriminate.
      * simpl. tauto.
      * exists pre, post. split; [|auto].
        rewrite <- H1. simpl. rewrite <- app_assoc. reflexivity.
    + destruct (IH best pre0 (mid ++ [x])) as [pre [post [H1 [H2 H3]]]]; auto.
      * intros y Hy. apply in_app_or in Hy. destruct Hy as [Hy | [<- | []]]; auto.
      * exists pre, post. split; [|auto].
        rewrite <- H1. now rewrite <- app_assoc.
Qed.

Lemma py_max_first items :
  items <> [] ->
  exists r pre post,
    py_max items = Ok r /\ items = pre ++ r :: post /\
    (forall x, In x pre -> fle (snd r) (snd x) = false) /\
    (forall x, In x post -> flt (snd r) (snd x) = false).
Proof.
  destruct items as [|x items]; [congruence|]. intros _.
  destruct (max_from_first items x [] []) as [pre [post [H1 [H2 H3]]]];
    simpl; try tauto.
  exists (max_from x items), pre, post. simpl in H1. auto.
Qed.

Lemma metrics_checked candidates lm pm :
  (forall id, In id candidates -> Dict.get id lm <> None /\ Dict.get id pm <> None) ->
  check_metrics candidates lm pm = Ok tt.
Proof.
  induction candidates as [|id cs IH]; intros H; simpl; auto.
  destruct (H id (or_introl eq_refl)) as [H1 H2].
  unfold Dict.mem.
  destruct (Dict.get id lm); [|congruence].
  destruct (Dict.get id pm); [|congruence].
  simpl. apply IH. intros. apply H. now right.
Qed.

(** With both metric tables collected, the score that [route_task] computes
    for a registered agent is the score of the load and the success rate
    that its record holds. *)
Lemma calculate_agent_score_of_record fos agents h lm pm id md l s :
  NoDup (Dict.keys agents) ->
  get_load_metrics fos agents h = Ok lm ->
  get_performance_metrics fos agents h = Ok pm ->
  In (id, md) (get_all_agents agents h) ->
  loadOf fos md l -> performanceOf fos md s ->
  calculate_agent_score DecisionMaker_init id lm pm = score s l /\
  Dict.get id lm <> None /\ Dict.get id pm <> None.
Proof.
  intros ND Hl Hp Hin Hlo Hpe.
  assert (ND' : NoDup (Dict.keys (get_all_agents agents h)))
    by now rewrite get_all_agents_keys.
  pose proof (metrics_lookup _ _ _ _ ND' Hl id) as Gl.
  pose proof (metrics_lookup _ _ _ _ ND' Hp id) as Gp.
  rewrite (In_get _ _ _ ND' Hin) in Gl, Gp.
  rewrite (loadOf_sound _ _ _ Hlo) in Gl.
  rewrite (performanceOf_sound _ _ _ Hpe) in Gp.
  unfold calculate_agent_score, score. rewrite Gl, Gp.
  repeat split; congruence.
Qed.

(** An active agent with one capability, as the tests build them. *)
Definition agent (caps : list string) (st : string) (perf ld : option value)
    : AgentMetadata :=
  {| capabilities := caps; status := Some st; load := ld; performance := perf;
     last_selected := None; current_task := None;
     registered_at := None; last_updated := None |}.

(** The catalog of the specification's example: agent1 with success rate
    0.9 and load 0.3, agent2 with 0.7 and 0.8. *)
Definition example_agents : registry := [("agent1", 0%nat); ("agent2", 1%nat)].

Definition example_heap : heap :=
  fun l =>
    match l with
    | O => agent ["intent"] "active"
             (Some (VDict [("success_rate", VFloat (literal 9 10))]))
             (Some (VFloat (literal 3 10)))
    | _ => agent ["intent"] "active"
             (Some (VDict [("success_rate", VFloat (literal 7 10))]))
             (Some (VFloat (literal 8 10)))
    end.

Example route_example :
  fst_ok (route_task no_float DecisionMaker_init example_agents example_heap
            "intent" "t0" "t1") = Some "agent1".
Proof. vm_compute. reflexivity. Qed.

(** Two agents whose scores are equal as real numbers: (0.6 * 1/32 + 0.4 * 0
    and 0.6 * 0 + 0.4 * 3/64 are both 3/160); every metric is a double that
    holds its value exactly. *)
Definition tie_agents : registry := [("a", 0%nat); ("b", 1%nat)].

Definition tie_heap : heap :=
  fun l =>
    match l with
    | O => agent ["intent"] "active"
             (Some (VDict [("success_rate", VFloat (literal 1 32))]))
             (Some (VFloat (literal 1 1)))
    | _ => agent ["intent"] "active"
             (Some (VDict [("success_rate", VFloat (literal 0 1))]))
             (Some (VFloat (literal 61 64)))
    end.

(** An agent whose success rate is recorded as NaN, listed before one with
    success rate 0.9; both have load 0.0. *)
Definition nan_agents : registry := [("a", 0%nat); ("b", 1%nat)].

Definition nan_heap : heap :=
  fun l =>
    match l with
    | O => agent ["intent"] "active"
             (Some (VDict [("success_rate", VFloat S754_nan)]))
             (Some (VFloat zero))
    | _ => agent ["intent"] "active"
             (Some (VDict [("success_rate", VFloat (literal 9 10))]))
             (Some (VFloat zero))
    end.

(** C1, as stated, fails.  First, "a" and "b" are active and capable, their
    metrics are retrieved, and the real numbers
    0.6*success_rate + 0.4*(1 - load) of the two are equal; "a" comes first
    in the catalog, yet [route_task] returns "b", whose computed score is
    the greater double.  Second, with a success rate that is NaN the first
    agent is returned although its score is not the greatest: the score of
    "b" is a number and is not below or equal to it. *)
Lemma route_task_counterexample :
  (exists (sa la sb lb : float) (qsa qla qsb qlb : Q),
     performanceOf no_float (tie_heap 0%nat) sa /\ loadOf no_float (tie_heap 0%nat) la /\
     performanceOf no_float (tie_heap 1%nat) sb /\ loadOf no_float (tie_heap 1%nat) lb /\
     exact sa = Some qsa /\ exact la = Some qla /\
     exact sb = Some qsb /\ exact lb = Some qlb /\
     ((6 # 10) * qsa + (4 # 10) * (1 - qla) == (6 # 10) * qsb + (4 # 10) * (1 - qlb))%Q /\
     flt (score sa la) (score sb lb) = true /\
     fst_ok (route_task no_float DecisionMaker_init tie_agents tie_heap
               "intent" "t0" "t1") = Some "b") /\
  (exists (sa la sb lb : float),
     performanceOf no_float (nan_heap 0%nat) sa /\ loadOf no_float (nan_heap 0%nat) la /\
     performanceOf no_float (nan_heap 1%nat) sb /\ loadOf no_float (nan_heap 1%nat) lb /\
     is_nan (score sa la) = true /\ is_nan (score sb lb) = false /\
     fle (score sb lb) (score sa la) = false /\
     fst_ok (route_task no_float DecisionMaker_init nan_agents nan_heap
               "intent" "t0" "t1") = Some "a").
Proof.
  split.
  - eexists _, _, _, _, _, _, _, _.
    split; [eapply performanceOf_block; reflexivity|].
    split; [eapply loadOf_explicit; reflexivity|].
    split; [eapply performanceOf_block; reflexivity|].
    split; [eapply loadOf_explicit; reflexivity|].
    repeat (split; [vm_compute; reflexivity|]).
    vm_compute. reflexivity.
  - eexists _, _, _, _.
    split; [eapply performanceOf_block; reflexivity|].
    split; [eapply loadOf_explicit; reflexivity|].
    split; [eapply performanceOf_block; reflexivity|].
    split; [eapply loadOf_explicit; reflexivity|].
    repeat (split; [vm_compute; reflexivity|]).
    vm_compute. reflexivity.
Qed.

(** The same with decimal metrics: 0.6*0.2 + 0.4*0.7 is computed as
    0.39999999999999997 and 0.6*0.5 + 0.4*0.25 as 0.4. *)
Example route_task_decimal_tie :
  fst_ok (route_task no_float DecisionMaker_init [("a", 0%nat); ("b", 1%nat)]
            (fun l =>
               match l with
               | O => agent ["intent"] "active"
                        (Some (VDict [("success_rate", VFloat (literal 2 10))]))
                        (Some (VFloat (literal 3 10)))
               | _ => agent ["intent"] "active"
                        (Some (VDict [("success_rate", VFloat (literal 5 10))]))
                        (Some (VFloat (literal 75 100)))
               end)
            "intent" "t0" "t1") = Some "b".
Proof. vm_compute. reflexivity. Qed.

(** C1, amended.  In a catalog with pairwise distinct ids in which some
    agent has the required capability and status "active", and in which the
    load and the success rate of every registered agent can be retrieved,
    [route_task] returns an id [selected].  It is an active capable agent.
    With [score] the double that the code computes from the load and the
    success rate of a record, no active capable agent listed after
    [selected] has a greater score, and [score selected <= score a] holds
    for no active capable agent [a] listed before it.  When no score is a
    NaN this says: [selected] has the greatest score, and among the agents
    with that score it is the first in catalog order. *)
Theorem route_task_selects_first_argmax :
  forall (float_of_str : string -> option float) (agents : registry) (h : heap)
         (cap selected_at now : string),
    NoDup (Dict.keys agents) ->
    (exists a, In a (get_all_agents agents h) /\
               has_capability cap (snd a) = true /\ is_active (snd a) = true) ->
    (forall a, In a (get_all_agents agents h) ->
               exists l s, loadOf float_of_str (snd a) l /\
                           performanceOf float_of_str (snd a) s) ->
    exists selected h' md pre post l s,
      route_task float_of_str DecisionMaker_init agents h cap selected_at now
        = Ok (selected, h') /\
      filter (fun a => has_capability cap (snd a) && is_active (snd a))
             (get_all_agents agents h)
        = pre ++ (selected, md) :: post /\
      loadOf float_of_str md l /\ performanceOf float_of_str md s /\
      (forall a la sa,
         In a pre -> loadOf float_of_str (snd a) la ->
         performanceOf float_of_str (snd a) sa ->
         fle (score s l) (score sa la) = false /\
         (is_nan (score s l) = false -> is_nan (score sa la) = false ->
          flt (score sa la) (score s l) = true)) /\
      (forall a la sa,
         In a post -> loadOf float_of_str (snd a) la ->
         performanceOf float_of_str (snd a) sa ->
         flt (score s l) (score sa la) = false /\
         (is_nan (score s l) = false -> is_nan (score sa la) = false ->
          fle (score sa la) (score s l) = true)).
Proof.
  intros fos agents h cap t0 t1 ND [a0 [Hin0 [Hc0 Ha0]]] Hm.
  assert (He0 : eligible cap a0 = true)
    by (unfold eligible; now rewrite Hc0, Ha0).
  change (fun a : string * AgentMetadata =>
            has_capability cap (snd a) && is_active (snd a)) with (eligible cap).
  set (catalog := get_all_agents agents h) in *.
  assert (ND' : NoDup (Dict.keys catalog))
    by (unfold catalog; now rewrite get_all_agents_keys).
  set (cands := filter (eligible cap) catalog).
  assert (Hsub : forall a, In a cands -> In a catalog)
    by (intros a Ha; apply filter_In in Ha; tauto).
  destruct (metrics_collected (agent_load fos) catalog [])
    as [lm Hl].
  { intros a Ha. destruct (Hm a Ha) as [l [s [Hlo _]]].
    rewrite (loadOf_sound _ _ _ Hlo). discriminate. }
  destruct (metrics_collected (agent_performance fos) catalog [])
    as [pm Hp].
  { intros a Ha. destruct (Hm a Ha) as [l [s [_ Hpe]]].
    rewrite (performanceOf_sound _ _ _ Hpe). discriminate. }
  set (computed := fun i => calculate_agent_score DecisionMaker_init i lm pm).
  assert (Hsc : forall i m l s, In (i, m) catalog ->
            loadOf fos m l -> performanceOf fos m s ->
            computed i = score s l /\
            Dict.get i lm <> None /\ Dict.get i pm <> None).
  { intros i m l s Hi Hlo Hpe.
    exact (calculate_agent_score_of_record fos agents h lm pm i m l s
             ND Hl Hp Hi Hlo Hpe). }
  assert (Hitems : map (fun i => (i, computed i)) (map fst cands) <> []).
  { assert (Hne : In a0 cands) by (apply filter_In; auto).
    destruct cands; [contradiction | discriminate]. }
  destruct (py_max_first _ Hitems) as [r [pre' [post' [Hmax [Hsplit [Hlt Hle]]]]]].
  rewrite map_map in Hsplit.
  apply map_eq_app in Hsplit. destruct Hsplit as [pre [rest [Hc [Hpre Hrest]]]].
  apply map_eq_cons in Hrest. destruct Hrest as [a [post [Hrest [Hr Hpost]]]].
  subst rest. destruct a as [sel md].
  assert (Hsel : In (sel, md) catalog).
  { apply Hsub. rewrite Hc. apply in_or_app. right. now left. }
  destruct (Hm _ Hsel) as [l [s [Hlo Hpe]]]. simpl in Hlo, Hpe.
  destruct (get_all_agents_In _ _ _ _ Hsel) as [lsel [Hlsel _]].
  unfold route_task.
  rewrite (candidates_found agents h cap _ Hin0 He0). cbn [bind].
  unfold get_load_metrics, get_performance_metrics. fold catalog.
  rewrite Hl. cbn [bind]. rewrite Hp. cbn [bind].
  fold cands.
  rewrite metrics_checked.
  2:{ intros i Hi. apply in_map_iff in Hi. destruct Hi as [[i' m] [<- Hi]].
      destruct (Hm _ (Hsub _ Hi)) as [l' [s' [Hlo' Hpe']]].
      apply (Hsc i' m l' s' (Hsub _ Hi) Hlo' Hpe'). }
  cbn [bind].
  rewrite (scores_appended computed).
  2:{ simpl. apply (Routing.NoDup_keys_filter (eligible cap) _ ND'). }
  rewrite app_nil_l, Hmax. cbn [bind].
  rewrite <- Hr. cbn [fst].
  unfold update_agent. rewrite (In_get _ _ _ ND Hlsel). cbn [bind].
  destruct (Hsc sel md l s Hsel Hlo Hpe) as [Hscore _].
  eexists sel, _, md, pre, post, l, s.
  split; [reflexivity|]. split; [exact Hc|].
  split; [exact Hlo|]. split; [exact Hpe|].
  subst r. simpl in Hlt, Hle. split.
  - intros a la sa Ha Hla Hsa.
    assert (Hina : In a catalog).
    { apply Hsub. rewrite Hc. apply in_or_app. now left. }
    destruct a as [i m]. simpl in Hla, Hsa.
    destruct (Hsc i m la sa Hina Hla Hsa) as [Hsa' _].
    assert (Hf : fle (score s l) (score sa la) = false).
    { rewrite <- Hscore, <- Hsa'.
      apply (Hlt (i, computed i)). rewrite <- Hpre.
      apply (in_map (fun x => (fst x, computed (fst x))) _ (i, m)). exact Ha. }
    split; [exact Hf|]. intros N1 N2. now apply not_fle_flt.
  - intros a la sa Ha Hla Hsa.
    assert (Hina : In a catalog).
    { apply Hsub. rewrite Hc. apply in_or_app. right. now right. }
    destruct a as [i m]. simpl in Hla, Hsa.
    destruct (Hsc i m la sa Hina Hla Hsa) as [Hsa' _].
    assert (Hf : flt (score s l) (score sa la) = false).
    { rewrite <- Hscore, <- Hsa'.
      apply (Hle (i, computed i)). rewrite <- Hpost.
      apply (in_map (fun x => (fst x, computed (fst x))) _ (i, m)). exact Ha. }
    split; [exact Hf|]. intros N1 N2. now apply not_flt_fle.
Qed.

Lemma route_task_selects_first_argmax_witness :
  exists selected h' md pre post l s,
    route_task no_float DecisionMaker_init example_agents example_heap
      "intent" "t0" "t1" = Ok (selected, h') /\
    filter (fun a => has_capability "intent" (snd a) && is_active (snd a))
           (get_all_agents example_agents example_heap)
      = pre ++ (selected, md) :: post /\
    loadOf no_float md l /\ performanceOf no_float md s /\
    (forall a la sa,
       In a pre -> loadOf no_float (snd a) la -> performanceOf no_float (snd a) sa ->
       fle (score s l) (score sa la) = false /\
       (is_nan (score s l) = false -> is_nan (score sa la) = false ->
        flt (score sa la) (score s l) = true)) /\
    (forall a la sa,
       In a post -> loadOf no_float (snd a) la -> performanceOf no_float (snd a) sa ->
       flt (score s l) (score sa la) = false /\
       (is_nan (score s l) = false -> is_nan (score sa la) = false ->
        fle (score sa la) (score s l) = true)).
Proof.
  apply route_task_selects_first_argmax.
  - repeat constructor; simpl; intuition discriminate.
  - exists ("agent1", example_heap 0%nat).
    split; [left; reflexivity | split; reflexivity].
  - intros a [<- | [<- | []]]; eexists _, _;
      (split; [eapply loadOf_explicit; reflexivity
              | eapply performanceOf_block; reflexivity]).
Defined.

(** ** The catalog holds dicts by reference *)

(** The record that [register_agent] leaves in the caller's dict. *)
Definition registered (metadata : AgentMetadata) (registered_at' updated : string)
    : AgentMetadata :=
  {| capabilities := capabilities metadata;
     status := match status metadata with
               | Some s => Some s
               | None => Some "initializing"
               end;
     load := load metadata;
     performance := performance metadata;
     last_selected := last_selected metadata;
     current_task := current_task metadata;
     registered_at := Some registered_at';
     last_updated := Some updated |}.

(** The record that the write-back of [route_task] leaves. *)
Definition selected_for (metadata : AgentMetadata) (selected_at task now : string)
    : AgentMetadata :=
  {| capabilities := capabilities metadata;
     status := status metadata;
     load := load metadata;
     performance := performance metadata;
     last_selected := Some selected_at;
     current_task := Some task;
     registered_at := registered_at metadata;
     last_updated := Some now |}.

Lemma store_same h l md : store h l md l = md.
Proof. unfold store. now rewrite Nat.eqb_refl. Qed.

Lemma store_other h l md l' : l' <> l -> store h l md l' = h l'.
Proof.
  intros N. unfold store. destruct (Nat.eqb l' l) eqn:E; auto.
  apply Nat.eqb_eq in E. contradiction.
Qed.

(** X1.  Registering under a name that is taken fails with
    [AlreadyRegistered] and touches nothing.  Registering under a free name
    appends the name to the catalog with the caller's own dict as its
    record: [get_agent] returns that very object, which now holds the given
    metadata with the status defaulted to "initializing" and both timestamps
    set.  No other dict object changes, so every agent whose record is
    another object reads as before; an agent registered earlier with the
    same dict object shares the new timestamps. *)
Theorem register_agent_get_agent :
  forall (agents : registry) (h : heap) (agent_name : string) (metadata : loc)
         (t0 t1 : string),
    (is_agent_registered agents agent_name = true ->
     register_agent agents h agent_name metadata t0 t1
     = Err (Routing.AlreadyRegistered agent_name)) /\
    (is_agent_registered agents agent_name = false ->
     exists agents' h',
       register_agent agents h agent_name metadata t0 t1 = Ok (agents', h') /\
       agents' = agents ++ [(agent_name, metadata)] /\
       get_agent agents' agent_name = Some metadata /\
       h' metadata = registered (h metadata) t0 t1 /\
       (forall l, l <> metadata -> h' l = h l) /\
       (forall other, other <> agent_name ->
          get_agent agents' other = get_agent agents other) /\
       (forall other, get_agent agents other = Some metadata ->
          option_map h' (get_agent agents' other)
          = Some (registered (h metadata) t0 t1))).
Proof.
  intros agents h n md t0 t1. unfold register_agent, is_agent_registered. split.
  - intros ->. reflexivity.
  - intros Hm. rewrite Hm. eexists _, _. split; [reflexivity|].
    assert (Hfresh : ~ In n (Dict.keys agents)).
    { apply get_None_notin. unfold Dict.mem in Hm.
      destruct (Dict.get n agents); [discriminate | reflexivity]. }
    split; [now apply set_fresh|].
    unfold get_agent. split; [apply get_set_eq|].
    split; [apply store_same|].
    split; [intros l Hl; now apply store_other|].
    split.
    + intros other Ho. apply get_set_neq. congruence.
    + intros other Ho.
      assert (Hne : n <> other).
      { intros <-. apply Hfresh. apply get_In in Ho.
        change n with (fst (n, md)). now apply in_map. }
      rewrite (get_set_neq _ _ _ _ Hne), Ho. simpl. now rewrite store_same.
Qed.

Lemma register_agent_get_agent_witness :
  exists agents' h',
    register_agent example_agents example_heap "agent3" 2%nat "t0" "t1"
    = Ok (agents', h') /\
    agents' = example_agents ++ [("agent3", 2%nat)] /\
    get_agent agents' "agent3" = Some 2%nat /\
    h' 2%nat = registered (example_heap 2%nat) "t0" "t1" /\
    (forall l, l <> 2%nat -> h' l = example_heap l) /\
    (forall other, other <> "agent3" ->
       get_agent agents' other = get_agent example_agents other) /\
    (forall other, get_agent example_agents other = Some 2%nat ->
       option_map h' (get_agent agents' other)
       = Some (registered (example_heap 2%nat) "t0" "t1")).
Proof.
  apply (proj2 (register_agent_get_agent example_agents example_heap "agent3"
                  2%nat "t0" "t1")).
  reflexivity.
Defined.

Lemma del_appended (agents : registry) n l :
  ~ In n (Dict.keys agents) -> Dict.del n (agents ++ [(n, l)]) = agents.
Proof.
  induction agents as [|[k v] agents IH]; simpl; intros H.
  - now rewrite String.eqb_refl.
  - destruct (String.eqb n k) eqn:E.
    + apply String.eqb_eq in E. subst. tauto.
    + f_equal. apply IH. tauto.
Qed.

(** X2.  Unregistering an unknown name fails with [NotRegistered].
    Unregistering right after a registration gives back the catalog as it
    was, order included; what remains of the registration is the update of
    the caller's dict, no other object has changed. *)
Theorem unregister_after_register :
  forall (agents : registry) (h : heap) (agent_name : string) (metadata : loc)
         (t0 t1 : string),
    is_agent_registered agents agent_name = false ->
    unregister_agent agents agent_name = Err (Routing.NotRegistered agent_name) /\
    exists agents' h',
      register_agent agents h agent_name metadata t0 t1 = Ok (agents', h') /\
      unregister_agent agents' agent_name = Ok agents /\
      h' metadata = registered (h metadata) t0 t1 /\
      forall l, l <> metadata -> h' l = h l.
Proof.
  intros agents h n md t0 t1 Hm. unfold is_agent_registered in Hm.
  unfold unregister_agent, register_agent, is_agent_registered. rewrite Hm.
  split; [reflexivity|].
  assert (Hfresh : ~ In n (Dict.keys agents)).
  { apply get_None_notin. unfold Dict.mem in Hm.
    destruct (Dict.get n agents); [discriminate | reflexivity]. }
  eexists _, _. split; [reflexivity|].
  unfold Dict.mem. rewrite get_set_eq, (set_fresh _ _ _ Hfresh), (del_appended _ _ _ Hfresh).
  split; [reflexivity|]. split; [apply store_same|].
  intros l Hl. now apply store_other.
Qed.

Lemma unregister_after_register_witness :
  unregister_agent example_agents "agent3" = Err (Routing.NotRegistered "agent3") /\
  exists agents' h',
    register_agent example_agents example_heap "agent3" 0%nat "t0" "t1"
    = Ok (agents', h') /\
    unregister_agent agents' "agent3" = Ok example_agents /\
    h' 0%nat = registered (example_heap 0%nat) "t0" "t1" /\
    forall l, l <> 0%nat -> h' l = example_heap l.
Proof.
  apply (unregister_after_register example_agents example_heap "agent3" 0%nat
           "t0" "t1").
  reflexivity.
Defined.

(** ** The write-back *)

Lemma max_from_member items : forall best, In (max_from best items) (best :: items).
Proof.
  induction items as [|x items IH]; intros best; simpl.
  - now left.
  - destruct (IH (if flt (snd best) (snd x) then x else best)) as [H | H].
    + rewrite <- H. destruct (flt (snd best) (snd x)); auto.
    + right. now right.
Qed.

Lemma scores_keys (f : string -> float) (xs : list string) :
  forall (acc : Dict.t float) k,
    In k (Dict.keys (fold_left (fun d x => Dict.set x (f x) d) xs acc)) ->
    In k (Dict.keys acc) \/ In k xs.
Proof.
  induction xs as [|x xs IH]; intros acc k H; simpl in *; auto.
  apply IH in H. destruct H as [H | H]; [|auto].
  apply keys_set_In in H. destruct H as [-> | H]; auto.
Qed.

(** What a successful [route_task] went through. *)
Lemma route_task_steps fos self agents h cap t0 t1 sel h' :
  route_task fos self agents h cap t0 t1 = Ok (sel, h') ->
  exists candidates lm pm best,
    get_candidate_agents agents h cap = Ok candidates /\
    get_load_metrics fos agents h = Ok lm /\
    get_performance_metrics fos agents h = Ok pm /\
    check_metrics candidates lm pm = Ok tt /\
    py_max (fold_left
              (fun scores agent_id =>
                 Dict.set agent_id (calculate_agent_score self agent_id lm pm) scores)
              candidates [])
    = Ok (sel, best) /\
    In sel candidates /\
    update_agent agents h sel t0 cap t1 = Ok h'.
Proof.
  unfold route_task. intros H.
  destruct (get_candidate_agents agents h cap) as [candidates|] eqn:Ec; [|discriminate].
  destruct (get_load_metrics fos agents h) as [lm|] eqn:El; [|discriminate].
  destruct (get_performance_metrics fos agents h) as [pm|] eqn:Ep; [|discriminate].
  cbn [bind] in H.
  destruct (check_metrics candidates lm pm) as [[]|] eqn:Ek; [|discriminate].
  cbn [bind] in H. cbv zeta in H.
  pose (computed := fun i => calculate_agent_score self i lm pm).
  change (fun (scores : Dict.t float) (agent_id : string) =>
            Dict.set agent_id (calculate_agent_score self agent_id lm pm) scores)
    with (fun (scores : Dict.t float) (i : string) => Dict.set i (computed i) scores)
    in H |- *.
  destruct (py_max (fold_left (fun scores i => Dict.set i (computed i) scores)
                              candidates [])) as [[s q]|] eqn:Em;
    [|cbn in H; discriminate].
  cbn [bind fst] in H.
  destruct (update_agent agents h s t0 cap t1) as [a'|] eqn:Eu;
    [|cbn in H; discriminate].
  cbn [bind] in H. injection H as -> ->.
  assert (Hin : In (sel, q) (fold_left (fun scores i => Dict.set i (computed i) scores)
                                       candidates [])).
  { unfold py_max in Em.
    destruct (fold_left (fun scores i => Dict.set i (computed i) scores) candidates [])
      as [|x items]; [discriminate|].
    injection Em as Em. rewrite <- Em. apply max_from_member. }
  assert (Hsel : In sel candidates).
  { destruct (scores_keys computed candidates [] sel) as [[] | Hs]; auto.
    change sel with (fst (sel, q)). now apply in_map. }
  exists candidates, lm, pm, q. auto 10.
Qed.

(** Two records that routing cannot tell apart. *)
Definition same_routing_data (a b : string * AgentMetadata) : Prop :=
  fst a = fst b /\
  capabilities (snd a) = capabilities (snd b) /\
  status (snd a) = status (snd b) /\
  load (snd a) = load (snd b) /\
  performance (snd a) = performance (snd b).

Lemma map_fst_filter_same (p : string * AgentMetadata -> bool) agents agents' :
  (forall a b, same_routing_data a b -> p a = p b) ->
  Forall2 same_routing_data agents agents' ->
  map fst (filter p agents) = map fst (filter p agents').
Proof.
  intros Hp H. induction H as [|a b l l' Hab _ IH]; simpl; auto.
  rewrite (Hp a b Hab). destruct (p b); simpl; [|exact IH].
  destruct Hab as [-> _]. now rewrite IH.
Qed.

Lemma collect_metrics_same metric agents agents' :
  (forall a b, same_routing_data a b -> metric (snd a) = metric (snd b)) ->
  Forall2 same_routing_data agents agents' ->
  forall acc, collect_metrics metric agents acc = collect_metrics metric agents' acc.
Proof.
  intros Hm H. induction H as [|[ka ma] [kb mb] l l' Hab _ IH]; intros acc; simpl; auto.
  pose proof (Hm _ _ Hab) as E. simpl in E. rewrite E.
  destruct Hab as [Hk _]. simpl in Hk. subst kb.
  destruct (metric mb); auto.
Qed.

Lemma agent_load_same fos a b :
  same_routing_data a b -> agent_load fos (snd a) = agent_load fos (snd b).
Proof. intros [_ [_ [_ [Hl Hp]]]]. unfold agent_load. now rewrite Hl, Hp. Qed.

Lemma agent_performance_same fos a b :
  same_routing_data a b -> agent_performance fos (snd a) = agent_performance fos (snd b).
Proof. intros [_ [_ [_ [_ Hp]]]]. unfold agent_performance. now rewrite Hp. Qed.

(** The write-back changes no field that routing reads, in whichever
    records share the object. *)
Lemma write_back_same agents h l t0 cap t1 :
  Forall2 same_routing_data
    (get_all_agents agents h)
    (get_all_agents agents (store h l (selected_for (h l) t0 cap t1))).
Proof.
  induction agents as [|[k l0] agents IH]; simpl; constructor; auto.
  unfold store. simpl. destruct (Nat.eqb l0 l) eqn:E.
  - apply Nat.eqb_eq in E. subst l0. repeat split.
  - repeat split.
Qed.

(** X6.  A successful [route_task] updates one dict object only, the
    record of the selected agent: it gets "last_selected", "current_task"
    (the capability) and a new "last_updated", and keeps its capabilities,
    status, load and performance.  The catalog's names and every other
    object are untouched, so an agent reads as before unless its record is
    the same object.  Since no metric has changed, routing the same
    capability again selects the same agent. *)
Theorem route_task_write_back :
  forall (float_of_str : string -> option float) (self : DecisionMaker)
         (agents : registry) (h h' : heap) (cap t0 t1 selected : string),
    route_task float_of_str self agents h cap t0 t1 = Ok (selected, h') ->
    exists l,
      get_agent agents selected = Some l /\
      h' l = selected_for (h l) t0 cap t1 /\
      (forall l', l' <> l -> h' l' = h l') /\
      (forall t2 t3, exists h'',
         route_task float_of_str self agents h' cap t2 t3 = Ok (selected, h'')).
Proof.
  intros fos self agents h h' cap t0 t1 sel H.
  apply route_task_steps in H.
  destruct H as [cands [lm [pm [best [Hc [Hl [Hp [Hk [Hm [Hin Hu]]]]]]]]]].
  unfold update_agent in Hu.
  destruct (Dict.get sel agents) as [l|] eqn:Eg; [|discriminate].
  injection Hu as <-. fold (selected_for (h l) t0 cap t1).
  exists l. split; [exact Eg|]. split; [apply store_same|].
  split; [intros l' Hl'; now apply store_other|].
  intros t2 t3.
  pose proof (write_back_same agents h l t0 cap t1) as Hsame.
  set (h1 := store h l (selected_for (h l) t0 cap t1)) in *.
  assert (Hc1 : get_candidate_agents agents h1 cap = Ok cands).
  { rewrite <- Hc. unfold get_candidate_agents. rewrite !Routing.filter_filter_and.
    rewrite <- (map_fst_filter_same (fun a => has_capability cap (snd a)) _ _
                  ltac:(intros a b [_ [E _]]; unfold has_capability; now rewrite E)
                  Hsame).
    rewrite <- (map_fst_filter_same
                  (fun a => has_capability cap (snd a) && is_active (snd a)) _ _
                  ltac:(intros a b [_ [E [E' _]]]; unfold has_capability, is_active;
                        now rewrite E, E')
                  Hsame).
    reflexivity. }
  unfold route_task. rewrite Hc1. cbn [bind].
  unfold get_load_metrics, get_performance_metrics in *.
  rewrite <- (collect_metrics_same (agent_load fos) _ _ (agent_load_same fos) Hsame), Hl.
  cbn [bind].
  rewrite <- (collect_metrics_same (agent_performance fos) _ _
                (agent_performance_same fos) Hsame), Hp.
  cbn [bind]. rewrite Hk. cbn [bind]. cbv zeta. rewrite Hm. cbn [bind fst].
  unfold update_agent. rewrite Eg. cbn [bind].
  eexists. reflexivity.
Qed.

Lemma route_task_write_back_witness :
  exists h' l,
    route_task no_float DecisionMaker_init example_agents example_heap
      "intent" "t0" "t1" = Ok ("agent1", h') /\
    get_agent example_agents "agent1" = Some l /\
    h' l = selected_for (example_heap l) "t0" "intent" "t1" /\
    (forall l', l' <> l -> h' l' = example_heap l') /\
    (forall t2 t3, exists h'',
       route_task no_float DecisionMaker_init example_agents h' "intent" t2 t3
       = Ok ("agent1", h'')).
Proof.
  eexists.
  assert (H : route_task no_float DecisionMaker_init example_agents example_heap
                "intent" "t0" "t1" = Ok ("agent1", _)) by (vm_compute; reflexivity).
  destruct (route_task_write_back _ _ _ _ _ _ _ _ _ H) as [l Hl].
  exists l. split; [exact H | exact Hl].
Defined.

(** ** Derived load *)

(** A float that is not below zero: a zero, a positive number, positive
    infinity, or a NaN. *)
Definition not_negative (x : float) : Prop := flt x zero = false.

(** A number that is not below zero. *)
Definition nonneg (n : number) : Prop :=
  match n with
  | Int z => (0 <= z)%Z
  | Float f => not_negative f
  end.

Lemma round_not_negative m e l :
  not_negative (binary_round_aux prec emax false m e l).
Proof.
  unfold not_negative, binary_round_aux.
  destruct (shr_fexp prec emax m e l) as [mrs' e'].
  destruct (shr_fexp prec emax _ e' loc_Exact) as [mrs'' e''].
  destruct (shr_m mrs''); [reflexivity | | reflexivity].
  destruct (Z.leb e'' (emax - prec)); reflexivity.
Qed.

Lemma fmul_not_negative x y :
  not_negative x -> not_negative y -> not_negative (fmul x y).
Proof.
  unfold not_negative, fmul.
  destruct x as [[]|[]| |[] mx ex], y as [[]|[]| |[] my ey];
    try discriminate; intros _ _; try reflexivity;
    apply round_not_negative.
Qed.

Lemma fdiv_not_negative x m e :
  not_negative x -> not_negative (fdiv x (S754_finite false m e)).
Proof.
  unfold not_negative, fdiv.
  destruct x as [[]|[]| |[] mx ex]; try discriminate; intros _; try reflexivity.
  unfold SFdiv.
  destruct (SFdiv_core_binary prec emax (Z.pos mx) ex (Z.pos m) e) as [[mz ez] lz].
  apply round_not_negative.
Qed.

Lemma float_of_int_not_negative z f :
  (0 <= z)%Z -> float_of_int z = Some f -> not_negative f.
Proof.
  intros Hz. unfold float_of_int, binary_normalize.
  destruct z as [|p|p]; [intros [= <-]; reflexivity | | lia].
  unfold binary_round.
  destruct (shl_align p 0 _) as [mz ez].
  pose proof (round_not_negative (Z.pos mz) ez loc_Exact) as H.
  destruct (binary_round_aux prec emax false (Z.pos mz) ez loc_Exact);
    intros E; cbn in E; try discriminate; inversion E; subst; exact H.
Qed.

Lemma int_truediv_not_negative z f :
  (0 <= z)%Z -> int_truediv z 10000 = Some f -> not_negative f.
Proof.
  intros Hz. unfold int_truediv. simpl Z.eqb. cbv iota.
  destruct z as [|p|p]; [intros [= <-]; reflexivity | | lia].
  assert (H : not_negative (fdiv (S754_finite false p 0) (S754_finite false 10000 0)))
    by (apply fdiv_not_negative; reflexivity).
  unfold fdiv in H. cbn [integer].
  destruct (SFdiv prec emax (S754_finite false p 0) (S754_finite false 10000 0));
    intros E; try discriminate; inversion E; subst; exact H.
Qed.

Lemma min_one_bounds x :
  fle (min_one x) one = true /\ is_nan (min_one x) = false /\
  (not_negative x -> not_negative (min_one x)).
Proof.
  unfold min_one. destruct (flt x one) eqn:E.
  - split; [now apply flt_fle|]. split; [|auto].
    destruct x; try reflexivity. discriminate.
  - repeat split.
Qed.

(** X7.  For an agent without an explicit "load" whose performance block
    gives "request_count" and "response_time_ms" as numbers that are not
    below zero, ints or floats: if the load is computed at all it is a
    double in [0, 1], never a NaN; and it is computed unless the product or
    the quotient by 10000 leaves the range of the doubles, which ends the
    retrieval with [InvalidMetrics].  The saturation at 1.0 also absorbs a
    quotient that is infinite or a NaN. *)
Theorem derived_load_saturates :
  forall (float_of_str : string -> option float) (md : AgentMetadata)
         (perf : Dict.t value) (vr va : value) (r a : number),
    load md = None ->
    performance md = Some (VDict perf) ->
    Dict.get "request_count" perf = Some vr ->
    Dict.get "response_time_ms" perf = Some va ->
    number_of vr = Some r -> number_of va = Some a ->
    nonneg r -> nonneg a ->
    match agent_load float_of_str md with
    | Some l =>
        flt l zero = false /\ fle l one = true /\ is_nan l = false /\
        exists product quotient,
          mul r a = Some product /\
          truediv product (Int 10000) = Some quotient /\
          l = if flt quotient one then quotient else one
    | None =>
        mul r a = None \/
        exists product, mul r a = Some product /\
                        truediv product (Int 10000) = None
    end.
Proof.
  intros fos md perf vr va r a Hl Hp Hr Ha Hnr Hna Hr0 Ha0.
  unfold agent_load. rewrite Hl, Hp, Hr, Ha, Hnr, Hna.
  destruct (mul r a) as [product|] eqn:Em; [|now left].
  destruct (truediv product (Int 10000)) as [quotient|] eqn:Ed; [|right; eauto].
  assert (Hq : not_negative quotient).
  { unfold mul in Em. unfold truediv in Ed.
    destruct r as [zr|fr], a as [za|fa]; simpl in *.
    - injection Em as <-. apply (int_truediv_not_negative (zr * za)); [nia | exact Ed].
    - destruct (float_of_int zr) as [xr|] eqn:Er; [|discriminate].
      injection Em as <-. simpl in Ed.
      change (float_of_int 10000) with (Some (S754_finite false 5497558138880000 (-39)))
        in Ed.
      cbv iota beta in Ed. simpl is_zero in Ed. cbv iota in Ed. injection Ed as <-.
      apply fdiv_not_negative. apply fmul_not_negative; auto.
      eapply float_of_int_not_negative; eauto.
    - destruct (float_of_int za) as [xa|] eqn:Ea'; [|discriminate].
      injection Em as <-. simpl in Ed.
      change (float_of_int 10000) with (Some (S754_finite false 5497558138880000 (-39)))
        in Ed.
      cbv iota beta in Ed. simpl is_zero in Ed. cbv iota in Ed. injection Ed as <-.
      apply fdiv_not_negative. apply fmul_not_negative; auto.
      eapply float_of_int_not_negative; eauto.
    - injection Em as <-. simpl in Ed.
      change (float_of_int 10000) with (Some (S754_finite false 5497558138880000 (-39)))
        in Ed.
      cbv iota beta in Ed. simpl is_zero in Ed. cbv iota in Ed. injection Ed as <-.
      apply fdiv_not_negative. apply fmul_not_negative; auto. }
  destruct (min_one_bounds quotient) as [H1 [H2 H3]].
  split; [exact (H3 Hq)|]. split; [exact H1|]. split; [exact H2|].
  exists product, quotient. auto.
Qed.

Lemma derived_load_saturates_witness :
  match agent_load no_float
          (agent ["intent"] "active"
             (Some (VDict [("success_rate", VFloat one); ("request_count", VInt 50);
                           ("response_time_ms", VFloat (literal 3005 10))])) None)
  with
  | Some l =>
      flt l zero = false /\ fle l one = true /\ is_nan l = false /\
      exists product quotient,
        mul (Int 50) (Float (literal 3005 10)) = Some product /\
        truediv product (Int 10000) = Some quotient /\
        l = if flt quotient one then quotient else one
  | None =>
      mul (Int 50) (Float (literal 3005 10)) = None \/
      exists product, mul (Int 50) (Float (literal 3005 10)) = Some product /\
                      truediv product (Int 10000) = None
  end.
Proof.
  apply (derived_load_saturates no_float _
           [("success_rate", VFloat one); ("request_count", VInt 50);
            ("response_time_ms", VFloat (literal 3005 10))]
           (VInt 50) (VFloat (literal 3005 10)));
    try reflexivity.
  simpl. lia.
Defined.

(** An int beyond the doubles: the load cannot be computed. *)
Example derived_load_overflow :
  agent_load no_float
    (agent ["intent"] "active"
       (Some (VDict [("request_count", VInt (10 ^ 400))])) None) = None /\
  agent_load no_float
    (agent ["intent"] "active"
       (Some (VDict [("request_count", VFloat (literal (2 ^ 1000) 1));
                     ("response_time_ms", VFloat (literal (2 ^ 1000) 1))])) None)
  = Some one.
Proof. split; vm_compute; reflexivity. Qed.

End Engine.

(* ================================================================== *)
(** * Tool selection and chains over Python's numbers [src/tools/base.py]

    [ToolRegistry.select_tool] and [ToolRegistry.execute_chain] compare
    doubles; here they are embedded with them, and with the exceptions of
    the arithmetic on a tool's metrics. *)

Module Selection.
Import Py.

Record ToolMetrics : Type := {
  execution_time : float;
  success_rate : float;
  last_execution : option string;
  total_executions : Z;
  failed_executions : Z
}.

Record ToolContext : Type := {
  intent : value;
  confidence : value;
  entities : value;
  metadata : value;
  chain_context : option value
}.

Record ToolResult : Type := {
  success : bool;
  data : Dict.t value;
  next_tools : list string;
  error_message : option string
}.

(** A tool: its name, the two abstract methods of its class and the
    instance attribute [metrics].  [can_handle] returns any value, or raises
    ([None]); [_execute_impl] returns a dict, or raises an exception whose
    text is [msg] ([Err msg]). *)
Record Tool : Type := {
  name : string;
  can_handle : ToolContext -> option value;
  _execute_impl : value -> ToolContext -> result string (Dict.t value);
  metrics : ToolMetrics
}.

(** [ToolRegistry._tools] *)
Definition registry : Type := Dict.t Tool.

(** [confidence * (0.8 + 0.2 * tool.metrics.success_rate)]; [None] is the
    [TypeError] of a product with something that is not a number, or the
    [OverflowError] of an int beyond the floats. *)
Definition adjusted_confidence (tool : Tool) (confidence : value) : option float :=
  match number_of confidence with
  | Some c =>
      match to_float c with
      | Some x =>
          Some (fmul x (fadd (literal 8 10)
                             (fmul (literal 2 10) (success_rate (metrics tool)))))
      | None => None
      end
  | None => None
  end.

(** The loop of [select_tool] over [self._tools.values()]; an exception in
    its body is logged and the loop goes on. *)
Fixpoint select_loop (tools : list Tool) (tool_context : ToolContext)
    (min_confidence : float) (best_tool : option Tool) (best_confidence : float)
    : option Tool :=
  match tools with
  | [] => best_tool
  | tool :: rest =>
      match can_handle tool tool_context with
      | Some confidence =>
          match adjusted_confidence tool confidence with
          | Some adjusted =>
              if flt best_confidence adjusted && fle min_confidence adjusted
              then select_loop rest tool_context min_confidence (Some tool) adjusted
              else select_loop rest tool_context min_confidence best_tool best_confidence
          | None =>
              select_loop rest tool_context min_confidence best_tool best_confidence
          end
      | None =>
          select_loop rest tool_context min_confidence best_tool best_confidence
      end
  end.

(** [context.get(key, default)] *)
Definition get_default (context : Dict.t value) (key : string) (default : value)
    : value :=
  match Dict.get key context with
  | Some v => v
  | None => default
  end.

(** The [ToolContext] that [select_tool] builds; [None] when [float]
    raises. *)
Definition make_tool_context (float_of_str : string -> option float)
    (context : Dict.t value) : option ToolContext :=
  match py_float float_of_str (get_default context "confidence" (VFloat zero)) with
  | Some c =>
      Some {| intent := get_default context "intent" (VStr "");
              confidence := VFloat c;
              entities := get_default context "entities" (VDict []);
              metadata := get_default context "metadata" (VDict []);
              chain_context := None |}
  | None => None
  end.

(** [ToolRegistry.select_tool].  [formats v] tells whether the f-string of
    a log message can format [v]: the two [logger.debug] calls before the
    loop format the intent and the metadata, and [str] or [repr] of a value
    that is nested too deep raises [RecursionError], which the outer
    [except] turns into the answer [None]. *)
Definition select_tool (float_of_str : string -> option float)
    (formats : value -> bool) (self : registry)
    (context : Dict.t value) (min_confidence : float) : option Tool :=
  match make_tool_context float_of_str context with
  | Some tool_context =>
      if formats (intent tool_context) && formats (metadata tool_context)
      then select_loop (map snd self) tool_context min_confidence None zero
      else None
  | None => None
  end.

(** Every value can be formatted. *)
Definition formats_all (v : value) : bool := true.

(** ** The adjusted confidence, in the words of the specification *)

(** [raw = tool.canHandle(context)], when it is a number. *)
Definition raw_score (tool : Tool) (tool_context : ToolContext) : option float :=
  match can_handle tool tool_context with
  | Some (VFloat f) => Some f
  | Some (VInt z) => float_of_int z
  | Some (VBool b) => float_of_int (if b then 1 else 0)
  | _ => None
  end.

(** [adjusted = raw * (0.8 + 0.2 * success_rate)], each operation rounded
    to a double. *)
Definition adjusted (tool : Tool) (tool_context : ToolContext) : option float :=
  match raw_score tool tool_context with
  | Some raw =>
      Some (fmul raw (fadd (literal 8 10)
                           (fmul (literal 2 10) (success_rate (metrics tool)))))
  | None => None
  end.

(** The tool gives no adjusted confidence: [can_handle] raises, or returns
    what cannot be multiplied. *)
Definition raises (tool_context : ToolContext) (tool : Tool) : bool :=
  match adjusted tool tool_context with
  | Some _ => false
  | None => true
  end.

(** ** Facts about selection *)

Lemma adjusted_confidence_adjusted tool ctx :
  adjusted tool ctx
  = match can_handle tool ctx with
    | Some confidence => adjusted_confidence tool confidence
    | None => None
    end.
Proof.
  unfold adjusted, raw_score, adjusted_confidence.
  destruct (can_handle tool ctx) as [[]|]; simpl; try reflexivity.
Qed.

(** The state of the loop after the tools [seen]: either no tool is held
    and none of them was eligible, or the first of the eligible tools with
    the greatest adjusted confidence is held. *)
Definition loop_state (ctx : ToolContext) (minc : float) (seen : list Tool)
    (best : option Tool) (bc : float) : Prop :=
  match best with
  | None =>
      bc = zero /\
      forall t a, In t seen -> adjusted t ctx = Some a ->
                  ~ (flt zero a = true /\ fle minc a = true)
  | Some b =>
      exists pre mid,
        seen = pre ++ b :: mid /\
        adjusted b ctx = Some bc /\
        flt zero bc = true /\ fle minc bc = true /\
        (forall t a, In t pre -> adjusted t ctx = Some a -> fle bc a = false) /\
        (forall t a, In t mid -> adjusted t ctx = Some a -> flt bc a = false)
  end.

Lemma loop_state_skip ctx minc seen best bc tool :
  loop_state ctx minc seen best bc ->
  (forall a, adjusted tool ctx = Some a ->
             flt bc a && fle minc a = false) ->
  loop_state ctx minc (seen ++ [tool]) best bc.
Proof.
  intros Hst Hno. destruct best as [b|]; simpl in *.
  - destruct Hst as [pre [mid [-> [Hb [H0 [Hm [Hpre Hmid]]]]]]].
    exists pre, (mid ++ [tool]). rewrite <- app_assoc. simpl.
    repeat split; auto.
    intros t a Hin Ha. apply in_app_or in Hin. destruct Hin as [Hin | [<- | []]];
      [eauto|].
    specialize (Hno a Ha). apply andb_false_iff in Hno.
    destruct (flt bc a) eqn:E; [|reflexivity].
    destruct Hno as [Hno | Hno]; [discriminate|].
    pose proof (fle_flt_trans _ _ _ Hm E) as H. apply flt_fle in H. congruence.
  - destruct Hst as [-> Hall]. split; [reflexivity|].
    intros t a Hin Ha. apply in_app_or in Hin. destruct Hin as [Hin | [<- | []]];
      [eauto|].
    specialize (Hno a Ha). intros [H1 H2]. rewrite H1, H2 in Hno. discriminate.
Qed.

Lemma loop_state_take ctx minc seen best bc tool a :
  loop_state ctx minc seen best bc ->
  adjusted tool ctx = Some a ->
  flt bc a = true -> fle minc a = true ->
  loop_state ctx minc (seen ++ [tool]) (Some tool) a.
Proof.
  intros Hst Ha Hgt Hge. simpl. exists seen, []. split; [reflexivity|].
  split; [exact Ha|].
  destruct best as [b|]; simpl in Hst.
  - destruct Hst as [pre [mid [-> [Hb [H0 [Hm [Hpre Hmid]]]]]]].
    split; [eapply flt_trans; eauto|]. split; [exact Hge|].
    split; [|intros t a' []].
    intros t a' Hin Ha'.
    destruct (fle a a') eqn:E; [exfalso|reflexivity].
    pose proof (flt_fle_trans _ _ _ Hgt E) as Hlt.
    apply in_app_or in Hin. destruct Hin as [Hin | [<- | Hin]].
    + apply flt_fle in Hlt. rewrite (Hpre _ _ Hin Ha') in Hlt. discriminate.
    + rewrite Hb in Ha'. injection Ha' as <-.
      apply flt_not_fle in Hgt. congruence.
    + rewrite (Hmid _ _ Hin Ha') in Hlt. discriminate.
  - destruct Hst as [-> Hall].
    split; [exact Hgt|]. split; [exact Hge|].
    split; [|intros t a' []].
    intros t a' Hin Ha'.
    destruct (fle a a') eqn:E; [exfalso|reflexivity].
    apply (Hall t a' Hin Ha'). split.
    + eapply flt_fle_trans; eauto.
    + eapply fle_trans; eauto.
Qed.

Lemma select_loop_state ctx minc tools : forall seen best bc,
  loop_state ctx minc seen best bc ->
  exists bc', loop_state ctx minc (seen ++ tools)
                (select_loop tools ctx minc best bc) bc'.
Proof.
  induction tools as [|tool rest IH]; intros seen best bc Hst; simpl.
  - rewrite app_nil_r. eauto.
  - replace (seen ++ tool :: rest) with ((seen ++ [tool]) ++ rest)
      by (rewrite <- app_assoc; reflexivity).
    pose proof (adjusted_confidence_adjusted tool ctx) as Ha.
    destruct (can_handle tool ctx) as [c|].
    + destruct (adjusted_confidence tool c) as [a|].
      * destruct (flt bc a && fle minc a) eqn:Et.
        -- apply andb_true_iff in Et. destruct Et as [Hgt Hge].
           apply IH. eapply loop_state_take; eauto.
        -- apply IH. apply loop_state_skip; auto.
           intros a' Ha'. rewrite Ha in Ha'. injection Ha' as <-. exact Et.
      * apply IH. apply loop_state_skip; auto. intros a'. rewrite Ha. discriminate.
    + apply IH. apply loop_state_skip; auto. intros a'. rewrite Ha. discriminate.
Qed.

(** A tool that gives no adjusted confidence is skipped: the loop runs as
    if it were not registered. *)
Lemma select_loop_without_raising ctx minc tools : forall best bc,
  select_loop tools ctx minc best bc
  = select_loop (filter (fun t => negb (raises ctx t)) tools) ctx minc best bc.
Proof.
  induction tools as [|tool rest IH]; intros best bc; simpl; auto.
  unfold raises at 1. rewrite (adjusted_confidence_adjusted tool ctx).
  destruct (can_handle tool ctx) as [c|] eqn:Ec; simpl.
  - destruct (adjusted_confidence tool c) as [a|] eqn:Ea; simpl.
    + rewrite Ec, Ea. destruct (_ && _); apply IH.
    + apply IH.
  - apply IH.
Qed.

(** The registry without the tools that give no adjusted confidence in a
    context. *)
Definition without_raising (tool_context : ToolContext) (self : registry) : registry :=
  filter (fun kv => negb (raises tool_context (snd kv))) self.

(** A tool with a fixed answer and a fixed success rate. *)
Definition scoring_tool (n : string) (answer : option value) (rate : float) : Tool :=
  {| name := n;
     can_handle := fun _ => answer;
     _execute_impl := fun _ _ => Ok [];
     metrics := {| execution_time := zero; success_rate := rate;
                   last_execution := None;
                   total_executions := 10; failed_executions := 0 |} |}.

(** The rate 0.9999999999999999, the double below 1.0. *)
Definition almost_one : float := literal 9007199254740991 9007199254740992.

(** C5, as stated, fails.  With [min_confidence = 0.0] a registered tool
    whose adjusted confidence is 0.0 reaches [min_confidence], and
    [select_tool] returns no tool.  And of two tools with the same raw score
    0.5 the one with the lower success rate is returned when it is
    registered first, since both adjusted confidences round to 0.5. *)
Lemma select_tool_counterexample :
  (exists ctx a,
     make_tool_context no_float [("intent", VStr "unknown_intent")] = Some ctx /\
     adjusted (scoring_tool "mock_tool" (Some (VFloat zero)) zero) ctx = Some a /\
     fle zero a = true /\
     select_tool no_float formats_all
       [("mock_tool", scoring_tool "mock_tool" (Some (VFloat zero)) zero)]
       [("intent", VStr "unknown_intent")] zero = None) /\
  (flt almost_one one = true /\
   select_tool no_float formats_all
     [("shaky", scoring_tool "shaky" (Some (VFloat (literal 1 2))) almost_one);
      ("solid", scoring_tool "solid" (Some (VFloat (literal 1 2))) one)]
     [("intent", VStr "search")] (literal 1 10)
   = Some (scoring_tool "shaky" (Some (VFloat (literal 1 2))) almost_one)).
Proof.
  split.
  - eexists _, _. split; [reflexivity|]. split; [reflexivity|].
    split; vm_compute; reflexivity.
  - split; vm_compute; reflexivity.
Qed.

(** C5, amended.  [select_tool] returns no tool when the context's
    confidence does not convert to a float, or when its intent or metadata
    cannot be formatted for the log.  Otherwise, with [adjusted] the double
    [raw * (0.8 + 0.2 * success_rate)] of a tool whose [can_handle] returns
    a number: a tool that is returned is registered, its adjusted
    confidence is at least [min_confidence] and greater than 0.0, no tool
    registered after it has a greater one, and for no tool [t'] registered
    before it does [adjusted <= adjusted t'] hold: it is the first of the
    tools with the greatest adjusted confidence.  No tool is returned
    exactly when no tool has an adjusted confidence that is both greater
    than 0.0 and at least [min_confidence].  Tools that give no adjusted
    confidence, because [can_handle] raises or returns no number, do not
    change the result. *)
Theorem select_tool_spec :
  forall (float_of_str : string -> option float) (formats : value -> bool)
         (self : registry) (context : Dict.t value) (min_confidence : float),
    let tools := map snd self in
    let selected := select_tool float_of_str formats self context min_confidence in
    (make_tool_context float_of_str context = None -> selected = None) /\
    (forall ctx, make_tool_context float_of_str context = Some ctx ->
       formats (intent ctx) && formats (metadata ctx) = false -> selected = None) /\
    (forall ctx, make_tool_context float_of_str context = Some ctx ->
       formats (intent ctx) && formats (metadata ctx) = true ->
       (forall t, selected = Some t ->
          exists pre post a,
            tools = pre ++ t :: post /\
            adjusted t ctx = Some a /\
            fle min_confidence a = true /\ flt zero a = true /\
            (forall t' a', In t' pre -> adjusted t' ctx = Some a' ->
                           fle a a' = false) /\
            (forall t' a', In t' post -> adjusted t' ctx = Some a' ->
                           flt a a' = false)) /\
       (selected = None <->
          forall t' a', In t' tools -> adjusted t' ctx = Some a' ->
                        ~ (flt zero a' = true /\ fle min_confidence a' = true)) /\
       selected
       = select_tool float_of_str formats (without_raising ctx self) context
                     min_confidence).
Proof.
  intros fos formats self context minc tools selected.
  unfold selected, select_tool. split; [|split].
  - intros ->. reflexivity.
  - intros ctx -> ->. reflexivity.
  - intros ctx -> ->. fold tools.
    destruct (select_loop_state ctx minc tools [] None zero) as [bc Hst].
    { split; [reflexivity|]. intros t a []. }
    simpl in Hst.
    split; [|split].
    + intros t Ht. rewrite Ht in Hst. simpl in Hst.
      destruct Hst as [pre [mid [Hs [Ha [H0 [Hm [Hpre Hmid]]]]]]].
      exists pre, mid, bc. auto 10.
    + split.
      * intros Hn. rewrite Hn in Hst. simpl in Hst. tauto.
      * intros Hall. destruct (select_loop tools ctx minc None zero) as [t|];
          [exfalso|reflexivity].
        simpl in Hst. destruct Hst as [pre [mid [Hs [Ha [H0 [Hm _]]]]]].
        apply (Hall t bc); [|exact Ha|auto].
        rewrite Hs. apply in_or_app. right. now left.
    + unfold without_raising.
      rewrite (Tools.map_snd_filter (fun t => negb (raises ctx t))).
      apply select_loop_without_raising.
Qed.

(** 0.7 * (0.8 + 0.2 * 0.0) is computed as 0.5599999999999999, which is
    below the threshold 0.56. *)
Example select_tool_below_threshold :
  select_tool no_float formats_all
    [("only", scoring_tool "only" (Some (VFloat (literal 7 10))) zero)]
    [("intent", VStr "search")] (literal 56 100)
  = None.
Proof. vm_compute. reflexivity. Qed.

Example select_tool_prefers_higher_adjusted :
  select_tool no_float formats_all
    [("broken", scoring_tool "broken" None one);
     ("shaky", scoring_tool "shaky" (Some (VFloat (literal 1 2))) (literal 5 10));
     ("solid", scoring_tool "solid" (Some (VFloat (literal 1 2))) (literal 9 10))]
    [("intent", VStr "search")] (literal 1 10)
  = Some (scoring_tool "solid" (Some (VFloat (literal 1 2))) (literal 9 10)).
Proof. vm_compute. reflexivity. Qed.

(** ** Execution and chains *)

Definition with_metrics (self : Tool) (m : ToolMetrics) : Tool :=
  {| name := name self; can_handle := can_handle self;
     _execute_impl := _execute_impl self; metrics := m |}.

(** The [except] branch of [Tool.execute], entered with the metrics [m]
    that the [try] block has reached and the text [e] of the exception.
    The result is [None] when the division of this branch raises in turn,
    which ends [execute] with that exception. *)
Definition execute_failed (self : Tool) (m : ToolMetrics) (e : string)
    : option ToolResult * Tool :=
  let total := total_executions m in
  let failed := (failed_executions m + 1)%Z in
  match int_truediv (total - failed) (Z.max total 1) with
  | Some rate =>
      (Some {| success := false; data := []; next_tools := [];
               error_message := Some e |},
       with_metrics self
         {| execution_time := execution_time m; success_rate := rate;
            last_execution := last_execution m;
            total_executions := total; failed_executions := failed |})
  | None =>
      (None,
       with_metrics self
         {| execution_time := execution_time m; success_rate := success_rate m;
            last_execution := last_execution m;
            total_executions := total; failed_executions := failed |})
  end.

(** [Tool.execute]: the result, [None] when the call raises, and the tool
    with its metrics as the call leaves them.  [elapsed] is
    [time.time() - start_time], [now] is [datetime.now()].  An exception in
    the [try] block, from the tool's logic or from the arithmetic on the
    metrics, is handled by the [except] branch. *)
Definition execute (self : Tool) (params : value) (context : ToolContext)
    (elapsed : float) (now : string) : option ToolResult * Tool :=
  let m := metrics self in
  let total := (total_executions m + 1)%Z in
  let counted :=
    {| execution_time := execution_time m; success_rate := success_rate m;
       last_execution := last_execution m;
       total_executions := total; failed_executions := failed_executions m |} in
  match _execute_impl self params context with
  | Err e => execute_failed self counted e
  | Ok result =>
      match float_of_int (total - 1), float_of_int total with
      | Some before, Some count =>
          if is_zero count
          then execute_failed self counted "float division by zero"
          else
            let average :=
              fdiv (fadd (fmul (execution_time m) before) elapsed) count in
            match int_truediv (total - failed_executions m) total with
            | Some rate =>
                (Some {| success := true; data := result; next_tools := [];
                         error_message := None |},
                 with_metrics self
                   {| execution_time := average; success_rate := rate;
                      last_execution := Some now;
                      total_executions := total;
                      failed_executions := failed_executions m |})
            | None =>
                execute_failed self
                  {| execution_time := average; success_rate := success_rate m;
                     last_execution := Some now;
                     total_executions := total;
                     failed_executions := failed_executions m |}
                  "integer division result too large for a float"
            end
      | _, _ => execute_failed self counted "int too large to convert to float"
      end
  end.

(** [ToolRegistry], by the two attributes that chains use. *)
Record ToolRegistry : Type := {
  _tools : registry;
  _chain_definitions : Dict.t (list (string * float))
}.

(** [ToolRegistry.define_chain] *)
Definition define_chain (self : ToolRegistry) (intent_ : string)
    (chain : list (string * float)) : ToolRegistry :=
  {| _tools := _tools self;
     _chain_definitions := Dict.set intent_ chain (_chain_definitions self) |}.

(** [d.update(updates)] *)
Definition dict_update (d updates : Dict.t value) : Dict.t value :=
  fold_left (fun acc kv => Dict.set (fst kv) (snd kv) acc) updates d.

(** The [ToolContext] built for each tool of the chain. *)
Definition chain_tool_context (context : Dict.t value) (chain_ctx : Dict.t value)
    : ToolContext :=
  {| intent := get_default context "intent" (VStr "");
     confidence := get_default context "confidence" (VFloat zero);
     entities := get_default context "entities" (VDict []);
     metadata := get_default context "metadata" (VDict []);
     chain_context := Some (VDict chain_ctx) |}.

(** The loop of [execute_chain]: the results, [None] when a call of
    [execute] raises, and the tools afterwards.  [timing k] gives the two
    clock readings of the [k]-th execution.  The executed tool is the
    object held by the registry, so its new metrics are the registry's. *)
Fixpoint chain_loop (tools : registry) (chain : list (string * float))
    (context chain_ctx : Dict.t value) (timing : nat -> float * string) (k : nat)
    : option (list ToolResult) * registry :=
  match chain with
  | [] => (Some [], tools)
  | (tool_name, threshold) :: rest =>
      match Dict.get tool_name tools with
      | None => chain_loop tools rest context chain_ctx timing k
      | Some tool =>
          let outcome :=
            execute tool (get_default context "params" (VDict []))
                    (chain_tool_context context chain_ctx)
                    (fst (timing k)) (snd (timing k)) in
          let tools' := Dict.set tool_name (snd outcome) tools in
          match fst outcome with
          | None => (None, tools')
          | Some result =>
              if negb (success result)
                 || flt (success_rate (metrics (snd outcome))) threshold
              then (Some [result], tools')
              else
                let later :=
                  chain_loop tools' rest context
                             (dict_update chain_ctx (data result)) timing (S k) in
                (option_map (cons result) (fst later), snd later)
          end
      end
  end.

(** Whether a value can be looked up in a dict; a list or a dict raises
    [TypeError]. *)
Definition hashable (v : value) : bool :=
  match v with
  | VList _ | VDict _ => false
  | _ => true
  end.

(** [self._chain_definitions[intent]], when [intent] is among the keys. *)
Definition chain_of (self : ToolRegistry) (intent_ : value)
    : option (list (string * float)) :=
  match intent_ with
  | VStr s => Dict.get s (_chain_definitions self)
  | _ => None
  end.

(** [ToolRegistry.execute_chain]: the results, [None] when the call raises,
    and the registry afterwards. *)
Definition execute_chain (self : ToolRegistry) (context : Dict.t value)
    (timing : nat -> float * string) : option (list ToolResult) * ToolRegistry :=
  let intent_ := get_default context "intent" (VStr "") in
  if hashable intent_ then
    match chain_of self intent_ with
    | None => (Some [], self)
    | Some chain =>
        let run := chain_loop (_tools self) chain context [] timing 0 in
        (fst run,
         {| _tools := snd run; _chain_definitions := _chain_definitions self |})
    end
  else (None, self).

(** The entries of a chain whose tool is registered. *)
Definition registered_entries (tools : registry) (chain : list (string * float))
    : list (string * float) :=
  filter (fun e => Dict.mem (fst e) tools) chain.

(** *** The chain as a sequence of outcomes *)

(** What running every entry of a chain would give, each tool in the state
    in which the registry holds it when the chain starts and each with the
    chain context accumulated from the results before it: the result, the
    tool after the call and the entry's threshold.  An entry without a
    registered tool gives nothing. *)
Fixpoint outcomes (tools : registry) (chain : list (string * float))
    (context chain_ctx : Dict.t value) (timing : nat -> float * string) (k : nat)
    : list (option ToolResult * Tool * float) :=
  match chain with
  | [] => []
  | (tool_name, threshold) :: rest =>
      match Dict.get tool_name tools with
      | None => outcomes tools rest context chain_ctx timing k
      | Some tool =>
          let outcome :=
            execute tool (get_default context "params" (VDict []))
                    (chain_tool_context context chain_ctx)
                    (fst (timing k)) (snd (timing k)) in
          (fst outcome, snd outcome, threshold)
          :: outcomes tools rest context
               (match fst outcome with
                | Some result => dict_update chain_ctx (data result)
                | None => chain_ctx
                end)
               timing (S k)
      end
  end.

(** The call raised. *)
Definition raised (o : option ToolResult * Tool * float) : bool :=
  match fst (fst o) with
  | Some _ => false
  | None => true
  end.

(** The circuit breaker: the call raised or failed, or left the success
    rate of its tool below the threshold. *)
Definition breaks (o : option ToolResult * Tool * float) : bool :=
  match fst (fst o) with
  | Some result =>
      negb (success result) || flt (success_rate (metrics (snd (fst o)))) (snd o)
  | None => true
  end.

(** The results of a run of calls: the list that [execute_chain] returns,
    or [None] when one of the calls raised. *)
Fixpoint results_of (ran : list (option ToolResult * Tool * float))
    : option (list ToolResult) :=
  match ran with
  | [] => Some []
  | o :: rest =>
      match fst (fst o) with
      | Some result => option_map (cons result) (results_of rest)
      | None => None
      end
  end.

(** The items of a list up to the first one that satisfies [p], that one
    included. *)
Fixpoint through {A : Type} (p : A -> bool) (l : list A) : list A :=
  match l with
  | [] => []
  | x :: rest => if p x then [x] else x :: through p rest
  end.

(** The results of the loop depend on the tools that the chain names. *)
Lemma chain_loop_results_ext chain context timing : forall tools1 tools2 chain_ctx k,
  (forall n, In n (map fst chain) -> Dict.get n tools1 = Dict.get n tools2) ->
  fst (chain_loop tools1 chain context chain_ctx timing k)
  = fst (chain_loop tools2 chain context chain_ctx timing k).
Proof.
  induction chain as [|[tool_name threshold] rest IH];
    intros tools1 tools2 chain_ctx k H; simpl; auto.
  rewrite <- (H tool_name (or_introl eq_refl)).
  destruct (Dict.get tool_name tools1) as [tool|].
  - destruct (fst (execute tool _ _ _ _)) as [result|]; [|reflexivity].
    destruct (negb _ || _); [reflexivity|]. cbn [fst]. f_equal.
    apply IH. intros n Hn.
    destruct (String.eqb tool_name n) eqn:E.
    + apply String.eqb_eq in E. subst n. now rewrite !get_set_eq.
    + apply String.eqb_neq in E. rewrite !get_set_neq by exact E.
      apply H. now right.
  - apply IH. intros n Hn. apply H. now right.
Qed.

Lemma chain_loop_outcomes chain context timing : forall tools chain_ctx k,
  NoDup (map fst chain) ->
  fst (chain_loop tools chain context chain_ctx timing k)
  = results_of (through breaks (outcomes tools chain context chain_ctx timing k)).
Proof.
  induction chain as [|[tool_name threshold] rest IH];
    intros tools chain_ctx k ND; simpl; auto.
  inversion ND as [|? ? Hn ND']; subst.
  destruct (Dict.get tool_name tools) as [tool|] eqn:Eg; [|now apply IH].
  cbn [through]. unfold breaks at 1. cbn [fst snd].
  destruct (fst (execute tool _ _ _ _)) as [result|] eqn:Er; [|reflexivity].
  destruct (negb _ || _); [reflexivity|].
  cbn [results_of fst]. f_equal.
  rewrite <- (IH tools _ _ ND').
  apply chain_loop_results_ext. intros n Hin.
  apply get_set_neq. intros ->. contradiction.
Qed.

Lemma through_spec {A : Type} (p : A -> bool) (l : list A) :
  exists rest,
    l = through p l ++ rest /\
    Forall (fun x => p x = false) (removelast (through p l)) /\
    (rest <> [] -> exists x, last (through p l) x = x /\ In x (through p l) /\ p x = true).
Proof.
  induction l as [|x l [rest [H1 [H2 H3]]]]; simpl.
  - exists []. repeat split; auto. congruence.
  - destruct (p x) eqn:E.
    + exists l. simpl. repeat split; auto. intros _. exists x. auto.
    + exists rest. split; [simpl; now rewrite <- H1|]. split.
      * destruct (through p l) eqn:Et; simpl; [constructor|].
        constructor; [exact E | exact H2].
      * intros Hr. destruct (H3 Hr) as [y [Hl [Hin Hp]]].
        exists y. destruct (through p l) eqn:Et; [contradiction|].
        split; [exact Hl|]. split; [now right | exact Hp].
Qed.

Lemma results_of_None ran :
  results_of ran = None <-> exists o, In o ran /\ raised o = true.
Proof.
  unfold raised. induction ran as [|o ran IH]; simpl.
  - split; [discriminate | intros [o [[] _]]].
  - destruct (fst (fst o)) as [result|] eqn:E.
    + destruct (results_of ran) as [l|]; simpl.
      * split; [discriminate|]. intros [o' [[<- | Hin] Hr]].
        -- rewrite E in Hr. discriminate.
        -- assert (H : Some l = None) by (apply IH; eauto). discriminate.
      * split; [|reflexivity]. intros _.
        destruct (proj1 IH eq_refl) as [o' [Hin Hr]]. eauto.
    + split; [|reflexivity]. intros _. exists o. rewrite E. auto.
Qed.

Lemma outcomes_registered tools chain context timing : forall chain_ctx k,
  outcomes tools (registered_entries tools chain) context chain_ctx timing k
  = outcomes tools chain context chain_ctx timing k /\
  List.length (outcomes tools chain context chain_ctx timing k)
  = List.length (registered_entries tools chain).
Proof.
  induction chain as [|[n t] chain IH]; intros chain_ctx k; simpl; auto.
  unfold Dict.mem. destruct (Dict.get n tools) eqn:E; simpl.
  - rewrite E.
    destruct (IH (match fst (execute t0 (get_default context "params" (VDict []))
                               (chain_tool_context context chain_ctx)
                               (fst (timing k)) (snd (timing k))) with
                  | Some result => dict_update chain_ctx (data result)
                  | None => chain_ctx
                  end) (S k)) as [-> ->].
    auto.
  - apply IH.
Qed.

(** X15.  [execute_chain] raises when the context's intent cannot be looked
    up, and returns nothing, leaving the registry as it is, for an intent
    without a chain.  For a chain that names no tool twice, it runs the
    registered tools of the chain in chain order, each from the state in
    which the registry holds it and each with the data of the results
    before it as chain context, and it stops after the first call that
    raised, failed or left the success rate of its tool below the entry's
    threshold: the entries without a registered tool are skipped, every
    call before the last one returned a success and kept its tool at or
    above the threshold, and when the chain was cut short the last call did
    not.  The results of these calls are returned, unless the last call
    raised, in which case [execute_chain] raises. *)
Theorem execute_chain_stops_at_first_failure :
  forall (self : ToolRegistry) (context : Dict.t value)
         (timing : nat -> float * string),
    let intent_ := get_default context "intent" (VStr "") in
    let results := fst (execute_chain self context timing) in
    (hashable intent_ = false -> execute_chain self context timing = (None, self)) /\
    (hashable intent_ = true -> chain_of self intent_ = None ->
     execute_chain self context timing = (Some [], self)) /\
    (forall chain,
       hashable intent_ = true -> chain_of self intent_ = Some chain ->
       NoDup (map fst chain) ->
       let all := outcomes (_tools self) chain context [] timing 0 in
       outcomes (_tools self) (registered_entries (_tools self) chain) context []
                timing 0
       = all /\
       List.length all = List.length (registered_entries (_tools self) chain) /\
       exists ran rest,
         all = ran ++ rest /\
         results = results_of ran /\
         (results = None <-> exists o, In o ran /\ raised o = true) /\
         (all <> [] -> ran <> []) /\
         Forall (fun o => breaks o = false) (removelast ran) /\
         (rest <> [] -> exists o, In o ran /\ last ran o = o /\ breaks o = true)).
Proof.
  intros self context timing intent_ results. unfold results, execute_chain.
  fold intent_. split; [intros ->; reflexivity|].
  split; [intros -> ->; reflexivity|].
  intros chain Hh Hc ND. rewrite Hh, Hc. cbn [fst].
  set (all := outcomes (_tools self) chain context [] timing 0).
  destruct (outcomes_registered (_tools self) chain context timing [] 0%nat)
    as [Hreg Hlen].
  split; [exact Hreg|]. split; [exact Hlen|].
  rewrite (chain_loop_outcomes chain context timing (_tools self) [] 0%nat ND).
  fold all.
  destruct (through_spec breaks all) as [rest [H1 [H2 H3]]].
  exists (through breaks all), rest.
  split; [exact H1|]. split; [reflexivity|].
  split; [apply results_of_None|].
  split.
  - destruct all as [|o all']; [congruence|]. intros _. simpl.
    destruct (breaks o); discriminate.
  - split; [exact H2|]. intros Hr. destruct (H3 Hr) as [o [Hl [Hin Hb]]]. eauto.
Qed.

(** A tool with given logic and counters. *)
Definition counting_tool (n : string)
    (logic : result string (Dict.t value)) (total failed : Z) (rate : float) : Tool :=
  {| name := n;
     can_handle := fun _ => Some (VFloat one);
     _execute_impl := fun _ _ => logic;
     metrics := {| execution_time := zero; success_rate := rate;
                   last_execution := None;
                   total_executions := total; failed_executions := failed |} |}.

Definition chain_registry (chain : list (string * float)) : ToolRegistry :=
  {| _tools := [("fetch", counting_tool "fetch" (Ok [("page", VInt 1)]) 5 1 (literal 8 10));
                ("parse", counting_tool "parse" (Err "no parse") 0 0 zero);
                ("store", counting_tool "store" (Ok []) 0 0 zero)];
     _chain_definitions := [("ingest", chain)] |}.

(** The second tool fails: the third is not run. *)
Example execute_chain_cut_short :
  option_map (map success)
    (fst (execute_chain
            (chain_registry [("fetch", literal 5 10); ("missing", literal 5 10);
                             ("parse", literal 5 10); ("store", literal 5 10)])
            [("intent", VStr "ingest")] (fun _ => (literal 1 100, "t"))))
  = Some [true; false].
Proof. vm_compute. reflexivity. Qed.

(** After its sixth call, the fifth success, the rate of "fetch" is the
    double 0.8333333333333334; it is not below a threshold that is this
    double, and the chain goes on; it is below the next double. *)
Example execute_chain_rate_at_threshold :
  option_map (map success)
    (fst (execute_chain
            (chain_registry [("fetch", literal 5 6); ("store", literal 5 10)])
            [("intent", VStr "ingest")] (fun _ => (literal 1 100, "t"))))
  = Some [true; true] /\
  option_map (map success)
    (fst (execute_chain
            (chain_registry [("fetch", literal 8333333333333335 10000000000000000);
                             ("store", literal 5 10)])
            [("intent", VStr "ingest")] (fun _ => (literal 1 100, "t"))))
  = Some [true].
Proof. split; vm_compute; reflexivity. Qed.

(** A counter beyond the floats: the [except] branch raises in turn, and
    so does the chain. *)
Example execute_chain_raises :
  fst (execute_chain
         {| _tools := [("fetch", counting_tool "fetch" (Ok []) 0 (- 10 ^ 400) zero)];
            _chain_definitions := [("ingest", [("fetch", literal 5 10)])] |}
         [("intent", VStr "ingest")] (fun _ => (literal 1 100, "t")))
  = None.
Proof. vm_compute. reflexivity. Qed.

End Selection.

(* ================================================================== *)
(** * Session contexts as shared dict objects
    [src/context/context_manager.py]

    [recursive_update] changes its first argument in place and stores the
    dicts of the update by reference, and [update_partial_context] passes
    it the dict held in the store.  Here a dict is an object in a heap and
    a value that is a dict is a reference to it, so that two keys, or the
    store and a caller, can hold the same dict.  The function runs with a
    bounded number of stack frames, as the interpreter's recursion limit
    has it.  Keys are strings and values are JSON-like. *)

Module ContextObjects.

Definition loc : Type := nat.
Bind Scope nat_scope with loc.

#[warnings="-register-all"]
Inductive value : Type :=
| VNull
| VBool (b : bool)
| VNum (q : Q)
| VStr (s : string)
| VList (items : list value)
| VRef (l : loc).

(** The entries of one dict object, in insertion order. *)
Definition object : Type := Dict.t value.

Definition heap : Type := loc -> object.

Definition write (h : heap) (l : loc) (o : object) : heap :=
  fun l' => if Nat.eqb l' l then o else h l'.

(** [d[key] = v] on the dict object at [l]. *)
Definition set_item (h : heap) (l : loc) (key : string) (v : value) : heap :=
  write h l (Dict.set key v (h l)).

Inductive error : Type :=
| RecursionError
| RuntimeError.

Section Loop.
(** The call [recursive_update(original.get(key, {}), value)] of line 22. *)
Variable call : heap -> loc -> loc -> heap * option error.

(** The [for] loop over [updates.items()], at position [i] of a dict that
    had [n] entries when the iteration began.  The iterator reads the dict
    as it is at each step: a dict whose size has changed raises
    [RuntimeError], and the loop ends when the position is past the last
    entry.  [steps] bounds the number of steps, which never exceeds
    [n + 1]. *)
Fixpoint update_loop (steps i n : nat) (h : heap) (original updates : loc)
    : heap * option error :=
  match steps with
  | O => (h, None)
  | S steps' =>
      if negb (Nat.eqb (List.length (h updates)) n) then (h, Some RuntimeError)
      else
        match nth_error (h updates) i with
        | None => (h, None)
        | Some (key, value) =>
            match value, Dict.get key (h original) with
            | VRef u, Some (VRef o) =>
                match call h o u with
                | (h', Some e) => (h', Some e)
                | (h', None) =>
                    update_loop steps' (S i) n (set_item h' original key (VRef o))
                                original updates
                end
            | _, _ =>
                update_loop steps' (S i) n (set_item h original key value)
                            original updates
            end
        end
  end.
End Loop.

(** [recursive_update(original, updates)] with [depth] stack frames left:
    the changed heap, and the exception if one is raised.  The dict
    returned is [original] itself. *)
Fixpoint recursive_update (depth : nat) (h : heap) (original updates : loc)
    : heap * option error :=
  match depth with
  | O => (h, Some RecursionError)
  | S depth' =>
      update_loop (recursive_update depth') (S (List.length (h updates))) 0
                  (List.length (h updates)) h original updates
  end.

(** One delivered callback: [callback(session_id, event_type, data)]. *)
Record notification : Type := {
  listener : string;
  session_id : string;
  event_type : string;
  payload : value
}.

(** A [ContextManager]; the store maps a session to its dict object. *)
Record ContextManager : Type := {
  use_redis : bool;
  event_emission_enabled : bool;
  _event_listeners : list string;
  _context_store : Dict.t loc;
  delivered : list notification
}.

Definition with_store (self : ContextManager) (store : Dict.t loc) : ContextManager :=
  {| use_redis := use_redis self;
     event_emission_enabled := event_emission_enabled self;
     _event_listeners := _event_listeners self;
     _context_store := store;
     delivered := delivered self |}.

Definition _emit_event (self : ContextManager) (sid type : string) (data : value)
    : ContextManager :=
  if event_emission_enabled self then
    {| use_redis := use_redis self;
       event_emission_enabled := event_emission_enabled self;
       _event_listeners := _event_listeners self;
       _context_store := _context_store self;
       delivered := delivered self
                    ++ map (fun callback =>
                              {| listener := callback; session_id := sid;
                                 event_type := type; payload := data |})
                           (_event_listeners self) |}
  else self.

(** How a call ends.  With [use_redis] the call goes to the Redis client,
    which is not part of this development. *)
Inductive outcome : Type :=
| Returned (self : ContextManager) (h : heap)
| Raised (e : error) (self : ContextManager) (h : heap)
| OnRedis.

Section Interpreter.
(** The stack frames left for [recursive_update] when
    [update_partial_context] calls it. *)
Variable depth : nat.
(** Whether [print] of line 140 formats the update; it raises
    [RecursionError] on a tree that is too deep for [repr]. *)
Variable prints : heap -> loc -> bool.

(** [update_partial_context(session_id, partial_context)] on the in-memory
    store.  [fresh] is the address of the dict built for a session that is
    not in the store, [created] and [now] are the readings of
    [time.time()]. *)
Definition update_partial_context (self : ContextManager) (h : heap) (sid : string)
    (partial_context fresh : loc) (created now : Q) : outcome :=
  if use_redis self then OnRedis
  else
    let '(self, h, context) :=
      match Dict.get sid (_context_store self) with
      | Some context => (self, h, context)
      | None =>
          (with_store self (Dict.set sid fresh (_context_store self)),
           write h fresh [("_timestamp", VNum created)], fresh)
      end in
    match recursive_update depth h context partial_context with
    | (h, Some e) => Raised e self h
    | (h, None) =>
        let h := set_item h context "_timestamp" (VNum now) in
        if prints h partial_context
        then Returned (_emit_event self sid "update_partial" (VRef partial_context)) h
        else Raised RecursionError self h
    end.
End Interpreter.

(** [get_context(session_id)]: a copy of the entries of the session's dict. *)
Definition get_context (self : ContextManager) (h : heap) (sid : string) : object :=
  match Dict.get sid (_context_store self) with
  | Some context => h context
  | None => []
  end.

(** The manager and the heap that a call leaves behind. *)
Definition state_after (o : outcome) : option (ContextManager * heap) :=
  match o with
  | Returned self h => Some (self, h)
  | Raised _ self h => Some (self, h)
  | OnRedis => None
  end.

(** ** Reading a heap as a tree *)

(** [repr h v j f]: in heap [h] the value [v] reads as the tree [j], and
    [f] lists the dict objects visited, one entry per visit. *)
Inductive repr (h : heap) : value -> json -> list loc -> Prop :=
| repr_null : repr h VNull JNull []
| repr_bool b : repr h (VBool b) (JBool b) []
| repr_num q : repr h (VNum q) (JNum q) []
| repr_str s : repr h (VStr s) (JStr s) []
| repr_list items js f :
    repr_items h items js f -> repr h (VList items) (JList js) f
| repr_ref l d f :
    repr_dict h (h l) d f -> repr h (VRef l) (JDict d) (l :: f)
with repr_items (h : heap) : list value -> list json -> list loc -> Prop :=
| repr_items_nil : repr_items h [] [] []
| repr_items_cons v items j js f fs :
    repr h v j f -> repr_items h items js fs ->
    repr_items h (v :: items) (j :: js) (f ++ fs)
with repr_dict (h : heap) : object -> Dict.t json -> list loc -> Prop :=
| repr_dict_nil : repr_dict h [] [] []
| repr_dict_cons key v o j d f fs :
    repr h v j f -> repr_dict h o d fs ->
    repr_dict h ((key, v) :: o) ((key, j) :: d) (f ++ fs).

Scheme repr_ind' := Minimality for repr Sort Prop
  with repr_items_ind' := Minimality for repr_items Sort Prop
  with repr_dict_ind' := Minimality for repr_dict Sort Prop.
Combined Scheme repr_mutind from repr_ind', repr_items_ind', repr_dict_ind'.

(** How many dicts are nested along the deepest path of a tree; a list
    ends a path, as [recursive_update] does not enter lists. *)
Fixpoint nesting (j : json) : nat :=
  match j with
  | JDict d =>
      S ((fix entries (d : list (string * json)) : nat :=
            match d with
            | [] => 0%nat
            | (_, v) :: rest => Nat.max (nesting v) (entries rest)
            end) d)
  | _ => 0
  end.

Definition entries_nesting (d : Dict.t json) : nat :=
  fold_right (fun e n => Nat.max (nesting (snd e)) n) 0%nat d.

Definition disjoint (A B : list loc) : Prop := forall a, In a A -> In a B -> False.

(** ** Lists of locations *)

Lemma NoDup_app_iff (A B : list loc) :
  NoDup (A ++ B) <-> NoDup A /\ NoDup B /\ disjoint A B.
Proof.
  unfold disjoint. induction A as [|x A IH]; simpl.
  - split; [intros H; repeat split; [constructor | exact H | tauto] | tauto].
  - rewrite !NoDup_cons_iff, IH, in_app_iff. split.
    + intros [Hx [HA [HB HD]]]. repeat split; auto.
      intros a [<- | Ha] Hb; [tauto | eauto].
    + intros [[Hx HA] [HB HD]]. repeat split; auto.
      * intros [H | H]; [tauto | eapply HD; eauto].
      * intros a Ha Hb. eapply HD; eauto.
Qed.

Lemma disjoint_sym A B : disjoint A B -> disjoint B A.
Proof. unfold disjoint. eauto. Qed.

Lemma disjoint_app_l A B C : disjoint (A ++ B) C <-> disjoint A C /\ disjoint B C.
Proof.
  unfold disjoint. split.
  - intros H. split; intros a Ha Hc; apply (H a); auto; apply in_or_app; auto.
  - intros [H1 H2] a Ha Hc. apply in_app_or in Ha. destruct Ha; eauto.
Qed.

Lemma disjoint_app_r A B C : disjoint A (B ++ C) <-> disjoint A B /\ disjoint A C.
Proof.
  unfold disjoint. split.
  - intros H. split; intros a Ha Hc; apply (H a); auto; apply in_or_app; auto.
  - intros [H1 H2] a Ha Hc. apply in_app_or in Hc. destruct Hc; eauto.
Qed.

Lemma disjoint_cons_l x A C : disjoint (x :: A) C <-> ~ In x C /\ disjoint A C.
Proof.
  unfold disjoint. simpl. split.
  - intros H. split; [intros Hc; apply (H x); auto | intros a Ha Hc; apply (H a); auto].
  - intros [H1 H2] a [<- | Ha] Hc; eauto.
Qed.

Lemma disjoint_cons_r x A C : disjoint A (x :: C) <-> ~ In x A /\ disjoint A C.
Proof.
  unfold disjoint. simpl. split.
  - intros H. split; [intros Hc; apply (H x); auto | intros a Ha Hc; apply (H a); auto].
  - intros [H1 H2] a Ha [<- | Hc]; eauto.
Qed.

Lemma disjoint_nil_l C : disjoint [] C <-> True.
Proof. unfold disjoint. simpl. tauto. Qed.

Lemma disjoint_nil_r A : disjoint A [] <-> True.
Proof. unfold disjoint. simpl. split; auto. Qed.

Lemma not_in_app (x : loc) A B : ~ In x (A ++ B) <-> ~ In x A /\ ~ In x B.
Proof. rewrite in_app_iff. tauto. Qed.

Lemma not_in_cons_iff (x y : loc) A : ~ In x (y :: A) <-> y <> x /\ ~ In x A.
Proof. simpl. tauto. Qed.

Lemma not_in_nil_iff (x : loc) : ~ In x [] <-> True.
Proof. simpl. tauto. Qed.

Lemma NoDup_nil_iff : NoDup (@nil loc) <-> True.
Proof. split; auto. constructor. Qed.

Lemma disjoint_incl_l A' A C : incl A' A -> disjoint A C -> disjoint A' C.
Proof. unfold disjoint, incl. eauto. Qed.

Lemma disjoint_incl_r A C' C : incl C' C -> disjoint A C -> disjoint A C'.
Proof. unfold disjoint, incl. eauto. Qed.

Lemma not_in_incl (x : loc) A' A : incl A' A -> ~ In x A -> ~ In x A'.
Proof. unfold incl. eauto. Qed.

(** Normal form of separation facts: [NoDup] and [disjoint] of atoms. *)
Ltac sep_hyps :=
  repeat match goal with
  | H : _ /\ _ |- _ => destruct H
  | H : True |- _ => clear H
  | H : NoDup (_ ++ _) |- _ => rewrite NoDup_app_iff in H
  | H : NoDup (_ :: _) |- _ => rewrite NoDup_cons_iff in H
  | H : NoDup [] |- _ => clear H
  | H : disjoint (_ ++ _) _ |- _ => rewrite disjoint_app_l in H
  | H : disjoint _ (_ ++ _) |- _ => rewrite disjoint_app_r in H
  | H : disjoint (_ :: _) _ |- _ => rewrite disjoint_cons_l in H
  | H : disjoint _ (_ :: _) |- _ => rewrite disjoint_cons_r in H
  | H : disjoint [] _ |- _ => clear H
  | H : disjoint _ [] |- _ => clear H
  | H : ~ In _ (_ ++ _) |- _ => rewrite not_in_app in H
  | H : ~ In _ (_ :: _) |- _ => rewrite not_in_cons_iff in H
  | H : ~ In _ [] |- _ => clear H
  end.

Ltac sep_goal :=
  repeat first
    [ rewrite NoDup_app_iff | rewrite NoDup_cons_iff | rewrite NoDup_nil_iff
    | rewrite disjoint_app_l | rewrite disjoint_app_r
    | rewrite disjoint_cons_l | rewrite disjoint_cons_r
    | rewrite disjoint_nil_l | rewrite disjoint_nil_r
    | rewrite not_in_app | rewrite not_in_cons_iff | rewrite not_in_nil_iff ];
  repeat match goal with |- _ /\ _ => split | |- True => exact I end.

Ltac sep_atom :=
  first
    [ assumption
    | apply disjoint_sym; assumption
    | apply not_eq_sym; assumption
    | match goal with
      | H : incl ?A' _ |- disjoint ?A' _ =>
          apply (disjoint_incl_l _ _ _ H); sep_goal; sep_atom
      | H : incl ?A' _ |- disjoint _ ?A' =>
          apply (disjoint_incl_r _ _ _ H); sep_goal; sep_atom
      | H : incl ?A' _ |- ~ In _ ?A' =>
          apply (not_in_incl _ _ _ H); sep_goal; sep_atom
      end ].


Ltac sep := sep_hyps; sep_goal; sep_atom.

Ltac incl_tac :=
  unfold incl in *; intros;
  repeat match goal with
  | H : forall a, In a ?A -> _, H' : In _ ?A |- _ => apply H in H'
  | H : In _ (_ ++ _) |- _ => apply in_app_or in H
  | H : In _ (_ :: _) |- _ => destruct H
  | H : In _ [] |- _ => destruct H
  | H : _ \/ _ |- _ => destruct H
  end;
  subst; rewrite ?in_app_iff; cbn [In]; tauto.

(** ** The heap *)

Lemma write_same h l o : write h l o l = o.
Proof. unfold write. now rewrite Nat.eqb_refl. Qed.

Lemma write_other h l o l' : l' <> l -> write h l o l' = h l'.
Proof. unfold write. intros H. apply Nat.eqb_neq in H. now rewrite H. Qed.

Lemma set_item_same h l key v : set_item h l key v l = Dict.set key v (h l).
Proof. apply write_same. Qed.

Lemma set_item_other h l key v l' : l' <> l -> set_item h l key v l' = h l'.
Proof. apply write_other. Qed.

(** A tree is read the same in two heaps that agree on the objects it
    visits. *)
Lemma repr_frame h :
  (forall v j f, repr h v j f ->
     forall h', (forall l, In l f -> h' l = h l) -> repr h' v j f) /\
  (forall vs js f, repr_items h vs js f ->
     forall h', (forall l, In l f -> h' l = h l) -> repr_items h' vs js f) /\
  (forall o d f, repr_dict h o d f ->
     forall h', (forall l, In l f -> h' l = h l) -> repr_dict h' o d f).
Proof.
  apply repr_mutind; intros; try constructor; auto.
  - rewrite (H1 l) by now left. apply H0. intros; apply H1; now right.
  - apply H0. intros; apply H3; apply in_or_app; auto.
  - apply H2. intros; apply H3; apply in_or_app; auto.
  - apply H0. intros; apply H3; apply in_or_app; auto.
  - apply H2. intros; apply H3; apply in_or_app; auto.
Qed.

Lemma repr_dict_frame h h' o d f :
  repr_dict h o d f -> (forall l, In l f -> h' l = h l) -> repr_dict h' o d f.
Proof. intros H. now apply (proj2 (proj2 (repr_frame h))). Qed.

Lemma repr_is_dict h v j f :
  repr h v j f -> is_dict j = match v with VRef _ => true | _ => false end.
Proof. now destruct 1. Qed.

Lemma repr_dict_app h o1 d1 f1 o2 d2 f2 :
  repr_dict h o1 d1 f1 -> repr_dict h o2 d2 f2 ->
  repr_dict h (o1 ++ o2) (d1 ++ d2) (f1 ++ f2).
Proof.
  induction 1; intros H2; simpl; [exact H2|].
  rewrite <- app_assoc. constructor; auto.
Qed.

(** The entry of a key, and the entries before and after it. *)
Lemma repr_dict_split h o d f : repr_dict h o d f ->
  forall key v, Dict.get key o = Some v ->
  exists o1 o2 d1 d2 j f1 fk f2,
    o = o1 ++ (key, v) :: o2 /\ d = d1 ++ (key, j) :: d2 /\
    f = f1 ++ fk ++ f2 /\
    repr_dict h o1 d1 f1 /\ repr h v j fk /\ repr_dict h o2 d2 f2 /\
    ~ In key (Dict.keys o1) /\ ~ In key (Dict.keys d1).
Proof.
  induction 1 as [|k0 v0 o j0 d f0 fs Hv Hd IH]; intros key v Hg; simpl in Hg.
  - discriminate.
  - destruct (String.eqb key k0) eqn:E.
    + apply String.eqb_eq in E. subst k0. injection Hg as <-.
      exists [], o, [], d, j0, [], f0, fs. simpl.
      repeat split; auto; constructor.
    + destruct (IH key v Hg)
        as (o1 & o2 & d1 & d2 & j & f1 & fk & f2 & -> & -> & -> & H1 & Hj & H2 & N1 & N2).
      apply String.eqb_neq in E.
      exists ((k0, v0) :: o1), o2, ((k0, j0) :: d1), d2, j, (f0 ++ f1), fk, f2.
      simpl. rewrite <- app_assoc.
      repeat split; auto; try (constructor; auto);
        intros [H | H]; [congruence | contradiction | congruence | contradiction].
Qed.

Lemma get_middle {V : Type} (key : string) (v : V) d1 d2 :
  ~ In key (Dict.keys d1) -> Dict.get key (d1 ++ (key, v) :: d2) = Some v.
Proof.
  induction d1 as [|[k x] d1 IH]; simpl; intros N.
  - now rewrite String.eqb_refl.
  - destruct (String.eqb key k) eqn:E.
    + apply String.eqb_eq in E. subst. tauto.
    + apply IH. tauto.
Qed.

Lemma set_middle {V : Type} (key : string) (v v' : V) d1 d2 :
  ~ In key (Dict.keys d1) ->
  Dict.set key v' (d1 ++ (key, v) :: d2) = d1 ++ (key, v') :: d2.
Proof.
  induction d1 as [|[k x] d1 IH]; simpl; intros N.
  - now rewrite String.eqb_refl.
  - destruct (String.eqb key k) eqn:E.
    + apply String.eqb_eq in E. subst. tauto.
    + f_equal. apply IH. tauto.
Qed.

(** [original[key] = v] on trees. *)
Lemma repr_dict_set h key v j fv : repr h v j fv ->
  forall o d fo, repr_dict h o d fo ->
  exists fo', repr_dict h (Dict.set key v o) (Dict.set key j d) fo' /\
              incl fo' (fo ++ fv) /\ (NoDup (fo ++ fv) -> NoDup fo').
Proof.
  intros Hv. induction 1 as [|k0 v0 o j0 d f0 fs H0 Hd IH]; simpl.
  - exists (fv ++ []). split; [repeat constructor; auto|].
    split; [incl_tac | now rewrite app_nil_r].
  - destruct (String.eqb key k0).
    + exists (fv ++ fs). split; [constructor; auto|].
      split; [incl_tac | intros ND; sep].
    + destruct IH as (fo' & Hr & Hi & Hn).
      exists (f0 ++ fo'). split; [constructor; auto|].
      split; [incl_tac|].
      intros ND. assert (NoDup fo') by (apply Hn; sep_hyps; sep).
      sep.
Qed.

Lemma nesting_dict d : nesting (JDict d) = S (entries_nesting d).
Proof.
  simpl. f_equal. induction d as [|[k v] d IH]; simpl; [reflexivity|].
  now rewrite IH.
Qed.

Lemma update_value_other old value :
  is_dict value
  && match old with Some v => is_dict v | None => false end = false ->
  Context.update_value old value = value.
Proof.
  rewrite Context.update_value_merged.
  destruct value; try reflexivity. destruct old as [[]|]; simpl; try reflexivity.
  discriminate.
Qed.

(** ** The in-place merge on separated trees *)

Ltac mem_false :=
  sep_hyps;
  repeat match goal with
  | H : incl ?A' _, H' : In _ ?A' |- _ => apply H in H'
  | H : In _ (_ ++ _) |- _ => apply in_app_or in H; destruct H
  | H : In _ (_ :: _) |- _ => destruct H; [subst|]
  | H : In _ [] |- _ => destruct H
  end;
  solve [ contradiction | congruence
        | match goal with
          | H : disjoint _ _ |- _ => eapply H; eassumption
          end ].

Ltac ne_tac := let Hc := fresh "Hc" in intros Hc; try subst; mem_false.

Lemma update_loop_step call steps i n h lo lu key v :
  List.length (h lu) = n -> nth_error (h lu) i = Some (key, v) ->
  update_loop call (S steps) i n h lo lu
  = match v, Dict.get key (h lo) with
    | VRef u, Some (VRef o) =>
        match call h o u with
        | (h', Some e) => (h', Some e)
        | (h', None) => update_loop call steps (S i) n (set_item h' lo key (VRef o)) lo lu
        end
    | _, _ => update_loop call steps (S i) n (set_item h lo key v) lo lu
    end.
Proof. intros Hn Hi. cbn [update_loop]. rewrite Hn, Nat.eqb_refl, Hi. reflexivity. Qed.

Lemma update_loop_end call steps n h lo lu :
  List.length (h lu) = n -> update_loop call (S steps) n n h lo lu = (h, None).
Proof.
  intros Hn. cbn [update_loop]. rewrite Hn, Nat.eqb_refl. cbn [negb].
  replace (nth_error (h lu) n) with (@None (string * value)); [reflexivity|].
  symmetry. apply nth_error_None. lia.
Qed.

(** Whether line 21 takes the merging branch. *)
Definition both_dicts (v : value) (old : option value) : bool :=
  match v, old with
  | VRef _, Some (VRef _) => true
  | _, _ => false
  end.

Lemma both_dicts_false {A : Type} v old (X : loc -> loc -> A) (Y : A) :
  both_dicts v old = false ->
  match v, old with VRef u, Some (VRef o) => X u o | _, _ => Y end = Y.
Proof. destruct v; try reflexivity. destruct old as [[]|]; try reflexivity. discriminate. Qed.

Lemma both_dicts_true v old :
  both_dicts v old = true -> exists u o, v = VRef u /\ old = Some (VRef o).
Proof.
  destruct v; try discriminate. destruct old as [[]|]; try discriminate. eauto.
Qed.

Lemma repr_dict_get_is_dict h o d f : repr_dict h o d f -> forall key,
  match Dict.get key d with Some v => is_dict v | None => false end
  = match Dict.get key o with Some (VRef _) => true | _ => false end.
Proof.
  induction 1 as [|k0 v0 o j0 d f0 fs H0 Hd IH]; intros key; simpl; [reflexivity|].
  destruct (String.eqb key k0); [|apply IH].
  rewrite (repr_is_dict _ _ _ _ H0). now destruct v0.
Qed.

Lemma both_dicts_trees h v jv fv o d fo key :
  repr h v jv fv -> repr_dict h o d fo ->
  is_dict jv && match Dict.get key d with Some x => is_dict x | None => false end
  = both_dicts v (Dict.get key o).
Proof.
  intros Hv Ho. rewrite (repr_is_dict _ _ _ _ Hv), (repr_dict_get_is_dict _ _ _ _ Ho key).
  destruct v; reflexivity.
Qed.

Section Merge.
Variable depth' : nat.
Hypothesis IHdepth : forall h lo lu d du fo fu,
  repr_dict h (h lo) d fo -> repr_dict h (h lu) du fu ->
  NoDup (lo :: fo ++ lu :: fu) ->
  (nesting (JDict du) <= depth')%nat ->
  exists h' fo',
    recursive_update depth' h lo lu = (h', None) /\
    repr_dict h' (h' lo) (Context.recursive_update d du) fo' /\
    incl fo' (fo ++ fu) /\ NoDup fo' /\
    (forall l, l <> lo -> ~ In l (fo ++ fu) -> h' l = h l).

Lemma update_loop_merges lo lu : forall U2 U1 h d fo du2 fu2,
  h lu = U1 ++ U2 ->
  repr_dict h (h lo) d fo -> repr_dict h U2 du2 fu2 ->
  NoDup (lo :: lu :: fo ++ fu2) ->
  (entries_nesting du2 <= depth')%nat ->
  exists h' fo',
    update_loop (recursive_update depth') (S (List.length U2)) (List.length U1)
                (List.length (U1 ++ U2)) h lo lu = (h', None) /\
    repr_dict h' (h' lo) (Context.recursive_update d du2) fo' /\
    incl fo' (fo ++ fu2) /\ NoDup fo' /\
    (forall l, l <> lo -> ~ In l (fo ++ fu2) -> h' l = h l).
Proof.
  induction U2 as [|[key v] U2 IH]; intros U1 h d fo du2 fu2 Hu Ro RU ND Hn.
  - inversion RU; subst. exists h, fo. split.
    + rewrite app_nil_r in *. apply update_loop_end. now rewrite Hu.
    + split; [exact Ro|]. split; [incl_tac|]. split; [sep | reflexivity].
  - inversion RU as [|? ? ? jv du2' fv fu2' Rv RU']; subst.
    assert (Hlen : List.length (h lu) = List.length (U1 ++ (key, v) :: U2))
      by now rewrite Hu.
    assert (Hnth : nth_error (h lu) (List.length U1) = Some (key, v)).
    { rewrite Hu, nth_error_app2, Nat.sub_diag by lia. reflexivity. }
    rewrite (update_loop_step _ _ _ _ _ _ _ _ _ Hlen Hnth).
    assert (Hnext : forall h2, h2 lu = h lu ->
              h2 lu = (U1 ++ [(key, v)]) ++ U2)
      by (intros h2 ->; now rewrite Hu, <- app_assoc).
    assert (Hsize : List.length (U1 ++ (key, v) :: U2)
                    = List.length ((U1 ++ [(key, v)]) ++ U2))
      by now rewrite <- app_assoc.
    assert (Hpos : S (List.length U1) = List.length (U1 ++ [(key, v)]))
      by (rewrite length_app; simpl; lia).
    rewrite Hsize, Hpos.
    cbn [entries_nesting fold_right snd] in Hn. fold (entries_nesting du2') in Hn.
    cbn [Context.recursive_update].
    destruct (both_dicts v (Dict.get key (h lo))) eqn:Eb.
    + (* both values are dicts: merge in place *)
      destruct (both_dicts_true _ _ Eb) as (u & o & -> & Eg). rewrite Eg.
      destruct (repr_dict_split _ _ _ _ Ro key (VRef o) Eg)
        as (o1 & o2 & d1 & d2 & j & f1 & fk & f2 & Eo & -> & -> & R1 & Rj & R2 & N1 & N2).
      inversion Rj as [| | | | |? dk fok Rk]; subst.
      inversion Rv as [| | | | |? dv fuv Ru]; subst.
      destruct (IHdepth h o u dk dv fok fuv Rk Ru) as (h1 & fok' & E1 & Rk' & I1 & Nk' & F1).
      { sep. }
      { lia. }
      rewrite E1.
      assert (Hlo : h1 lo = h lo) by (apply F1; ne_tac).
      assert (Hlu : h1 lu = h lu) by (apply F1; ne_tac).
      set (h2 := set_item h1 lo key (VRef o)).
      assert (H2lo : h2 lo = h lo).
      { unfold h2. rewrite set_item_same, Hlo, Eo. now apply set_middle. }
      assert (H2 : forall l, l <> lo -> h2 l = h1 l)
        by (intros; unfold h2; now apply set_item_other).
      destruct (IH (U1 ++ [(key, VRef u)]) h2
                   (d1 ++ (key, JDict (Context.recursive_update dk dv)) :: d2)
                   (f1 ++ (o :: fok') ++ f2) du2' fu2')
        as (h' & fo' & E' & R' & I' & N' & F').
      { apply Hnext. rewrite H2 by ne_tac. exact Hlu. }
      { rewrite H2lo, Eo. apply repr_dict_app.
        - apply (repr_dict_frame h); [exact R1|].
          intros l Hl. rewrite H2 by ne_tac. apply F1; ne_tac.
        - constructor.
          + constructor. rewrite H2 by ne_tac.
            apply (repr_dict_frame h1); [exact Rk'|].
            intros l Hl. apply H2. ne_tac.
          + apply (repr_dict_frame h); [exact R2|].
            intros l Hl. rewrite H2 by ne_tac. apply F1; ne_tac. }
      { apply (repr_dict_frame h); [exact RU'|].
        intros l Hl. rewrite H2 by ne_tac. apply F1; ne_tac. }
      { sep. }
      { lia. }
      exists h', fo'. split; [exact E'|]. split.
      * rewrite (get_middle key (JDict dk) d1 d2 N2), Context.update_value_merged.
        cbn [Context.merged]. rewrite (set_middle key _ _ d1 d2 N2). exact R'.
      * split; [incl_tac|]. split; [exact N'|].
        intros l Hl Hnot. rewrite F' by (auto; ne_tac).
        rewrite H2 by auto. apply F1; ne_tac.
    + (* otherwise the new value is stored *)
      rewrite (both_dicts_false _ _ _ _ Eb).
      destruct (repr_dict_set h key v jv fv Rv _ _ _ Ro) as (fo1 & R1 & I1 & N1).
      assert (Nfo1 : NoDup fo1) by (apply N1; sep).
      set (h1 := set_item h lo key v).
      assert (H1 : forall l, l <> lo -> h1 l = h l)
        by (intros; unfold h1; now apply set_item_other).
      destruct (IH (U1 ++ [(key, v)]) h1 (Dict.set key jv d) fo1 du2' fu2')
        as (h' & fo' & E' & R' & I' & N' & F').
      { apply Hnext. apply H1. ne_tac. }
      { unfold h1 at 2. rewrite set_item_same.
        apply (repr_dict_frame h); [exact R1|].
        intros l Hl. apply H1. ne_tac. }
      { apply (repr_dict_frame h); [exact RU'|].
        intros l Hl. apply H1. ne_tac. }
      { sep. }
      { lia. }
      exists h', fo'. split; [exact E'|]. split.
      * rewrite update_value_other; [exact R'|].
        rewrite (both_dicts_trees h v jv fv (h lo) d fo key Rv Ro). exact Eb.
      * split; [incl_tac|]. split; [exact N'|].
        intros l Hl Hnot. rewrite F' by (auto; ne_tac). now apply H1.
Qed.
End Merge.

(** On separated trees and with enough stack frames, the in-place merge
    returns, and leaves in [original] the tree that the merge of the two
    trees describes; the objects outside the two trees are untouched. *)
Lemma recursive_update_merges : forall depth h lo lu d du fo fu,
  repr_dict h (h lo) d fo -> repr_dict h (h lu) du fu ->
  NoDup (lo :: fo ++ lu :: fu) ->
  (nesting (JDict du) <= depth)%nat ->
  exists h' fo',
    recursive_update depth h lo lu = (h', None) /\
    repr_dict h' (h' lo) (Context.recursive_update d du) fo' /\
    incl fo' (fo ++ fu) /\ NoDup fo' /\
    (forall l, l <> lo -> ~ In l (fo ++ fu) -> h' l = h l).
Proof.
  induction depth as [|depth' IHd]; intros h lo lu d du fo fu Ro Ru ND Hn.
  - rewrite nesting_dict in Hn. lia.
  - cbn [recursive_update]. rewrite nesting_dict in Hn.
    apply (update_loop_merges depth' IHd lo lu (h lu) [] h d fo du fu); auto.
    + sep.
    + lia.
Qed.

(** ** [update_partial_context] on separated trees *)

Lemma repr_dict_lookup h o d f : repr_dict h o d f ->
  forall key j, Dict.get key d = Some j ->
  exists v fk, Dict.get key o = Some v /\ repr h v j fk.
Proof.
  induction 1 as [|k0 v0 o j0 d f0 fs H0 Hd IH]; intros key j Hg; simpl in *.
  - discriminate.
  - destruct (String.eqb key k0); [|now apply IH].
    injection Hg as <-. eauto.
Qed.

(** The merge of line 138 followed by the timestamp of line 139. *)
Lemma merge_and_stamp depth h l partial context updates f fu now :
  repr_dict h (h l) context f -> repr_dict h (h partial) updates fu ->
  NoDup (l :: f ++ partial :: fu) ->
  (nesting (JDict updates) <= depth)%nat ->
  exists h1 f',
    recursive_update depth h l partial = (h1, None) /\
    repr_dict (set_item h1 l "_timestamp" (VNum now))
              (set_item h1 l "_timestamp" (VNum now) l)
              (Dict.set "_timestamp" (JNum now) (Context.recursive_update context updates))
              f' /\
    incl f' (f ++ fu) /\ NoDup f' /\
    (forall x, x <> l -> ~ In x (f ++ fu) ->
               set_item h1 l "_timestamp" (VNum now) x = h x).
Proof.
  intros Rc Ru ND Hn.
  destruct (recursive_update_merges depth h l partial context updates f fu Rc Ru ND Hn)
    as (h1 & f1 & E1 & R1 & I1 & N1 & F1).
  destruct (repr_dict_set h1 "_timestamp" (VNum now) (JNum now) [] (repr_num h1 now)
              _ _ _ R1) as (f' & R' & I' & N').
  exists h1, f'. split; [exact E1|]. split.
  - rewrite set_item_same. apply (repr_dict_frame h1); [exact R'|].
    intros x Hx. apply set_item_other. ne_tac.
  - split; [incl_tac|]. split; [apply N'; now rewrite app_nil_r|].
    intros x Hx Hnot. rewrite set_item_other by exact Hx. now apply F1.
Qed.

(** The dict that [update_partial_context] merges into, read as a tree:
    the session's dict with the objects [fc] of its tree, or the dict
    built at [fresh] for a session that is not in the store. *)
Definition target (self : ContextManager) (h : heap) (sid : string) (fresh : loc)
    (created : Q) (context : Dict.t json) (fc : list loc) : Prop :=
  match Dict.get sid (_context_store self) with
  | Some l => exists f, fc = l :: f /\ repr_dict h (h l) context f
  | None => context = [("_timestamp", JNum created)] /\ fc = [fresh]
  end.

Lemma store_after_emit self sid type data :
  _context_store (_emit_event self sid type data) = _context_store self.
Proof. unfold _emit_event. now destruct (event_emission_enabled self). Qed.

Lemma use_redis_emit self sid type data :
  use_redis (_emit_event self sid type data) = use_redis self.
Proof. unfold _emit_event. now destruct (event_emission_enabled self). Qed.

Lemma update_partial_context_merges depth prints self h sid partial fresh created now
    context updates fc fu :
  use_redis self = false ->
  target self h sid fresh created context fc ->
  repr_dict h (h partial) updates fu ->
  NoDup (fc ++ partial :: fu) ->
  (nesting (JDict updates) <= depth)%nat ->
  exists self' h' l f',
    update_partial_context depth prints self h sid partial fresh created now
    = (if prints h' partial
       then Returned (_emit_event self' sid "update_partial" (VRef partial)) h'
       else Raised RecursionError self' h') /\
    use_redis self' = false /\
    delivered self' = delivered self /\
    Dict.get sid (_context_store self') = Some l /\
    (forall other, other <> sid ->
       Dict.get other (_context_store self') = Dict.get other (_context_store self)) /\
    repr_dict h' (h' l)
      (Dict.set "_timestamp" (JNum now) (Context.recursive_update context updates)) f' /\
    In l fc /\ incl f' (fc ++ fu) /\ NoDup (l :: f') /\
    (forall x, ~ In x (fc ++ fu) -> h' x = h x).
Proof.
  intros Hr Ht Ru ND Hn. unfold update_partial_context. rewrite Hr.
  unfold target in Ht. destruct (Dict.get sid (_context_store self)) as [l|] eqn:Eg.
  - destruct Ht as (f & -> & Rc).
    destruct (merge_and_stamp depth h l partial context updates f fu now Rc Ru)
      as (h1 & f' & E1 & R' & I' & N' & F'); [exact ND | exact Hn |].
    rewrite E1.
    exists self, (set_item h1 l "_timestamp" (VNum now)), l, f'.
    repeat split; auto.
    + now left.
    + incl_tac.
    + sep.
    + intros x Hx. apply F'; ne_tac.
  - destruct Ht as (-> & ->).
    set (h0 := write h fresh [("_timestamp", VNum created)]).
    assert (H0 : forall x, x <> fresh -> h0 x = h x)
      by (intros; unfold h0; now apply write_other).
    destruct (merge_and_stamp depth h0 fresh partial
                [("_timestamp", JNum created)] updates [] fu now)
      as (h1 & f' & E1 & R' & I' & N' & F').
    { unfold h0. rewrite write_same.
      apply (repr_dict_cons h0 "_timestamp" (VNum created) [] (JNum created) [] [] []);
        constructor. }
    { rewrite H0 by ne_tac. apply (repr_dict_frame h); [exact Ru|].
      intros x Hx. apply H0. ne_tac. }
    { exact ND. }
    { exact Hn. }
    rewrite E1.
    exists (with_store self (Dict.set sid fresh (_context_store self))),
           (set_item h1 fresh "_timestamp" (VNum now)), fresh, f'.
    repeat split; auto.
    + simpl. apply get_set_eq.
    + intros other Ho. simpl. apply get_set_neq. congruence.
    + now left.
    + incl_tac.
    + sep.
    + intros x Hx. rewrite F' by ne_tac. apply H0. ne_tac.
Qed.

(** The tree left by the two updates of "a". *)
Lemma two_updates_tree (context : Dict.t json) (n1 n2 : Q) :
  (forall d, Dict.get "a" context <> Some (JDict d)) ->
  Dict.get "a"
    (Dict.set "_timestamp" (JNum n2)
       (Context.recursive_update
          (Dict.set "_timestamp" (JNum n1)
             (Context.recursive_update context [("a", JDict [("x", JNum 1)])]))
          [("a", JDict [("y", JNum 2)])]))
  = Some (JDict [("x", JNum 1); ("y", JNum 2)]).
Proof.
  intros Hnd.
  assert (ND : forall k (v : json), NoDup (Dict.keys [(k, v)]))
    by (intros; repeat constructor; simpl; tauto).
  rewrite get_set_neq by discriminate.
  rewrite Context.recursive_update_get by apply ND.
  rewrite get_set_neq by discriminate.
  rewrite Context.recursive_update_get by apply ND.
  simpl.
  destruct (Dict.get "a" context) as [[| | | | |d]|]; try reflexivity.
  exfalso. now apply (Hnd d).
Qed.

Definition heap_of (cells : list object) : heap := fun l => nth l cells [].

Lemma repr_dict_entry h key v o j d f fs f' :
  repr h v j f -> repr_dict h o d fs -> f' = f ++ fs ->
  repr_dict h ((key, v) :: o) ((key, j) :: d) f'.
Proof. intros Hv Ho ->. now constructor. Qed.

Ltac repr_tac :=
  repeat first
    [ apply repr_dict_nil | apply repr_null | apply repr_bool | apply repr_num
    | apply repr_str | apply repr_ref
    | eapply repr_dict_entry | reflexivity ].

Lemma target_of self h sid fresh created l context f :
  Dict.get sid (_context_store self) = Some l ->
  repr_dict h (h l) context f ->
  target self h sid fresh created context (l :: f).
Proof. intros Hg Hr. unfold target. rewrite Hg. eauto. Qed.

Lemma get_context_of self h sid l :
  Dict.get sid (_context_store self) = Some l -> get_context self h sid = h l.
Proof. intros Hg. unfold get_context. now rewrite Hg. Qed.

Lemma repr_dict_x_y h o f :
  repr_dict h o [("x", JNum 1); ("y", JNum 2)] f ->
  o = [("x", VNum 1); ("y", VNum 2)].
Proof.
  intros H.
  inversion H as [|? v1 o1 ? ? ? ? Hv1 H1]; subst.
  inversion H1 as [|? v2 o2 ? ? ? ? Hv2 H2]; subst.
  inversion H2; subst. inversion Hv1; subst. inversion Hv2; subst. reflexivity.
Qed.

(** The state that a call of [update_partial_context] leaves, when the
    merge itself has not raised. *)
Lemma state_after_print (b : bool) self self' h e :
  _context_store self = _context_store self' -> use_redis self = use_redis self' ->
  exists s, state_after (if b then Returned self h else Raised e self' h) = Some (s, h) /\
            _context_store s = _context_store self' /\ use_redis s = use_redis self'.
Proof. intros Hs Hr. destruct b; simpl; eauto. Qed.

(** *** Examples *)

(** A session "s" whose context holds a dict under "a", and an update that
    holds another dict under "a". *)
Definition session_heap : heap :=
  heap_of [ [("_timestamp", VNum 5); ("a", VRef 1)];
            [("x", VNum 1)];
            [("a", VRef 3)];
            [("y", VNum 2)] ].

Definition session_manager : ContextManager :=
  {| use_redis := false; event_emission_enabled := false; _event_listeners := [];
     _context_store := [("s", 0%nat)]; delivered := [] |}.

(** Three updates, at the addresses 0, 2 and 5; the first holds one dict,
    at address 1, under both "a" and "b". *)
Definition shared_heap : heap :=
  heap_of [ [("a", VRef 1); ("b", VRef 1)];
            [("x", VNum 1)];
            [("a", VRef 3); ("b", VRef 4)];
            [("y", VNum 2)];
            [("z", VNum 3)];
            [("a", VRef 3)] ].

Definition in_memory : ContextManager :=
  {| use_redis := false; event_emission_enabled := false; _event_listeners := [];
     _context_store := []; delivered := [] |}.

(** Two chains of [n] dicts, each nested in the one before it under the
    key "k": the chain of the context at the even addresses, the chain of
    the update at the odd ones. *)
Definition chains (n : nat) : heap :=
  fun l => if Nat.ltb l (2 * n) then [("k", VRef (S (S l)))] else [].

Lemma chains_overflow : forall depth n l,
  (l + 2 * depth < 2 * n)%nat ->
  recursive_update depth (chains n) l (S l) = (chains n, Some RecursionError).
Proof.
  induction depth as [|depth IH]; intros n l Hl; [reflexivity|].
  cbn [recursive_update].
  assert (Hu : chains n (S l) = [("k", VRef (S (S (S l))))]).
  { unfold chains. replace (Nat.ltb (S l) (2 * n)) with true; [reflexivity|].
    symmetry. apply Nat.ltb_lt. lia. }
  assert (Ho : chains n l = [("k", VRef (S (S l)))]).
  { unfold chains. replace (Nat.ltb l (2 * n)) with true; [reflexivity|].
    symmetry. apply Nat.ltb_lt. lia. }
  rewrite Hu. cbn [List.length].
  rewrite (update_loop_step _ _ _ _ _ _ _ "k" (VRef (S (S (S l)))))
    by (rewrite Hu; reflexivity).
  rewrite Ho. cbn [Dict.get]. rewrite String.eqb_refl.
  rewrite IH by lia. reflexivity.
Qed.

(** An update that is itself held by the context under "a": merging its
    "a" into it adds a key to the dict that is being iterated, and the
    iteration raises. *)
Example recursive_update_changed_size :
  let h := heap_of [ [("a", VRef 1)];
                     [("a", VRef 2); ("b", VNum 1)];
                     [("c", VNum 1)] ] in
  snd (recursive_update 5 h 0 1) = Some RuntimeError /\
  fst (recursive_update 5 h 0 1) 1%nat
  = [("a", VRef 2); ("b", VNum 1); ("c", VNum 1)].
Proof. split; reflexivity. Qed.

(** C7 as stated does not hold of the code.  A dict of an update is stored
    by reference: after an update that holds one dict under "a" and under
    "b", an update of "a" with y and of "b" with z leaves "a" mapped to x, y
    and z, where the deep merge of the trees has x and y; and an update of
    "a" alone, with y, changes "b" as well.  And whatever the number of
    stack frames, on a context and an update nested one level deeper the
    call raises [RecursionError] and merges nothing. *)
Lemma update_partial_context_counterexample :
  (exists self1 h1 self2 h2,
     state_after (update_partial_context 10 (fun _ _ => true) in_memory shared_heap
                    "s" 0 6 100 101) = Some (self1, h1) /\
     state_after (update_partial_context 10 (fun _ _ => true) self1 h1
                    "s" 2 7 200 201) = Some (self2, h2) /\
     Dict.get "a" (get_context self2 h2 "s") = Some (VRef 1) /\
     h2 1%nat = [("x", VNum 1); ("y", VNum 2); ("z", VNum 3)] /\
     Dict.get "a"
       (Context.recursive_update
          (Context.recursive_update []
             [("a", JDict [("x", JNum 1)]); ("b", JDict [("x", JNum 1)])])
          [("a", JDict [("y", JNum 2)]); ("b", JDict [("z", JNum 3)])])
     = Some (JDict [("x", JNum 1); ("y", JNum 2)])) /\
  (exists self1 h1 self2 h2,
     state_after (update_partial_context 10 (fun _ _ => true) in_memory shared_heap
                    "s" 0 6 100 101) = Some (self1, h1) /\
     state_after (update_partial_context 10 (fun _ _ => true) self1 h1
                    "s" 5 7 200 201) = Some (self2, h2) /\
     h1 5%nat = [("a", VRef 3)] /\
     Dict.get "b" (get_context self1 h1 "s") = Some (VRef 1) /\
     h1 1%nat = [("x", VNum 1)] /\
     Dict.get "b" (get_context self2 h2 "s") = Some (VRef 1) /\
     h2 1%nat = [("x", VNum 1); ("y", VNum 2)]) /\
  (forall depth prints fresh created now,
     update_partial_context depth prints session_manager (chains (S depth))
       "s" 1 fresh created now
     = Raised RecursionError session_manager (chains (S depth))).
Proof.
  split; [|split].
  - do 4 eexists. split; [reflexivity|]. split; [reflexivity|].
    repeat split; reflexivity.
  - do 4 eexists. split; [reflexivity|]. split; [reflexivity|].
    repeat split; reflexivity.
  - intros depth prints fresh created now.
    unfold update_partial_context. cbn.
    now rewrite (chains_overflow depth (S depth) 0) by lia.
Qed.

(** C7, amended.  With the in-memory store, let the session's context and
    the update be trees that share no dict object, neither within one tree
    nor between the two, and let the update be nested no deeper than the
    stack frames left.  Then [update_partial_context] merges the update
    into the context and sets "_timestamp"; the call returns, unless the
    [print] of the update raises [RecursionError], which happens after the
    merge and the timestamp.  In both cases the session's context reads as
    the deep merge of the two trees: a key of the update whose old and new
    values are both maps has their recursive merge, any other key of the
    update has the new value, and the other keys keep theirs; the objects
    outside the two trees are untouched, and so is every other session
    whose dicts are outside them.  The merge
    follows the same rule at every level.  Two updates of "a", first with x
    then with y, held in dicts of their own, leave "a" mapped to a dict
    with x and y. *)
Theorem update_partial_context_deep_merge :
  (forall depth prints self h sid partial fresh created now context updates fc fu,
     use_redis self = false ->
     target self h sid fresh created context fc ->
     repr_dict h (h partial) updates fu ->
     NoDup (fc ++ partial :: fu) ->
     (nesting (JDict updates) <= depth)%nat ->
     let call := update_partial_context depth prints self h sid partial fresh created now in
     let tree := Dict.set "_timestamp" (JNum now)
                   (Context.recursive_update context updates) in
     exists self' h' f',
       (call = Returned self' h' \/
        call = Raised RecursionError self' h' /\ prints h' partial = false /\
        delivered self' = delivered self) /\
       repr_dict h' (get_context self' h' sid) tree f' /\
       NoDup f' /\ incl f' (fc ++ fu) /\
       (forall x, ~ In x (fc ++ fu) -> h' x = h x) /\
       (forall other, other <> sid ->
          Dict.get other (_context_store self') = Dict.get other (_context_store self)) /\
       (forall other lo d f,
          other <> sid -> Dict.get other (_context_store self) = Some lo ->
          repr_dict h (h lo) d f ->
          ~ In lo (fc ++ fu) -> disjoint f (fc ++ fu) ->
          repr_dict h' (get_context self' h' other) d f) /\
       Dict.get "_timestamp" tree = Some (JNum now) /\
       (forall key, NoDup (Dict.keys updates) -> key <> "_timestamp" ->
          Dict.get key tree
          = match Dict.get key updates with
            | Some new => Some (Context.merged (Dict.get key context) new)
            | None => Dict.get key context
            end)) /\
  (forall (original updates : Dict.t json) (key : string),
     NoDup (Dict.keys updates) ->
     Dict.get key (Context.recursive_update original updates)
     = match Dict.get key updates with
       | Some new => Some (Context.merged (Dict.get key original) new)
       | None => Dict.get key original
       end) /\
  (forall depth prints self h sid p1 a1 p2 a2 fresh1 fresh2 c1 n1 c2 n2 context fc,
     use_redis self = false ->
     target self h sid fresh1 c1 context fc ->
     (forall d, Dict.get "a" context <> Some (JDict d)) ->
     h p1 = [("a", VRef a1)] -> h a1 = [("x", VNum 1)] ->
     h p2 = [("a", VRef a2)] -> h a2 = [("y", VNum 2)] ->
     NoDup (fc ++ [p1; a1; p2; a2]) ->
     (2 <= depth)%nat ->
     exists self1 h1 self2 h2 l,
       state_after (update_partial_context depth prints self h sid p1 fresh1 c1 n1)
       = Some (self1, h1) /\
       state_after (update_partial_context depth prints self1 h1 sid p2 fresh2 c2 n2)
       = Some (self2, h2) /\
       Dict.get "a" (get_context self2 h2 sid) = Some (VRef l) /\
       h2 l = [("x", VNum 1); ("y", VNum 2)]).
Proof.
  split; [|split].
  - intros depth prints self h sid partial fresh created now context updates fc fu
           Hr Ht Ru ND Hn call tree.
    destruct (update_partial_context_merges depth prints self h sid partial fresh
                created now context updates fc fu Hr Ht Ru ND Hn)
      as (self' & h' & l & f' & Ec & Hr' & Hd & Hg & Ho & R & Il & If & Nf & F).
    fold call in Ec. fold tree in R.
    assert (Htail :
      NoDup f' /\ incl f' (fc ++ fu) /\
      (forall x, ~ In x (fc ++ fu) -> h' x = h x) /\
      Dict.get "_timestamp" tree = Some (JNum now) /\
      (forall key, NoDup (Dict.keys updates) -> key <> "_timestamp" ->
         Dict.get key tree
         = match Dict.get key updates with
           | Some new => Some (Context.merged (Dict.get key context) new)
           | None => Dict.get key context
           end)).
    { split; [now inversion Nf|]. split; [exact If|]. split; [exact F|].
      split; [apply get_set_eq|].
      intros key NDk Hk. unfold tree. rewrite get_set_neq by congruence.
      now apply Context.recursive_update_get. }
    destruct Htail as (T1 & T2 & T3 & T4 & T5).
    assert (Hother : forall s, _context_store s = _context_store self' ->
              forall other lo d f,
                other <> sid -> Dict.get other (_context_store self) = Some lo ->
                repr_dict h (h lo) d f ->
                ~ In lo (fc ++ fu) -> disjoint f (fc ++ fu) ->
                repr_dict h' (get_context s h' other) d f).
    { intros s Hs other lo d f Hne Hgo Rd Hlo Hdis.
      rewrite (get_context_of s h' other lo) by (rewrite Hs, Ho; auto).
      rewrite (F lo Hlo). apply (repr_dict_frame h); [exact Rd|].
      intros x Hx. apply F. intros Hc. exact (Hdis x Hx Hc). }
    destruct (prints h' partial) eqn:Ep.
    + exists (_emit_event self' sid "update_partial" (VRef partial)), h', f'.
      split; [now left|].
      rewrite (get_context_of _ h' sid l) by (now rewrite store_after_emit).
      split; [exact R|]. split; [exact T1|]. split; [exact T2|]. split; [exact T3|].
      split; [now rewrite store_after_emit|].
      split; [exact (Hother _ (store_after_emit _ _ _ _))|]. auto.
    + exists self', h', f'. split; [right; auto|].
      rewrite (get_context_of _ h' sid l) by exact Hg.
      split; [exact R|]. split; [exact T1|]. split; [exact T2|]. split; [exact T3|].
      split; [exact Ho|].
      split; [exact (Hother _ eq_refl)|]. auto.
  - intros. now apply Context.recursive_update_get.
  - intros depth prints self h sid p1 a1 p2 a2 fresh1 fresh2 c1 n1 c2 n2 context fc
           Hr Ht Hnd Hp1 Ha1 Hp2 Ha2 ND Hn.
    assert (R1 : repr_dict h (h p1) [("a", JDict [("x", JNum 1)])] [a1]).
    { rewrite Hp1. eapply repr_dict_entry; [apply repr_ref; rewrite Ha1; repr_tac | repr_tac | reflexivity]. }
    destruct (update_partial_context_merges depth prints self h sid p1 fresh1 c1 n1
                context _ fc [a1] Hr Ht R1)
      as (s1 & h1 & l & f1 & Ec1 & Hr1 & _ & Hg1 & _ & Rc1 & Il1 & If1 & Nf1 & F1).
    { sep. }
    { simpl. lia. }
    destruct (state_after_print (prints h1 p1)
                (_emit_event s1 sid "update_partial" (VRef p1)) s1 h1 RecursionError)
      as (self1 & Es1 & Hst1 & Hrd1);
      [apply store_after_emit | apply use_redis_emit |].
    rewrite <- Ec1 in Es1.
    assert (R2 : repr_dict h1 (h1 p2) [("a", JDict [("y", JNum 2)])] [a2]).
    { rewrite !F1 by ne_tac. rewrite Hp2.
      eapply repr_dict_entry;
        [apply repr_ref; rewrite F1 by ne_tac; rewrite Ha2; repr_tac | repr_tac | reflexivity]. }
    destruct (update_partial_context_merges depth prints self1 h1 sid p2 fresh2 c2 n2
                _ _ (l :: f1) [a2] (eq_trans Hrd1 Hr1)
                (target_of self1 h1 sid fresh2 c2 l _ f1 (eq_trans (f_equal (Dict.get sid) Hst1) Hg1) Rc1)
                R2)
      as (s2 & h2 & l2 & f2 & Ec2 & Hr2 & _ & Hg2 & _ & Rc2 & _).
    { assert (~ In l [p1; a1; p2; a2]) by ne_tac.
      assert (incl f1 (fc ++ [a1])) by exact If1.
      sep. }
    { simpl. lia. }
    destruct (state_after_print (prints h2 p2)
                (_emit_event s2 sid "update_partial" (VRef p2)) s2 h2 RecursionError)
      as (self2 & Es2 & Hst2 & _);
      [apply store_after_emit | apply use_redis_emit |].
    rewrite <- Ec2 in Es2.
    destruct (repr_dict_lookup _ _ _ _ Rc2 "a" _ (two_updates_tree context n1 n2 Hnd))
      as (v & fk & Hv & Rv).
    inversion Rv as [| | | | |l' ? ? Rl]; subst.
    exists self1, h1, self2, h2, l'.
    split; [exact Es1|]. split; [exact Es2|].
    rewrite (get_context_of self2 h2 sid l2) by (now rewrite Hst2).
    split; [exact Hv|]. now apply (repr_dict_x_y h2 _ _ Rl).
Qed.

Lemma update_partial_context_deep_merge_witness :
  exists self' h' f',
    state_after (update_partial_context 2 (fun _ _ => true) session_manager session_heap
                   "s" 2 4 6 7) = Some (self', h') /\
    repr_dict h' (get_context self' h' "s")
      [("_timestamp", JNum 7); ("a", JDict [("x", JNum 1); ("y", JNum 2)])] f'.
Proof.
  destruct (proj1 update_partial_context_deep_merge 2%nat (fun _ _ => true)
              session_manager session_heap "s" 2%nat 4%nat 6 7
              [("_timestamp", JNum 5); ("a", JDict [("x", JNum 1)])]
              [("a", JDict [("y", JNum 2)])] [0; 1]%nat [3%nat])
    as (self' & h' & f' & Hc & R & _).
  - reflexivity.
  - exists [1%nat]. split; [reflexivity|]. repr_tac.
  - repr_tac.
  - repeat constructor; simpl; intuition discriminate.
  - simpl. lia.
  - exists self', h', f'. split; [|exact R].
    destruct Hc as [Hc | [Hc _]]; rewrite Hc; reflexivity.
Defined.

End ContextObjects.
